(** * ConvertJSON (time.py): the decoder of the tag-prefixed array format
      and its two key look-ups, embedded from the Python source.

    Conventions of the embedding.
    - A Python [str] is a [string]; the patterns of the source only name
      ASCII characters.
    - Exceptions are the [Raise] outcome of an explicit result type.  In
      [ConvertJSON] the call stack is as deep as the text needs and [int]
      reads a run of digits of any length; the module [Host] adds the
      bounds of an interpreter, the frames that are left on the stack and
      the digits that [int] takes, and says where the two agree.
    - [nestLevel] recurses on the text that is left, which Rocq cannot see
      as structural: it takes a step budget, and [nestLevel_fuel_enough]
      shows that [S (length keyData)] steps always suffice.
    - Reading the file is left to the caller of [decode_text]; [decode]
      takes the file system as a function. *)

From stdpp Require Import base gmap.
From Stdlib Require Import String Ascii List ZArith Lia Bool Arith.
Import ListNotations.

Local Open Scope string_scope.
Local Open Scope list_scope.

#[local] Arguments String.append _ _ : simpl nomatch.

(** ** Python values used by the decoder *)

Inductive error : Type :=
| InvalidArrayFormat (text : string)
| FileNotFoundError
| IndexError
| TypeError
| ValueError
| AttributeError.

Inductive outcome (A : Type) : Type :=
| Ok (a : A)
| Raise (e : error)
| OutOfFuel.

Arguments Ok {A} a.
Arguments Raise {A} e.
Arguments OutOfFuel {A}.

#[local] Unset Elimination Schemes.

Inductive scalar : Type :=
| SInt (z : Z)
| SStr (s : string)
| SBool (b : bool).

(** What [nestLevel] appends to its lists: an int, a str, a bool, or a
    nested list. *)
Inductive Node : Type :=
| Scalar (s : scalar)
| List (l : list Node).

(** What [convert] stores in its dicts.  A dict keeps its items in insertion
    order; its keys are hashable, hence scalars. *)
Inductive Value : Type :=
| VScalar (s : scalar)
| VDict (items : list (scalar * Value)).

#[local] Set Elimination Schemes.

Definition Dict : Type := list (scalar * Value).

(** ** Strings *)

Definition dquote : ascii := "034"%char.

(** Test inputs are written with ' where the format has a double quote. *)
Fixpoint dq (s : string) : string :=
  match s with
  | EmptyString => EmptyString
  | String c s' => String (if Ascii.eqb c "'" then dquote else c) (dq s')
  end.

(** [s[:n]] and [s[n:]] for [0 <= n]. *)
Fixpoint slice_to (n : nat) (s : string) : string :=
  match n, s with
  | S n', String c s' => String c (slice_to n' s')
  | _, _ => EmptyString
  end.

Fixpoint slice_from (n : nat) (s : string) : string :=
  match n, s with
  | S n', String _ s' => slice_from n' s'
  | _, _ => s
  end.

Definition startswith (s : string) (c : ascii) : bool :=
  match s with
  | String c' _ => Ascii.eqb c' c
  | EmptyString => false
  end.

Fixpoint endswith (s : string) (c : ascii) : bool :=
  match s with
  | EmptyString => false
  | String c' EmptyString => Ascii.eqb c' c
  | String _ s' => endswith s' c
  end.

(** [s[:-1]] *)
Fixpoint drop_last (s : string) : string :=
  match s with
  | EmptyString => EmptyString
  | String _ EmptyString => EmptyString
  | String c s' => String c (drop_last s')
  end.

(** [s[1:len(s) - 1]] *)
Definition strip_ends (s : string) : string :=
  match s with
  | EmptyString => EmptyString
  | String _ s' => drop_last s'
  end.

(** ** Regular expressions

    The fragment of Python's [re] that the class attributes use, with the
    backtracking order of the library: alternatives left to right, greedy
    repetition.  Repetition is only ever applied to a character class. *)

Inductive charclass : Type :=
| CRange (lo hi : ascii)      (* [lo-hi] *)
| CSet (members : string)     (* [abc]   *)
| CNot (excluded : string).   (* [^abc]  *)

Fixpoint mem_char (c : ascii) (s : string) : bool :=
  match s with
  | EmptyString => false
  | String c' s' => Ascii.eqb c c' || mem_char c s'
  end.

Definition in_class (p : charclass) (c : ascii) : bool :=
  match p with
  | CRange lo hi => (nat_of_ascii lo <=? nat_of_ascii c)%nat
                    && (nat_of_ascii c <=? nat_of_ascii hi)%nat
  | CSet m => mem_char c m
  | CNot m => negb (mem_char c m)
  end.

Inductive regex : Type :=
| Eps                         (* the empty pattern *)
| Bol                         (* ^ *)
| Chr (c : ascii)
| Cls (p : charclass)
| Cat (r1 r2 : regex)
| Alt (r1 r2 : regex)         (* r1|r2 *)
| Plus (p : charclass)        (* p+ *)
| Star (p : charclass)        (* p* *)
| Opt (r : regex).            (* r? *)

(** Greedy [p*] followed by the continuation [k]: take one more character
    when the rest can still match, give it back otherwise. *)
Fixpoint star (p : charclass) (k : nat -> string -> option nat)
    (pos : nat) (s : string) : option nat :=
  match s with
  | String c s' =>
      if in_class p c then
        match star p k (S pos) s' with
        | Some e => Some e
        | None => k pos s
        end
      else k pos s
  | EmptyString => k pos s
  end.

(** [rmatch r k pos s]: match [r] at offset [pos], where [s] is the text
    from [pos] on, then continue with [k]; the result is the offset at which
    the whole match ends. *)
Fixpoint rmatch (r : regex) (k : nat -> string -> option nat)
    (pos : nat) (s : string) : option nat :=
  match r with
  | Eps => k pos s
  | Bol => if (pos =? 0)%nat then k pos s else None
  | Chr c =>
      match s with
      | String c' s' => if Ascii.eqb c' c then k (S pos) s' else None
      | EmptyString => None
      end
  | Cls p =>
      match s with
      | String c' s' => if in_class p c' then k (S pos) s' else None
      | EmptyString => None
      end
  | Cat r1 r2 => rmatch r1 (rmatch r2 k) pos s
  | Alt r1 r2 =>
      match rmatch r1 k pos s with
      | Some e => Some e
      | None => rmatch r2 k pos s
      end
  | Plus p =>
      match s with
      | String c' s' => if in_class p c' then star p k (S pos) s' else None
      | EmptyString => None
      end
  | Star p => star p k pos s
  | Opt r' =>
      match rmatch r' k pos s with
      | Some e => Some e
      | None => k pos s
      end
  end.

Definition accept : nat -> string -> option nat := fun pos _ => Some pos.

(** [re.search(r, s).span()]: the leftmost offset at which [r] matches. *)
Fixpoint search_from (r : regex) (pos : nat) (s : string) : option (nat * nat) :=
  match rmatch r accept pos s with
  | Some e => Some (pos, e)
  | None =>
      match s with
      | String _ s' => search_from r (S pos) s'
      | EmptyString => None
      end
  end.

Definition search (r : regex) (s : string) : option (nat * nat) :=
  search_from r 0 s.

(** [re.split(r, s)]: cut [s] at every match of [r]; only used with
    patterns that match one character, given by a test on the character
    before and the text from the candidate on. *)
Fixpoint split_at (cut : option ascii -> string -> bool)
    (prev : option ascii) (piece : string) (s : string) : list string :=
  match s with
  | EmptyString => [piece]
  | String c s' =>
      if cut prev s then piece :: split_at cut (Some c) EmptyString s'
      else split_at cut (Some c) (piece ++ String c EmptyString) s'
  end.

(** A literal string, and a sequence of patterns. *)
Fixpoint str (s : string) : regex :=
  match s with
  | EmptyString => Eps
  | String c s' => Cat (Chr c) (str s')
  end.

Fixpoint seq (rs : list regex) : regex :=
  match rs with
  | [] => Eps
  | r :: rs' => Cat r (seq rs')
  end.

(** ** class ConvertJSON: the token patterns *)

Module ConvertJSON.

Definition digit : charclass := CRange "0" "9".

(** [integer = r'^i:[0-9]+;?'] *)
Definition integer : regex :=
  seq [Bol; str "i:"; Plus digit; Opt (Chr ";")].

(** [string = r'^s:[0-9]+:Q[^Q]*Q;?'], where Q is the double quote (written
    with a backslash in the source) *)
Definition string_ : regex :=
  seq [Bol; str "s:"; Plus digit; Chr ":"; Chr dquote;
       Star (CNot (String dquote EmptyString)); Chr dquote; Opt (Chr ";")].

(** [array = r'^a:[0-9]+:{'] *)
Definition array : regex :=
  seq [Bol; str "a:"; Plus digit; str ":{"].

(** [boolean = r'^b:[01];?'] *)
Definition boolean : regex :=
  seq [Bol; str "b:"; Cls (CSet "01"); Opt (Chr ";")].

(** [endArr = r'^}'] *)
Definition endArr : regex :=
  seq [Bol; Chr "}"].

(** [lexer = re.compile('({}|{}|{}|{}|{})'.format(integer, string, array,
    endArr, boolean))] *)
Definition lexer : regex :=
  Alt integer (Alt string_ (Alt array (Alt endArr boolean))).

(** [colonStringSplit = re.compile(r'(?<=s):|:(?=Q)')], Q the double quote:
    a colon that follows an s, or a colon that a double quote follows. *)
Definition colonStringSplit (prev : option ascii) (s : string) : bool :=
  match s with
  | String ":" s' =>
      match prev with
      | Some "s"%char => true
      | _ => startswith s' dquote
      end
  | _ => false
  end.

(** The separator of [substring.split(':')]. *)
Definition colon (prev : option ascii) (s : string) : bool :=
  startswith s ":".

Definition re_split (cut : option ascii -> string -> bool) (s : string)
  : list string :=
  split_at cut None EmptyString s.

(** ** Pieces of Python used by [nestLevel] *)

(** [_, value = pieces] *)
Definition unpack2 {A} (pieces : list A) : outcome A :=
  match pieces with
  | [_; value] => Ok value
  | _ => Raise ValueError
  end.

(** [_, _, value = pieces] *)
Definition unpack3 {A} (pieces : list A) : outcome A :=
  match pieces with
  | [_; _; value] => Ok value
  | _ => Raise ValueError
  end.

Definition digit_value (c : ascii) : option Z :=
  if in_class digit c then Some (Z.of_nat (nat_of_ascii c) - 48)%Z else None.

Fixpoint int_digits (acc : Z) (s : string) : outcome Z :=
  match s with
  | EmptyString => Ok acc
  | String c s' =>
      match digit_value c with
      | Some d => int_digits (10 * acc + d)%Z s'
      | None => Raise ValueError
      end
  end.

(** [int(value)] on the texts this call site can see: a run of decimal
    digits, of any length.  Anything else is rejected with [ValueError].
    [Host.py_int] adds the bound of an interpreter on the number of
    digits. *)
Definition py_int (value : string) : outcome Z :=
  match value with
  | EmptyString => Raise ValueError
  | _ => int_digits 0 value
  end.

(** [bool(value)] for a str: true unless the str is empty. *)
Definition py_bool (value : string) : bool :=
  match value with
  | EmptyString => false
  | _ => true
  end.

(** ** decode.nestLevel

    [keyData] is the non-local text that every call bites from: a state
    and exception monad over it. *)

Definition M (A : Type) : Type := string -> outcome A * string.

Definition ret {A} (a : A) : M A := fun keyData => (Ok a, keyData).

Definition bind {A B} (m : M A) (f : A -> M B) : M B :=
  fun keyData =>
    match m keyData with
    | (Ok a, keyData') => f a keyData'
    | (Raise e, keyData') => (Raise e, keyData')
    | (OutOfFuel, keyData') => (OutOfFuel, keyData')
    end.

Definition lift {A} (o : outcome A) : M A := fun keyData => (o, keyData).

Notation "x <- m ;; f" := (bind m (fun x => f))
  (at level 100, m at next level, right associativity).

(** The text of a matched token, its trailing semicolon removed:
    [if substring.endswith(';'): substring = substring[:-1]]. *)
Definition strip_semicolon (substring : string) : string :=
  if endswith substring ";" then drop_last substring else substring.

(** The [i], [s] and [b] branches: the value appended to [currentList]. *)
Definition parse_int (substring : string) : outcome Node :=
  match unpack2 (re_split colon substring) with
  | Ok value =>
      match py_int value with
      | Ok z => Ok (Scalar (SInt z))
      | Raise e => Raise e
      | OutOfFuel => OutOfFuel
      end
  | Raise e => Raise e
  | OutOfFuel => OutOfFuel
  end.

Definition parse_str (substring : string) : outcome Node :=
  match unpack3 (re_split colonStringSplit substring) with
  | Ok value => Ok (Scalar (SStr (strip_ends value)))
  | Raise e => Raise e
  | OutOfFuel => OutOfFuel
  end.

Definition parse_bool (substring : string) : outcome Node :=
  match unpack2 (re_split colon substring) with
  | Ok value => Ok (Scalar (SBool (py_bool value)))
  | Raise e => Raise e
  | OutOfFuel => OutOfFuel
  end.

Fixpoint nestLevel (fuel : nat) (currentList : list Node) : M (list Node) :=
  match fuel with
  | O => lift OutOfFuel
  | S fuel' => fun keyData =>
      match keyData with
      | EmptyString => (Ok currentList, keyData)
      | _ =>
          match search lexer keyData with
          | None => (Raise (InvalidArrayFormat keyData), keyData)
          | Some (start, end_) =>
              let substring := strip_semicolon (slice_to end_ keyData) in
              let keyData := slice_from end_ keyData in
              if startswith substring "a" then
                (sub <- nestLevel fuel' [] ;;
                 nestLevel fuel' (currentList ++ [List sub])) keyData
              else if startswith substring "i" then
                (value <- lift (parse_int substring) ;;
                 nestLevel fuel' (currentList ++ [value])) keyData
              else if startswith substring "s" then
                (value <- lift (parse_str substring) ;;
                 nestLevel fuel' (currentList ++ [value])) keyData
              else if startswith substring "b" then
                (value <- lift (parse_bool substring) ;;
                 nestLevel fuel' (currentList ++ [value])) keyData
              else if startswith substring "}" then
                (Ok currentList, keyData)
              else nestLevel fuel' currentList keyData
          end
      end
  end.

(** [nestLevel] with a log: the text [keyData[start:end]] of every match
    is added to a list kept beside [keyData].  The log is not part of the
    program; [nestLevel_spans_erase] shows that leaving it out gives
    [nestLevel]. *)
Definition span_text (keyData : string) (start end_ : nat) : string :=
  slice_from start (slice_to end_ keyData).

Fixpoint nestLevel_spans (fuel : nat) (currentList : list Node)
    (keyData : string) (spans : list string)
  : outcome (list Node) * (string * list string) :=
  match fuel with
  | O => (OutOfFuel, (keyData, spans))
  | S fuel' =>
      match keyData with
      | EmptyString => (Ok currentList, (keyData, spans))
      | _ =>
          match search lexer keyData with
          | None => (Raise (InvalidArrayFormat keyData), (keyData, spans))
          | Some (start, end_) =>
              let spans := spans ++ [span_text keyData start end_] in
              let substring := strip_semicolon (slice_to end_ keyData) in
              let keyData := slice_from end_ keyData in
              let append (o : outcome Node) :=
                match o with
                | Ok value =>
                    nestLevel_spans fuel' (currentList ++ [value])
                      keyData spans
                | Raise e => (Raise e, (keyData, spans))
                | OutOfFuel => (OutOfFuel, (keyData, spans))
                end in
              if startswith substring "a" then
                match nestLevel_spans fuel' [] keyData spans with
                | (Ok sub, (keyData, spans)) =>
                    nestLevel_spans fuel' (currentList ++ [List sub])
                      keyData spans
                | (Raise e, st) => (Raise e, st)
                | (OutOfFuel, st) => (OutOfFuel, st)
                end
              else if startswith substring "i" then
                append (parse_int substring)
              else if startswith substring "s" then
                append (parse_str substring)
              else if startswith substring "b" then
                append (parse_bool substring)
              else if startswith substring "}" then
                (Ok currentList, (keyData, spans))
              else nestLevel_spans fuel' currentList keyData spans
          end
      end
  end.

Definition concat_spans (spans : list string) : string :=
  fold_right String.append EmptyString spans.

(** ** decode.convert *)

(** [==] on the keys a dict can hold; [True == 1] and [False == 0], and the
    hashes agree, so that such keys collide. *)
Definition py_eq (a b : scalar) : bool :=
  match a, b with
  | SInt x, SInt y => (x =? y)%Z
  | SStr x, SStr y => String.eqb x y
  | SBool x, SBool y => Bool.eqb x y
  | SInt x, SBool y | SBool y, SInt x => (x =? Z.b2z y)%Z
  | _, _ => false
  end.

(** [d[k] = v] for a hashable [k]: an equal key keeps its place and its
    first spelling and takes the new value; a new key goes last. *)
Fixpoint dict_set (d : Dict) (k : scalar) (v : Value) : Dict :=
  match d with
  | [] => [(k, v)]
  | (k', v') :: rest =>
      if py_eq k' k then (k', v) :: rest else (k', v') :: dict_set rest k v
  end.

(** [currentDict[key] = v]: a list is unhashable. *)
Definition setitem (currentDict : Dict) (key : Node) (v : Value)
  : outcome Dict :=
  match key with
  | Scalar k => Ok (dict_set currentDict k v)
  | List _ => Raise TypeError
  end.

(** [range(start, stop, 2)] and [zip]. *)
Fixpoint range2_aux (n : nat) (start stop : Z) : list Z :=
  match n with
  | O => []
  | S n' =>
      if (start <? stop)%Z then start :: range2_aux n' (start + 2) stop
      else []
  end.

Definition range2 (start stop : Z) : list Z :=
  range2_aux (Z.to_nat (stop - start)) start stop.

Fixpoint zip {A B} (xs : list A) (ys : list B) : list (A * B) :=
  match xs, ys with
  | x :: xs', y :: ys' => (x, y) :: zip xs' ys'
  | _, _ => []
  end.

(** The index pairs of the loop header
    [for i, j in zip(range(0, length - 1, 2), range(1, length, 2))]. *)
Definition loop_indices (length : Z) : list (Z * Z) :=
  zip (range2 0 (length - 1)) (range2 1 length).

(** The loop body over the items two by two, [value_of] standing for the
    recursive call on a value; [convert_indexed_eq] below shows that the
    items taken two by two are those at the indices of [loop_indices]. *)
Fixpoint convert_with (value_of : Node -> outcome Value)
    (items : list Node) (currentDict : Dict) : outcome Dict :=
  match items with
  | key :: val :: rest =>
      match value_of val with
      | Ok v =>
          match setitem currentDict key v with
          | Ok currentDict' => convert_with value_of rest currentDict'
          | Raise e => Raise e
          | OutOfFuel => OutOfFuel
          end
      | Raise e => Raise e
      | OutOfFuel => OutOfFuel
      end
  | _ => Ok currentDict
  end.

(** What is stored for [val]: [convert(val)] if [type(val) is list],
    otherwise [val]. *)
Fixpoint stored (val : Node) : outcome Value :=
  match val with
  | Scalar s => Ok (VScalar s)
  | List sub =>
      match convert_with stored sub [] with
      | Ok d => Ok (VDict d)
      | Raise e => Raise e
      | OutOfFuel => OutOfFuel
      end
  end.

Definition convert (multiLevelArray : list Node) : outcome Dict :=
  convert_with stored multiLevelArray [].

(** The characters of a str as one-character strs. *)
Fixpoint chars (s : string) : list Node :=
  match s with
  | EmptyString => []
  | String c s' => Scalar (SStr (String c EmptyString)) :: chars s'
  end.

(** [convert(x)] for whatever [nestLevel()[0]] is: a str has a length and
    items too; an int or a bool has no [len]. *)
Definition convert_arg (x : Node) : outcome Dict :=
  match x with
  | List multiLevelArray => convert multiLevelArray
  | Scalar (SStr s) => convert (chars s)
  | Scalar _ => Raise TypeError
  end.

(** [multiLevelArray[i]] *)
Definition getitem {A} (l : list A) (i : Z) : outcome A :=
  if (i <? 0)%Z then Raise IndexError
  else match nth_error l (Z.to_nat i) with
       | Some x => Ok x
       | None => Raise IndexError
       end.

(** The loop of [convert] as the source writes it, over the index pairs
    [idx] and with [key, val = multiLevelArray[i], multiLevelArray[j]]. *)
Fixpoint convert_indexed (value_of : Node -> outcome Value)
    (multiLevelArray : list Node) (idx : list (Z * Z)) (currentDict : Dict)
  : outcome Dict :=
  match idx with
  | [] => Ok currentDict
  | (i, j) :: idx' =>
      match getitem multiLevelArray i, getitem multiLevelArray j with
      | Ok key, Ok val =>
          match value_of val with
          | Ok v =>
              match setitem currentDict key v with
              | Ok currentDict' =>
                  convert_indexed value_of multiLevelArray idx' currentDict'
              | Raise e => Raise e
              | OutOfFuel => OutOfFuel
              end
          | Raise e => Raise e
          | OutOfFuel => OutOfFuel
          end
      | Raise e, _ | _, Raise e => Raise e
      | _, _ => OutOfFuel
      end
  end.

(** No key position holds a list, at any depth that [convert] reaches. *)
Fixpoint hashable_with (rec : Node -> bool) (items : list Node) : bool :=
  match items with
  | key :: val :: rest =>
      match key with Scalar _ => true | List _ => false end
      && rec val && hashable_with rec rest
  | _ => true
  end.

Fixpoint hashable_node (val : Node) : bool :=
  match val with
  | Scalar _ => true
  | List sub => hashable_with hashable_node sub
  end.

Definition hashable (items : list Node) : bool :=
  hashable_with hashable_node items.

(** ** decode *)

(** [convert(top[0])] *)
Definition convert_first (top : list Node) : outcome Dict :=
  match top with
  | x :: _ => convert_arg x
  | [] => Raise IndexError
  end.

(** [convert(nestLevel()[0])] on the line that was read. *)
Definition decode_text (keyData : string) : outcome Dict :=
  match nestLevel (S (String.length keyData)) [] keyData with
  | (Ok top, _) => convert_first top
  | (Raise e, _) => Raise e
  | (OutOfFuel, _) => OutOfFuel
  end.

(** What [decode] makes of the outcome of [nestLevel()]. *)
Definition finish (r : outcome (list Node)) : outcome Dict :=
  match r with
  | Ok top => convert_first top
  | Raise e => Raise e
  | OutOfFuel => OutOfFuel
  end.

(** [decode(key)]: [fs key] is [None] when [os.path.isfile(key)] is false,
    and otherwise the line that [readline()] returns. *)
Definition decode (fs : string -> option string) (key : string)
  : outcome Dict :=
  match fs key with
  | None => Raise FileNotFoundError
  | Some keyData => decode_text keyData
  end.

(** ** find and findAll *)

(** The truth value of [if res:]. *)
Definition truthy (v : Value) : bool :=
  match v with
  | VScalar (SInt z) => negb (z =? 0)%Z
  | VScalar (SStr s) => negb (String.eqb s EmptyString)
  | VScalar (SBool b) => b
  | VDict items => match items with [] => false | _ => true end
  end.

(** The loop of [find.traverse]; [None] is Python's [None], which is also
    what falling off the loop returns.  [rec] stands for the recursive
    call [traverse(value)]. *)
Fixpoint find_loop (rec : Value -> option Value) (key : scalar)
    (items : Dict) : option Value :=
  match items with
  | [] => None
  | (ky, value) :: rest =>
      if py_eq ky key then Some value
      else
        match value with
        | VDict _ =>
            match rec value with
            | Some res =>
                if truthy res then Some res else find_loop rec key rest
            | None => find_loop rec key rest
            end
        | VScalar _ => find_loop rec key rest
        end
  end.

Fixpoint find_value (key : scalar) (value : Value) : option Value :=
  match value with
  | VDict nested => find_loop (find_value key) key nested
  | VScalar _ => None
  end.

Definition find (key : scalar) (nestedDicts : Dict) : option Value :=
  find_loop (find_value key) key nestedDicts.

(** The loop of [findAll.traverse], threading the non-local list
    [occurrences]. *)
Fixpoint findAll_loop (rec : Value -> list Value -> list Value)
    (key : scalar) (items : Dict) (occurrences : list Value) : list Value :=
  match items with
  | [] => occurrences
  | (ky, value) :: rest =>
      let occurrences :=
        if py_eq ky key then occurrences ++ [value] else occurrences in
      let occurrences :=
        match value with
        | VDict _ => rec value occurrences
        | VScalar _ => occurrences
        end in
      findAll_loop rec key rest occurrences
  end.

Fixpoint findAll_value (key : scalar) (value : Value)
    (occurrences : list Value) : list Value :=
  match value with
  | VDict nested => findAll_loop (findAll_value key) key nested occurrences
  | VScalar _ => occurrences
  end.

Definition findAll (key : scalar) (nestedDicts : Dict) : list Value :=
  findAll_loop (findAll_value key) key nestedDicts [].

(** Every value of the record, at every depth, passes [if res:]. *)
Fixpoint all_truthy (v : Value) : bool :=
  match v with
  | VScalar _ => true
  | VDict items =>
      forallb (fun kv : scalar * Value =>
                 let (_, value) := kv in truthy value && all_truthy value)
        items
  end.

End ConvertJSON.

(** ** The concrete syntax of well-formed inputs

    Serialized texts as trees, to state what [nestLevel] does on the texts
    that follow the grammar: a scalar token with or without its semicolon,
    or an array tag with a count, its items and its closing brace. *)

Module Syntax.
Import ConvertJSON.

#[local] Unset Elimination Schemes.

Inductive elem : Type :=
| EInt (digits : string) (semi : bool)
| EStr (len : string) (payload : string) (semi : bool)
| EBool (bit : bool) (semi : bool)
| EArr (count : string) (items : list elem).

#[local] Set Elimination Schemes.

Definition semicolon (semi : bool) : string :=
  if semi then ";" else EmptyString.

Definition quoted (payload : string) : string :=
  String dquote (payload ++ String dquote EmptyString).

Definition open_tag (count : string) : string :=
  "a:" ++ count ++ ":{".

Definition render_with (render : elem -> string) (items : list elem)
  : string :=
  fold_right (fun e text => render e ++ text)%string EmptyString items.

Fixpoint render (e : elem) : string :=
  match e with
  | EInt digits semi => "i:" ++ digits ++ semicolon semi
  | EStr len payload semi =>
      "s:" ++ len ++ ":" ++ quoted payload ++ semicolon semi
  | EBool bit semi => "b:" ++ (if bit then "1" else "0") ++ semicolon semi
  | EArr count items => open_tag count ++ render_with render items ++ "}"
  end.

Definition render_list (items : list elem) : string :=
  render_with render items.

Fixpoint all_chars (p : ascii -> bool) (s : string) : bool :=
  match s with
  | EmptyString => true
  | String c s' => p c && all_chars p s'
  end.

(** A non-empty run of decimal digits. *)
Definition number (s : string) : bool :=
  match s with
  | EmptyString => false
  | _ => all_chars (in_class digit) s
  end.

(** The grammar of the token patterns: numbers where the patterns want
    digits, no double quote inside a payload. *)
Fixpoint wf (e : elem) : bool :=
  match e with
  | EInt digits _ => number digits
  | EStr len payload _ =>
      number len && all_chars (fun c => negb (Ascii.eqb c dquote)) payload
  | EBool _ _ => true
  | EArr count items => number count && forallb wf items
  end.

(** The text after a token must not extend it: it is empty, or starts with
    neither a digit nor a semicolon. *)
Definition safe_follow (rest : string) : bool :=
  match rest with
  | EmptyString => true
  | String c _ => negb (in_class digit c) && negb (Ascii.eqb c ";")
  end.

(** The nodes that the branches of [nestLevel] build for a tree. *)
Fixpoint nodes_with (node_of : elem -> outcome Node) (items : list elem)
  : outcome (list Node) :=
  match items with
  | [] => Ok []
  | e :: items' =>
      match node_of e with
      | Ok n =>
          match nodes_with node_of items' with
          | Ok ns => Ok (n :: ns)
          | Raise err => Raise err
          | OutOfFuel => OutOfFuel
          end
      | Raise err => Raise err
      | OutOfFuel => OutOfFuel
      end
  end.

Fixpoint node_of (e : elem) : outcome Node :=
  match e with
  | EInt digits _ => parse_int ("i:" ++ digits)
  | EStr len payload _ => parse_str ("s:" ++ len ++ ":" ++ quoted payload)
  | EBool bit _ => parse_bool ("b:" ++ (if bit then "1" else "0"))
  | EArr _ items =>
      match nodes_with node_of items with
      | Ok ns => Ok (List ns)
      | Raise err => Raise err
      | OutOfFuel => OutOfFuel
      end
  end.

Definition nodes_of (items : list elem) : outcome (list Node) :=
  nodes_with node_of items.

(** The same tree with every declared count replaced by [0]. *)
Fixpoint erase_counts (e : elem) : elem :=
  match e with
  | EArr _ items => EArr "0" (map erase_counts items)
  | _ => e
  end.

(** An input that ends inside open arrays: each level is an array tag
    that is never closed, with the complete items that follow it. *)
Definition level : Type := string * list elem.

Definition render_levels (levels : list level) : string :=
  fold_right
    (fun (l : level) text => open_tag (fst l) ++ render_list (snd l) ++ text)%string
    EmptyString levels.

(** [n] closing braces. *)
Fixpoint closers (n : nat) : string :=
  match n with
  | O => EmptyString
  | S n' => String "}" (closers n')
  end.

Definition wf_levels (levels : list level) : bool :=
  forallb (fun l : level => number (fst l) && forallb wf (snd l)) levels.

(** The node that open levels add to the list of the level above. *)
Fixpoint level_nodes (levels : list level) : outcome (list Node) :=
  match levels with
  | [] => Ok []
  | (_, items) :: deeper =>
      match nodes_of items with
      | Ok ns =>
          match level_nodes deeper with
          | Ok ds => Ok [List (ns ++ ds)]
          | Raise err => Raise err
          | OutOfFuel => OutOfFuel
          end
      | Raise err => Raise err
      | OutOfFuel => OutOfFuel
      end
  end.

End Syntax.

(** ** find and findAll on a store

    To say what the look-ups do to the record they are given, dicts and
    lists live in a store and values refer to them: a value is a scalar or
    the address of an object, so that the entries of the list that
    [findAll] returns share the nested dicts of the record.  The recursion
    follows references, which may form a cycle: it takes a depth budget. *)

Module Store.
Import ConvertJSON.

Definition loc : Type := nat.

Inductive ref_val : Type :=
| Imm (s : scalar)
| Ref (l : loc).

Inductive object : Type :=
| ODict (items : list (scalar * ref_val))
| OList (elems : list ref_val).

Abbreviation heap := (gmap loc object).

(** State and exception monad over the store. *)
Definition HM (A : Type) : Type := heap -> outcome A * heap.

Definition hret {A} (a : A) : HM A := fun h => (Ok a, h).

Definition hbind {A B} (m : HM A) (f : A -> HM B) : HM B :=
  fun h =>
    match m h with
    | (Ok a, h') => f a h'
    | (Raise e, h') => (Raise e, h')
    | (OutOfFuel, h') => (OutOfFuel, h')
    end.

Notation "x <~ m ;; f" := (hbind m (fun x => f))
  (at level 100, m at next level, right associativity).

(** [list(nested.items())]: the items of the dict at [nested], copied;
    anything but a dict has no [items]. *)
Definition dict_items (nested : loc) : HM (list (scalar * ref_val)) :=
  fun h =>
    match h !! nested with
    | Some (ODict items) => (Ok items, h)
    | _ => (Raise AttributeError, h)
    end.

(** [type(value) is dict]: the address of the dict, if it is one. *)
Definition as_dict (value : ref_val) : HM (option loc) :=
  fun h =>
    match value with
    | Ref l =>
        match h !! l with
        | Some (ODict _) => (Ok (Some l), h)
        | _ => (Ok None, h)
        end
    | Imm _ => (Ok None, h)
    end.

(** The truth value of [if res:], [None] being Python's [None]. *)
Definition truthy_ref (res : option ref_val) : HM bool :=
  fun h =>
    match res with
    | None => (Ok false, h)
    | Some (Imm s) => (Ok (truthy (VScalar s)), h)
    | Some (Ref l) =>
        match h !! l with
        | Some (ODict items) =>
            (Ok (match items with [] => false | _ => true end), h)
        | Some (OList elems) =>
            (Ok (match elems with [] => false | _ => true end), h)
        | None => (Raise AttributeError, h)
        end
    end.

(** [occurrences = []]: a new list at an unused address. *)
Definition new_list : HM loc :=
  fun h =>
    let l := fresh (dom h) in
    (Ok l, <[l := OList []]> h).

(** [occurrences.append(value)] *)
Definition list_append (occurrences : loc) (value : ref_val) : HM unit :=
  fun h =>
    match h !! occurrences with
    | Some (OList elems) =>
        (Ok tt, <[occurrences := OList (elems ++ [value])]> h)
    | _ => (Raise AttributeError, h)
    end.

(** The loop of [find.traverse]; [rec] is the recursive call. *)
Fixpoint find_loop (rec : loc -> HM (option ref_val)) (key : scalar)
    (items : list (scalar * ref_val)) : HM (option ref_val) :=
  match items with
  | [] => hret None
  | (ky, value) :: rest =>
      if py_eq ky key then hret (Some value)
      else
        d <~ as_dict value ;;
        match d with
        | Some nested =>
            res <~ rec nested ;;
            t <~ truthy_ref res ;;
            if t then hret res else find_loop rec key rest
        | None => find_loop rec key rest
        end
  end.

Fixpoint find_traverse (fuel : nat) (key : scalar) (nested : loc)
  : HM (option ref_val) :=
  match fuel with
  | O => fun h => (OutOfFuel, h)
  | S fuel' =>
      items <~ dict_items nested ;;
      find_loop (find_traverse fuel' key) key items
  end.

Definition find (fuel : nat) (key : scalar) (nestedDicts : loc)
  : HM (option ref_val) :=
  find_traverse fuel key nestedDicts.

(** The loop of [findAll.traverse]; [occurrences] is the address of the
    non-local list. *)
Fixpoint findAll_loop (rec : loc -> HM unit) (key : scalar)
    (occurrences : loc) (items : list (scalar * ref_val)) : HM unit :=
  match items with
  | [] => hret tt
  | (ky, value) :: rest =>
      _ <~ (if py_eq ky key then list_append occurrences value
            else hret tt) ;;
      d <~ as_dict value ;;
      _ <~ match d with
           | Some nested => rec nested
           | None => hret tt
           end ;;
      findAll_loop rec key occurrences rest
  end.

Fixpoint findAll_traverse (fuel : nat) (key : scalar) (occurrences : loc)
    (nested : loc) : HM unit :=
  match fuel with
  | O => fun h => (OutOfFuel, h)
  | S fuel' =>
      items <~ dict_items nested ;;
      findAll_loop (findAll_traverse fuel' key occurrences) key
        occurrences items
  end.

Definition findAll (fuel : nat) (key : scalar) (nestedDicts : loc)
  : HM loc :=
  occurrences <~ new_list ;;
  _ <~ findAll_traverse fuel key occurrences nestedDicts ;;
  hret occurrences.

(** The store holds the value [v] at [rv]: scalars are themselves, a dict
    is an address whose object has the same keys in the same order and
    holds the values of the dict. *)
Fixpoint holds_items (holds : Value -> ref_val -> Prop) (d : Dict)
    (items : list (scalar * ref_val)) : Prop :=
  match d, items with
  | [], [] => True
  | (k, v) :: d', (k', rv) :: items' =>
      k = k' /\ holds v rv /\ holds_items holds d' items'
  | _, _ => False
  end.

Fixpoint holds (h : heap) (v : Value) (rv : ref_val) : Prop :=
  match v with
  | VScalar s => rv = Imm s
  | VDict d =>
      exists l items,
        rv = Ref l /\ h !! l = Some (ODict items)
        /\ holds_items (holds h) d items
  end.

(** A computation that leaves the store as it found it, and one that
    keeps every object of [h0] in place. *)
Definition frames {A} (m : HM A) : Prop := forall h, snd (m h) = h.

Definition keeps (h0 : heap) {A} (m : HM A) : Prop :=
  forall h, h0 ⊆ h -> h0 ⊆ snd (m h).

(** What [find] returns in the store against what it returns on values. *)
Definition holds_result (h : heap) (o : option Value)
    (res : option ref_val) : Prop :=
  match o, res with
  | None, None => True
  | Some v, Some rv => holds h v rv
  | _, _ => False
  end.

(** The nesting depth of a value. *)
Fixpoint depth_items (depth : Value -> nat) (d : Dict) : nat :=
  match d with
  | [] => 0
  | (_, v) :: d' => Nat.max (depth v) (depth_items depth d')
  end.

Fixpoint depth (v : Value) : nat :=
  match v with
  | VScalar _ => 0
  | VDict d => S (depth_items depth d)
  end.

End Store.

(** [nestLevel] returns: some budget lets the call that starts with
    [currentList] on [keyData] end with [r], leaving [keyData']. *)
Definition runs (currentList : list Node) (keyData : string)
    (r : outcome (list Node)) (keyData' : string) : Prop :=
  exists fuel,
    ConvertJSON.nestLevel fuel currentList keyData = (r, keyData')
    /\ r <> OutOfFuel.

(** What the items of [text] contribute to a run: with the nodes [ns]
    they build, the run goes on after [text] with [ns] appended; when one
    of them raises, so does the run. *)
Definition continues (currentList : list Node) (text rest : string)
    (built : outcome (list Node)) : Prop :=
  match built with
  | Ok ns =>
      forall r k, runs (currentList ++ ns) rest r k ->
                  runs currentList (text ++ rest) r k
  | Raise err => exists k, runs currentList (text ++ rest) (Raise err) k
  | OutOfFuel => False
  end.

Definition single (o : outcome Node) : outcome (list Node) :=
  match o with
  | Ok n => Ok [n]
  | Raise err => Raise err
  | OutOfFuel => OutOfFuel
  end.

(** The text starts with a character of the class. *)
Definition head_in (p : charclass) (s : string) : bool :=
  match s with
  | EmptyString => false
  | String c _ => in_class p c
  end.

(** Two outcomes in sequence. *)
Definition seq_outcome (a b : outcome (list Node)) : outcome (list Node) :=
  match a with
  | Ok ns =>
      match b with
      | Ok ds => Ok (ns ++ ds)
      | Raise err => Raise err
      | OutOfFuel => OutOfFuel
      end
  | Raise err => Raise err
  | OutOfFuel => OutOfFuel
  end.

(** A pattern that cannot match the empty text. *)
Fixpoint nonempty (r : regex) : bool :=
  match r with
  | Chr _ | Cls _ | Plus _ => true
  | Cat r1 r2 => nonempty r1 || nonempty r2
  | Alt r1 r2 => nonempty r1 && nonempty r2
  | Eps | Bol | Star _ | Opt _ => false
  end.

(** ** The functions of the module: flatten, the agents that main keeps,
    decodeRetention *)

Module Tool.
Import ConvertJSON.

(** [flatten]: the two loops, [flatList.append(string)] at the end of the
    list built so far. *)
Fixpoint flatten_sub {A} (subList : list A) (flatList : list A) : list A :=
  match subList with
  | [] => flatList
  | string :: rest => flatten_sub rest (flatList ++ [string])
  end.

Fixpoint flatten_loop {A} (inList : list (list A)) (flatList : list A)
  : list A :=
  match inList with
  | [] => flatList
  | subList :: rest => flatten_loop rest (flatten_sub subList flatList)
  end.

Definition flatten {A} (inList : list (list A)) : list A :=
  flatten_loop inList [].

(** [uuid in agents] *)
Definition member (uuid : string) (agents : list string) : bool :=
  existsb (String.eqb uuid) agents.

(** [l.remove(x)]: the list without its first item equal to [x];
    [ValueError] when there is none. *)
Fixpoint list_remove (x : string) (l : list string)
  : outcome (list string) :=
  match l with
  | [] => Raise ValueError
  | y :: l' =>
      if String.eqb y x then Ok l'
      else match list_remove x l' with
           | Ok l'' => Ok (y :: l'')
           | Raise e => Raise e
           | OutOfFuel => OutOfFuel
           end
  end.

(** The text of the warning for a requested agent that is unknown. *)
Definition excluding (uuid : string) : string :=
  (uuid ++ " is not in the dataset, excluding")%string.

(** The loop of [main]
    [for uuid in arguments.agents:
         if uuid not in agents: warn; arguments.agents.remove(uuid)]
    on the list it iterates over.  The iterator of a list is an index [i]
    into the list as it is now: each round reads item [i] if there is one,
    and moves on to [i + 1], whatever was removed meanwhile.  [warned] is
    the list of warnings issued so far.  Every round adds one to [i] and
    the list never grows, so the rounds are bounded by its length. *)
Fixpoint exclude_loop (fuel : nat) (agents : list string)
    (requested : list string) (i : nat) (warned : list string)
  : outcome (list string * list string) :=
  match fuel with
  | O => OutOfFuel
  | S fuel' =>
      match nth_error requested i with
      | None => Ok (requested, warned)
      | Some uuid =>
          if member uuid agents then
            exclude_loop fuel' agents requested (S i) warned
          else
            match list_remove uuid requested with
            | Ok requested' =>
                exclude_loop fuel' agents requested' (S i)
                  (warned ++ [excluding uuid])
            | Raise e => Raise e
            | OutOfFuel => OutOfFuel
            end
      end
  end.

Definition exclude_unknown (agents requested : list string)
  : outcome (list string * list string) :=
  exclude_loop (S (List.length requested)) agents requested 0 [].

(** The agents that [main] goes on with: [requested] is
    [arguments.agents], [None] when no [-a] was given and otherwise the
    list of the lists of names of each [-a]; the result is the new
    [arguments.agents] with the warnings issued. *)
Definition select_agents (agents : list string)
    (requested : option (list (list string)))
  : outcome (list string * list string) :=
  match requested with
  | Some (group :: groups) =>
      match exclude_unknown agents (flatten (group :: groups)) with
      | Ok ([], warned) =>
          Ok (agents, warned ++ ["Defaulting to complete dataset"])
      | Ok (kept, warned) => Ok (kept, warned)
      | Raise e => Raise e
      | OutOfFuel => OutOfFuel
      end
  | _ => Ok (agents, [])
  end.

(** What the loop comes to when no unknown name is requested twice: a
    known name is kept, an unknown one is dropped and the name after it is
    kept unseen. *)
Fixpoint sweep (agents : list string) (requested : list string)
  : list string :=
  match requested with
  | [] => []
  | uuid :: rest =>
      if member uuid agents then uuid :: sweep agents rest
      else match rest with
           | [] => []
           | unseen :: rest' => unseen :: sweep agents rest'
           end
  end.

Fixpoint swept (agents : list string) (requested : list string)
  : list string :=
  match requested with
  | [] => []
  | uuid :: rest =>
      if member uuid agents then swept agents rest
      else uuid :: match rest with
                   | [] => []
                   | _ :: rest' => swept agents rest'
                   end
  end.

(** The items at the odd positions 1, 3, 5, ... *)
Fixpoint odd_items {A} (l : list A) : list A :=
  match l with
  | _ :: y :: rest => y :: odd_items rest
  | _ => []
  end.

End Tool.

(** ** Records: what the look-ups and the converter are measured against *)

Module Records.
Import ConvertJSON.

(** The entries of a record at every depth, in the order of the traversal:
    an entry, then the entries of its value if that is a dict, then the
    entries that follow. *)
Fixpoint entries_with (rec : Value -> list (scalar * Value)) (d : Dict)
  : list (scalar * Value) :=
  match d with
  | [] => []
  | (ky, value) :: rest => (ky, value) :: rec value ++ entries_with rec rest
  end.

Fixpoint entries_value (v : Value) : list (scalar * Value) :=
  match v with
  | VScalar _ => []
  | VDict d => entries_with entries_value d
  end.

Definition entries (d : Dict) : list (scalar * Value) :=
  entries_with entries_value d.

(** The values of the entries whose key equals [key]. *)
Definition values_of (key : scalar) (es : list (scalar * Value))
  : list Value :=
  map snd (filter (fun kv => py_eq (fst kv) key) es).

(** What decides the equality of two keys: the number of an int or a bool,
    the text of a str. *)
Definition norm (a : scalar) : Z + string :=
  match a with
  | SInt z => inl z
  | SBool b => inl (Z.b2z b)
  | SStr s => inr s
  end.

(** [d.get(k)]: the value of the entry whose key equals [k]. *)
Fixpoint dict_get (d : Dict) (k : scalar) : option Value :=
  match d with
  | [] => None
  | (k', v) :: rest => if py_eq k' k then Some v else dict_get rest k
  end.

(** No two keys of the dict are equal, in the dict and in every dict it
    holds. *)
Fixpoint distinct_keys (d : list scalar) : bool :=
  match d with
  | [] => true
  | k :: rest => negb (existsb (fun k' => py_eq k' k) rest)
                 && distinct_keys rest
  end.

Fixpoint well_keyed (v : Value) : bool :=
  match v with
  | VScalar _ => true
  | VDict d =>
      distinct_keys (map fst d)
      && forallb (fun kv : scalar * Value => let (_, value) := kv in
                                             well_keyed value) d
  end.

(** The value that the items, taken two by two, give to the key [k] last;
    [found] is the one given before them. *)
Fixpoint last_stored (k : scalar) (items : list Node)
    (found : option Value) : option Value :=
  match items with
  | Scalar key :: val :: rest =>
      last_stored k rest
        (if py_eq key k
         then match stored val with
              | Ok v => Some v
              | _ => found
              end
         else found)
  | _ :: _ :: rest => last_stored k rest found
  | _ => found
  end.

(** The number a run of decimal digits denotes. *)
Fixpoint decimal (digits : string) : Z :=
  match digits with
  | EmptyString => 0
  | String c rest =>
      ((Z.of_nat (nat_of_ascii c) - 48) * 10 ^ Z.of_nat (String.length rest)
       + decimal rest)%Z
  end.

(** How often [colonStringSplit] cuts in [s], [prev] being the character
    before [s]. *)
Fixpoint cuts (cut : option ascii -> string -> bool) (prev : option ascii)
    (s : string) : nat :=
  match s with
  | EmptyString => 0
  | String c s' =>
      (if cut prev s then 1 else 0) + cuts cut (Some c) s'
  end.

(** The text holds an s directly followed by a colon. *)
Fixpoint has_s_colon (s : string) : bool :=
  match s with
  | EmptyString => false
  | String c s' =>
      (Ascii.eqb c "s" && startswith s' ":") || has_s_colon s'
  end.

(** A payload that the [s] branch of [nestLevel] can take apart. *)
Definition splittable (payload : string) : bool :=
  negb (has_s_colon payload) && negb (endswith payload ":").

End Records.

(** ** The nodes of a syntax tree, read off the tree *)

Module Plain.
Import ConvertJSON Syntax Records.

(** The node that a tree stands for: the number of an integer token, the
    payload of a string token, true for a boolean token, the list of the
    nodes of an array. *)
Fixpoint plain (e : elem) : Node :=
  match e with
  | EInt digits _ => Scalar (SInt (decimal digits))
  | EStr _ payload _ => Scalar (SStr payload)
  | EBool _ _ => Scalar (SBool true)
  | EArr _ items => List (map plain items)
  end.

(** Every string payload of the tree is one that can be taken apart. *)
Fixpoint clean (e : elem) : bool :=
  match e with
  | EStr _ payload _ => splittable payload
  | EArr _ items => forallb clean items
  | _ => true
  end.

(** The character before the text that follows [s]. *)
Fixpoint last_char (prev : option ascii) (s : string) : option ascii :=
  match s with
  | EmptyString => prev
  | String c s' => last_char (Some c) s'
  end.

(** A separator that only cuts at colons. *)
Definition cuts_at_colons (cut : option ascii -> string -> bool) : Prop :=
  forall prev c s, Ascii.eqb c ":" = false -> cut prev (String c s) = false.

End Plain.

(** ** The host: the limits of the interpreter

    The definitions above take the call stack to be as deep as the text
    needs and [int] to read runs of digits of any length.  An interpreter
    bounds both.  This module says what the decoder does under such bounds:
    the same functions, with the frames that are left on the stack passed
    along and the number of digits checked where [int] is called. *)

Module Host.
Import ConvertJSON.

(** The exceptions that come from the interpreter and its library, not from
    a [raise] of the program or a failed operation on its values. *)
Inductive host_error : Type :=
| RecursionError
| PermissionError
| IsADirectoryError
| OSError
| UnicodeDecodeError.

(** How a function ends on the host: as the program alone decides, or with
    an exception of the host. *)
Inductive ending (A : Type) : Type :=
| Ends (r : outcome A)
| Aborts (e : host_error).

Arguments Ends {A} r.
Arguments Aborts {A} e.

(** [max_str_digits] is [sys.get_int_max_str_digits()]: 0 for no bound,
    4300 unless the host is told otherwise.  [search_frames] and
    [split_frames] are the frames that a call of [re.search] and of
    [re.split] takes: the functions of [re] are written in Python (two
    frames each in CPython 3.11, for the function and for [re._compile]). *)
Record limits : Type := {
  max_str_digits : nat;
  search_frames : nat;
  split_frames : nat
}.

(** [int] refuses a text with more than [max_str_digits] digits, when that
    bound is set; the bound is only looked at above 640 digits. *)
Definition too_many (h : limits) (digits : nat) : bool :=
  (640 <? digits)%nat && (0 <? max_str_digits h)%nat
  && (max_str_digits h <? digits)%nat.

(** [int(value)] where [nestLevel] calls it: on a run of digits, which has
    as many digits as characters. *)
Definition py_int (h : limits) (value : string) : outcome Z :=
  if too_many h (String.length value) then Raise ValueError
  else ConvertJSON.py_int value.

Definition parse_int (h : limits) (substring : string) : outcome Node :=
  match unpack2 (re_split colon substring) with
  | Ok value =>
      match py_int h value with
      | Ok z => Ok (Scalar (SInt z))
      | Raise e => Raise e
      | OutOfFuel => OutOfFuel
      end
  | Raise e => Raise e
  | OutOfFuel => OutOfFuel
  end.

(** The state and exception monad of [nestLevel], with the endings of the
    host. *)
Definition HostM (A : Type) : Type := string -> ending A * string.

Definition ends {A} (o : outcome A) : HostM A :=
  fun keyData => (Ends o, keyData).

Definition aborts {A} (e : host_error) : HostM A :=
  fun keyData => (Aborts e, keyData).

Definition and_then {A B} (m : HostM A) (f : A -> HostM B) : HostM B :=
  fun keyData =>
    match m keyData with
    | (Ends (Ok a), keyData') => f a keyData'
    | (Ends (Raise e), keyData') => (Ends (Raise e), keyData')
    | (Ends OutOfFuel, keyData') => (Ends OutOfFuel, keyData')
    | (Aborts e, keyData') => (Aborts e, keyData')
    end.

(** A call of a function of the program takes one of the [frames] that are
    left; its body runs with the others. *)
Definition call {A} (frames : nat) (body : nat -> HostM A) : HostM A :=
  match frames with
  | O => aborts RecursionError
  | S room => body room
  end.

(** A call of a function of the library that takes [need] frames. *)
Definition library {A} (frames need : nat) (o : outcome A) : HostM A :=
  if (frames <? need)%nat then aborts RecursionError else ends o.

(** [nestLevel], run with [frames] frames left for what it calls: the
    functions of [re], and itself for each array it opens. *)
Fixpoint nestLevel (h : limits) (fuel frames : nat) (currentList : list Node)
  : HostM (list Node) :=
  match fuel with
  | O => ends OutOfFuel
  | S fuel' => fun keyData =>
      match keyData with
      | EmptyString => (Ends (Ok currentList), keyData)
      | _ =>
          if (frames <? search_frames h)%nat then (Aborts RecursionError, keyData)
          else
          match search lexer keyData with
          | None => (Ends (Raise (InvalidArrayFormat keyData)), keyData)
          | Some (start, end_) =>
              let substring := strip_semicolon (slice_to end_ keyData) in
              let keyData := slice_from end_ keyData in
              if startswith substring "a" then
                and_then (call frames (fun room => nestLevel h fuel' room []))
                  (fun sub =>
                     nestLevel h fuel' frames (currentList ++ [List sub]))
                  keyData
              else if startswith substring "i" then
                and_then (ends (parse_int h substring))
                  (fun value =>
                     nestLevel h fuel' frames (currentList ++ [value]))
                  keyData
              else if startswith substring "s" then
                and_then (library frames (split_frames h)
                            (parse_str substring))
                  (fun value =>
                     nestLevel h fuel' frames (currentList ++ [value]))
                  keyData
              else if startswith substring "b" then
                and_then (ends (parse_bool substring))
                  (fun value =>
                     nestLevel h fuel' frames (currentList ++ [value]))
                  keyData
              else if startswith substring "}" then
                (Ends (Ok currentList), keyData)
              else nestLevel h fuel' frames currentList keyData
          end
      end
  end.

(** [convert], run with [frames] frames left: it calls itself for each
    list it finds in value position, and nothing else that takes a frame. *)
Fixpoint convert_with (value_of : Node -> ending Value)
    (items : list Node) (currentDict : Dict) : ending Dict :=
  match items with
  | key :: val :: rest =>
      match value_of val with
      | Ends (Ok v) =>
          match setitem currentDict key v with
          | Ok currentDict' => convert_with value_of rest currentDict'
          | Raise e => Ends (Raise e)
          | OutOfFuel => Ends OutOfFuel
          end
      | Ends (Raise e) => Ends (Raise e)
      | Ends OutOfFuel => Ends OutOfFuel
      | Aborts e => Aborts e
      end
  | _ => Ends (Ok currentDict)
  end.

Fixpoint stored (frames : nat) (val : Node) {struct val} : ending Value :=
  match val with
  | Scalar s => Ends (Ok (VScalar s))
  | List sub =>
      match frames with
      | O => Aborts RecursionError
      | S room =>
          match convert_with (stored room) sub [] with
          | Ends (Ok d) => Ends (Ok (VDict d))
          | Ends (Raise e) => Ends (Raise e)
          | Ends OutOfFuel => Ends OutOfFuel
          | Aborts e => Aborts e
          end
      end
  end.

Definition convert (frames : nat) (multiLevelArray : list Node)
  : ending Dict :=
  convert_with (stored frames) multiLevelArray [].

Definition convert_arg (frames : nat) (x : Node) : ending Dict :=
  match x with
  | List multiLevelArray => convert frames multiLevelArray
  | Scalar (SStr s) => convert frames (chars s)
  | Scalar _ => Ends (Raise TypeError)
  end.

(** [convert(nestLevel()[0])] with [frames] frames left in [decode]: each
    of the two calls takes one. *)
Definition decode_text (h : limits) (frames : nat) (keyData : string)
  : ending Dict :=
  match frames with
  | O => Aborts RecursionError
  | S room =>
      match nestLevel h (S (String.length keyData)) room [] keyData with
      | (Ends (Ok (x :: _)), _) => convert_arg room x
      | (Ends (Ok []), _) => Ends (Raise IndexError)
      | (Ends (Raise e), _) => Ends (Raise e)
      | (Ends OutOfFuel, _) => Ends OutOfFuel
      | (Aborts e, _) => Aborts e
      end
  end.

(** The lists inside a node, one inside the other. *)
Fixpoint nesting_with (nesting : Node -> nat) (l : list Node) : nat :=
  match l with
  | [] => 0
  | n :: l' => Nat.max (nesting n) (nesting_with nesting l')
  end.

Fixpoint nesting (n : Node) : nat :=
  match n with
  | Scalar _ => 0
  | List l => S (nesting_with nesting l)
  end.

(** The arrays inside a tree, one inside the other, and the same for the
    items of a text. *)
Fixpoint depth_with (depth : Syntax.elem -> nat) (items : list Syntax.elem)
  : nat :=
  match items with
  | [] => 0
  | e :: items' => Nat.max (depth e) (depth_with depth items')
  end.

Fixpoint depth (e : Syntax.elem) : nat :=
  match e with
  | Syntax.EArr _ items => S (depth_with depth items)
  | _ => 0
  end.

Definition depth_list (items : list Syntax.elem) : nat :=
  depth_with depth items.

(** No integer token of the tree has more digits than [int] takes. *)
Fixpoint short (h : limits) (e : Syntax.elem) : bool :=
  match e with
  | Syntax.EInt digits _ => negb (too_many h (String.length digits))
  | Syntax.EArr _ items => forallb (short h) items
  | _ => true
  end.

(** A run of the program alone, seen as a run on a host whose bounds it
    does not meet. *)
Definition unbounded {A} (p : outcome A * string) : ending A * string :=
  (Ends (fst p), snd p).

(** [n] times the character [c]. *)
Fixpoint copies (c : ascii) (n : nat) : string :=
  match n with
  | O => EmptyString
  | S n' => String c (copies c n')
  end.

(** The frames that the functions of [re] take at most. *)
Definition library_frames (h : limits) : nat :=
  Nat.max (search_frames h) (split_frames h).

End Host.

(** ** decodeRetention *)

Module Retention.
Import ConvertJSON.

Definition KEYS : string := "/datto/config/keys/".
Definition LOCAL_RETENTION : string := ".retention".
Definition OFFSITE_RETENTION : string := ".offsiteRetention".

(** The characters that [int] skips around a number: tab to carriage
    return, the space, and the two spaces above 127. *)
Definition is_space (c : ascii) : bool :=
  let n := nat_of_ascii c in
  ((9 <=? n)%nat && (n <=? 13)%nat)
  || (n =? 32)%nat || (n =? 133)%nat || (n =? 160)%nat.

Fixpoint lstrip (s : string) : string :=
  match s with
  | String c s' => if is_space c then lstrip s' else s
  | EmptyString => EmptyString
  end.

(** The digits of [int(text)], single underscores allowed between them,
    then spaces only; [after_digit] says that the character before was a
    digit. *)
Fixpoint int_body (acc : Z) (after_digit : bool) (s : string) : outcome Z :=
  match s with
  | EmptyString => if after_digit then Ok acc else Raise ValueError
  | String c s' =>
      match digit_value c with
      | Some d => int_body (10 * acc + d)%Z true s'
      | None =>
          if Ascii.eqb c "_" then
            if after_digit then int_body acc false s' else Raise ValueError
          else if after_digit && Syntax.all_chars is_space s then Ok acc
          else Raise ValueError
      end
  end.

(** The number that a text denotes for [int], in base ten: spaces, an
    optional sign, the digits, spaces. *)
Definition int_literal (text : string) : outcome Z :=
  match lstrip text with
  | String "-" s =>
      match int_body 0 false s with
      | Ok z => Ok (- z)%Z
      | Raise e => Raise e
      | OutOfFuel => OutOfFuel
      end
  | String "+" s => int_body 0 false s
  | s => int_body 0 false s
  end.

(** The decimal digits in a text. *)
Fixpoint digit_count (s : string) : nat :=
  match s with
  | EmptyString => 0
  | String c s' => (if in_class digit c then 1 else 0) + digit_count s'
  end.

(** [int(text)] for a str: the number that the text denotes, unless it has
    more digits than [int] takes on the host.  The digits of a text that
    denotes a number are the digits in it; a text that denotes none is
    refused with the same exception. *)
Definition int_of_text (h : Host.limits) (text : string) : outcome Z :=
  if Host.too_many h (digit_count text) then Raise ValueError
  else int_literal text.

(** [list(map(lambda hrs: int(hrs) // 24, policy))]: every call of the
    lambda takes one of the [frames] that are left, for the time of the
    call. *)
Fixpoint map_days (h : Host.limits) (frames : nat) (policy : list string)
  : Host.ending (list Z) :=
  match policy with
  | [] => Host.Ends (Ok [])
  | hrs :: rest =>
      match frames with
      | O => Host.Aborts Host.RecursionError
      | S _ =>
          match int_of_text h hrs with
          | Ok hours =>
              match map_days h frames rest with
              | Host.Ends (Ok days) => Host.Ends (Ok ((hours / 24)%Z :: days))
              | ending => ending
              end
          | Raise e => Host.Ends (Raise e)
          | OutOfFuel => Host.Ends OutOfFuel
          end
      end
  end.

(** What [open(path)] and [readline()] give on the host: the first line of
    the file, or the exception that is raised instead, one of the program's
    kinds ([FileNotFoundError] when there is no such file) or one of the
    host's ([PermissionError], [IsADirectoryError], another [OSError],
    [UnicodeDecodeError]). *)
Inductive opened : Type :=
| Line (line : string)
| Fails (e : error)
| Refused (e : Host.host_error).

(** [decodeRetention(agent, offsite)], with [frames] frames left and the
    files of the host given by [fs]. *)
Definition decodeRetention (h : Host.limits) (frames : nat)
    (fs : string -> opened) (agent : string) (offsite : bool)
  : Host.ending (list Z) :=
  match fs (KEYS ++ agent
            ++ (if offsite then OFFSITE_RETENTION else LOCAL_RETENTION))%string
  with
  | Line line =>
      match map_days h frames (re_split colon line) with
      | Host.Ends (Ok [intra; daily; total; local]) =>
          Host.Ends (Ok [intra; daily; total; local])
      | Host.Ends (Ok _) => Host.Ends (Raise ValueError)
      | ending => ending
      end
  | Fails e => Host.Ends (Raise e)
  | Refused e => Host.Aborts e
  end.

End Retention.

(** * Properties *)

(** ** Strings *)

Lemma append_nil_r (s : string) : (s ++ EmptyString)%string = s.
Proof. induction s as [|c s IH]; simpl; [reflexivity | now rewrite IH]. Qed.

Lemma append_assoc (a b c : string) :
  ((a ++ b) ++ c)%string = (a ++ (b ++ c))%string.
Proof. induction a as [|x a IH]; simpl; [reflexivity | now rewrite IH]. Qed.

Lemma length_append (a b : string) :
  String.length (a ++ b) = String.length a + String.length b.
Proof. induction a as [|x a IH]; simpl; [reflexivity | now rewrite IH]. Qed.

Lemma slice_to_from (n : nat) (s : string) :
  (slice_to n s ++ slice_from n s)%string = s.
Proof.
  revert s; induction n as [|n IH]; intros [|c s]; simpl; try reflexivity.
  now rewrite IH.
Qed.

Lemma slice_to_append (a b : string) : slice_to (String.length a) (a ++ b) = a.
Proof.
  induction a as [|x a IH]; simpl.
  - now destruct b.
  - now rewrite IH.
Qed.

Lemma slice_from_append (a b : string) :
  slice_from (String.length a) (a ++ b) = b.
Proof. induction a as [|x a IH]; simpl; [reflexivity | exact IH]. Qed.

Lemma length_slice_from (n : nat) (s : string) :
  String.length (slice_from n s) = String.length s - n.
Proof.
  revert s; induction n as [|n IH]; intros [|c s]; simpl; try reflexivity.
  apply IH.
Qed.

(** ** The matcher *)

Lemma star_reaches p k : forall s pos e,
  star p k pos s = Some e ->
  exists pre s', s = (pre ++ s')%string
                 /\ k (pos + String.length pre) s' = Some e.
Proof.
  induction s as [|c s IH]; intros pos e H; simpl in H.
  - exists EmptyString, EmptyString. now rewrite Nat.add_0_r.
  - assert (Hk : k pos (String c s) = Some e ->
                 exists pre s', String c s = (pre ++ s')%string
                   /\ k (pos + String.length pre) s' = Some e).
    { intros Hk. exists EmptyString, (String c s). now rewrite Nat.add_0_r. }
    destruct (in_class p c); [|auto].
    destruct (star p k (S pos) s) as [e'|] eqn:Hs; [|auto].
    injection H as ->.
    destruct (IH _ _ Hs) as (pre & s' & -> & Hk').
    exists (String c pre), s'. split; [reflexivity|].
    simpl. now rewrite Nat.add_succ_r.
Qed.

(** Where a match succeeds, the continuation was entered after some prefix
    of the text, a non-empty one for a pattern that needs a character. *)
Lemma rmatch_reaches r : forall k pos s e,
  rmatch r k pos s = Some e ->
  exists pre s', s = (pre ++ s')%string
                 /\ k (pos + String.length pre) s' = Some e
                 /\ (nonempty r = true -> 0 < String.length pre).
Proof.
  assert (Hone : forall (k : nat -> string -> option nat) pos c s e,
    k (S pos) s = Some e ->
    exists pre s', String c s = (pre ++ s')%string
                   /\ k (pos + String.length pre) s' = Some e
                   /\ (true = true -> 0 < String.length pre)).
  { intros k pos c s e Hk. exists (String c EmptyString), s.
    simpl. rewrite Nat.add_1_r. repeat split; [assumption | lia]. }
  assert (Hnone : forall (k : nat -> string -> option nat) pos s e,
    k pos s = Some e ->
    exists pre s', s = (pre ++ s')%string
                   /\ k (pos + String.length pre) s' = Some e
                   /\ (false = true -> 0 < String.length pre)).
  { intros k pos s e Hk. exists EmptyString, s.
    simpl. rewrite Nat.add_0_r. repeat split; [assumption | discriminate]. }
  induction r as [| |c|p|r1 IH1 r2 IH2|r1 IH1 r2 IH2|p|p|r IH];
    intros k pos s e H; simpl in H |- *.
  - auto.
  - destruct (pos =? 0)%nat; [auto | discriminate].
  - destruct s as [|c' s]; [discriminate|].
    destruct (Ascii.eqb c' c); [auto | discriminate].
  - destruct s as [|c' s]; [discriminate|].
    destruct (in_class p c'); [auto | discriminate].
  - destruct (IH1 _ _ _ _ H) as (pre1 & s1 & -> & H1 & N1).
    destruct (IH2 _ _ _ _ H1) as (pre2 & s2 & -> & H2 & N2).
    exists (pre1 ++ pre2)%string, s2.
    rewrite append_assoc, length_append, Nat.add_assoc.
    repeat split; [assumption|].
    intros Hn. apply orb_true_iff in Hn as [Hn|Hn];
      [specialize (N1 Hn) | specialize (N2 Hn)]; lia.
  - destruct (rmatch r1 k pos s) as [e'|] eqn:H1.
    + injection H as ->.
      destruct (IH1 _ _ _ _ H1) as (pre & s' & -> & Hk & N).
      exists pre, s'. repeat split; [assumption|].
      intros Hn. apply andb_true_iff in Hn. tauto.
    + destruct (IH2 _ _ _ _ H) as (pre & s' & -> & Hk & N).
      exists pre, s'. repeat split; [assumption|].
      intros Hn. apply andb_true_iff in Hn. tauto.
  - destruct s as [|c' s]; [discriminate|].
    destruct (in_class p c'); [|discriminate].
    destruct (star_reaches _ _ _ _ _ H) as (pre & s' & -> & Hk).
    exists (String c' pre), s'. simpl. rewrite Nat.add_succ_r.
    repeat split; [assumption | lia].
  - destruct (star_reaches _ _ _ _ _ H) as (pre & s' & -> & Hk).
    exists pre, s'. repeat split; [assumption | discriminate].
  - destruct (rmatch r k pos s) as [e'|] eqn:H1.
    + injection H as ->.
      destruct (IH _ _ _ _ H1) as (pre & s' & -> & Hk & N).
      exists pre, s'. repeat split; [assumption | discriminate].
    + auto.
Qed.

Import ConvertJSON.

(** Every alternative of the lexer starts with [^]: away from offset 0
    nothing matches. *)
Lemma rmatch_lexer_off k pos s : rmatch lexer k (S pos) s = None.
Proof. reflexivity. Qed.

Lemma search_from_eq r pos s :
  search_from r pos s =
  match rmatch r accept pos s with
  | Some e => Some (pos, e)
  | None =>
      match s with
      | String _ s' => search_from r (S pos) s'
      | EmptyString => None
      end
  end.
Proof. destruct s; reflexivity. Qed.

Lemma search_from_lexer_off : forall s pos, search_from lexer (S pos) s = None.
Proof.
  induction s as [|c s IH]; intros pos; rewrite search_from_eq;
    rewrite rmatch_lexer_off; [reflexivity | apply IH].
Qed.

Lemma search_lexer_anchored s start end_ :
  search lexer s = Some (start, end_) ->
  start = 0 /\ rmatch lexer accept 0 s = Some end_.
Proof.
  unfold search. rewrite search_from_eq.
  destruct (rmatch lexer accept 0 s) as [e|] eqn:H.
  - intros [= <- <-]. auto.
  - destruct s as [|c s]; [discriminate|].
    rewrite search_from_lexer_off. discriminate.
Qed.

Lemma search_lexer_span s start end_ :
  search lexer s = Some (start, end_) ->
  start = 0 /\ 0 < end_ <= String.length s.
Proof.
  intros H. apply search_lexer_anchored in H as [-> H]. split; [reflexivity|].
  destruct (rmatch_reaches _ _ _ _ _ H) as (pre & s' & -> & Hk & N).
  injection Hk as <-. specialize (N eq_refl).
  rewrite length_append. lia.
Qed.

(** ** nestLevel: the step budget *)

Ltac token_cases :=
  repeat match goal with
         | |- context [if startswith ?s ?c then _ else _] =>
             let E := fresh "Tag" in destruct (startswith s c) eqn:E
         end.

Lemma int_digits_fuel s : forall acc, int_digits acc s <> OutOfFuel.
Proof.
  induction s as [|c s IH]; intros acc; simpl; [discriminate|].
  destruct (digit_value c); [apply IH | discriminate].
Qed.

Lemma py_int_fuel s : py_int s <> OutOfFuel.
Proof. destruct s; [discriminate | apply int_digits_fuel]. Qed.

Lemma unpack2_fuel {A} (l : list A) : unpack2 l <> OutOfFuel.
Proof. destruct l as [|? [|? [|? ?]]]; discriminate. Qed.

Lemma unpack3_fuel {A} (l : list A) : unpack3 l <> OutOfFuel.
Proof. destruct l as [|? [|? [|? [|? ?]]]]; discriminate. Qed.

Lemma parse_int_fuel s : parse_int s <> OutOfFuel.
Proof.
  unfold parse_int.
  pose proof (unpack2_fuel (re_split colon s)) as H.
  destruct (unpack2 (re_split colon s)) as [v| |]; try easy.
  pose proof (py_int_fuel v). now destruct (py_int v).
Qed.

Lemma parse_str_fuel s : parse_str s <> OutOfFuel.
Proof.
  unfold parse_str.
  pose proof (unpack3_fuel (re_split colonStringSplit s)) as H.
  now destruct (unpack3 (re_split colonStringSplit s)).
Qed.

Lemma parse_bool_fuel s : parse_bool s <> OutOfFuel.
Proof.
  unfold parse_bool.
  pose proof (unpack2_fuel (re_split colon s)) as H.
  now destruct (unpack2 (re_split colon s)).
Qed.

Lemma nestLevel_eq fuel currentList keyData :
  nestLevel (S fuel) currentList keyData =
  match keyData with
  | EmptyString => (Ok currentList, keyData)
  | _ =>
      match search lexer keyData with
      | None => (Raise (InvalidArrayFormat keyData), keyData)
      | Some (start, end_) =>
          let substring := strip_semicolon (slice_to end_ keyData) in
          let keyData := slice_from end_ keyData in
          if startswith substring "a" then
            (sub <- nestLevel fuel [] ;;
             nestLevel fuel (currentList ++ [List sub])) keyData
          else if startswith substring "i" then
            (value <- lift (parse_int substring) ;;
             nestLevel fuel (currentList ++ [value])) keyData
          else if startswith substring "s" then
            (value <- lift (parse_str substring) ;;
             nestLevel fuel (currentList ++ [value])) keyData
          else if startswith substring "b" then
            (value <- lift (parse_bool substring) ;;
             nestLevel fuel (currentList ++ [value])) keyData
          else if startswith substring "}" then
            (Ok currentList, keyData)
          else nestLevel fuel currentList keyData
      end
  end.
Proof. reflexivity. Qed.

(** A budget above the length of the text is never exhausted, and the text
    only gets shorter. *)
Lemma nestLevel_fuel_enough : forall fuel currentList keyData,
  String.length keyData < fuel ->
  exists r keyData',
    nestLevel fuel currentList keyData = (r, keyData')
    /\ r <> OutOfFuel
    /\ String.length keyData' <= String.length keyData.
Proof.
  induction fuel as [|fuel IH]; intros cur kd Hlen; [lia|].
  rewrite nestLevel_eq.
  destruct kd as [|c kd0]; [now eauto|].
  destruct (search lexer (String c kd0)) as [[st en]|] eqn:Hs; [|now eauto].
  apply search_lexer_span in Hs as [_ Hen].
  set (kd := String c kd0) in *.
  assert (Hshort : String.length (slice_from en kd) < String.length kd)
    by (rewrite length_slice_from; lia).
  assert (Hlt : String.length (slice_from en kd) < fuel) by lia.
  assert (Hnext : forall l,
    exists r keyData',
      nestLevel fuel l (slice_from en kd) = (r, keyData')
      /\ r <> OutOfFuel /\ String.length keyData' <= String.length kd).
  { intros l. destruct (IH l _ Hlt) as (r & k & E & N & L).
    exists r, k. repeat split; [assumption.. | lia]. }
  assert (Hpure : forall o : outcome Node,
    o <> OutOfFuel ->
    exists r keyData',
      (value <- lift o ;; nestLevel fuel (cur ++ [value])) (slice_from en kd)
      = (r, keyData')
      /\ r <> OutOfFuel /\ String.length keyData' <= String.length kd).
  { intros o No. unfold bind, lift. destruct o as [v|e|]; [apply Hnext | | easy].
    exists (Raise e), (slice_from en kd). repeat split; [easy | lia]. }
  cbv zeta. token_cases.
  - unfold bind.
    destruct (IH [] _ Hlt) as (r1 & k1 & E1 & N1 & L1). rewrite E1.
    destruct r1 as [sub|e|]; [| |easy].
    + assert (Hk1 : String.length k1 < fuel) by lia.
      destruct (IH (cur ++ [List sub]) _ Hk1) as (r & k & E & N & L).
      exists r, k. repeat split; [assumption.. | lia].
    + exists (Raise e), k1. repeat split; [easy | lia].
  - apply Hpure, parse_int_fuel.
  - apply Hpure, parse_str_fuel.
  - apply Hpure, parse_bool_fuel.
  - exists (Ok cur), (slice_from en kd). repeat split; [easy | lia].
  - apply Hnext.
Qed.

(** A larger budget gives the same result. *)
Lemma nestLevel_fuel_mono : forall fuel currentList keyData r keyData',
  nestLevel fuel currentList keyData = (r, keyData') ->
  r <> OutOfFuel ->
  forall fuel', fuel <= fuel' ->
  nestLevel fuel' currentList keyData = (r, keyData').
Proof.
  induction fuel as [|fuel IH]; intros cur kd r kd' H Nr fuel' Hle.
  - simpl in H. unfold lift in H. injection H as <- <-. easy.
  - destruct fuel' as [|fuel']; [lia|]. apply le_S_n in Hle.
    rewrite nestLevel_eq in H |- *.
    destruct kd as [|c kd0]; [assumption|].
    destruct (search lexer (String c kd0)) as [[st en]|]; [|assumption].
    cbv zeta in H |- *.
    assert (Hpure : forall o : outcome Node,
      (value <- lift o ;; nestLevel fuel (cur ++ [value]))
        (slice_from en (String c kd0)) = (r, kd') ->
      (value <- lift o ;; nestLevel fuel' (cur ++ [value]))
        (slice_from en (String c kd0)) = (r, kd')).
    { intros o. unfold bind, lift. destruct o; eauto. }
    token_cases; eauto.
    unfold bind in H |- *.
    destruct (nestLevel fuel [] (slice_from en (String c kd0)))
      as [r1 k1] eqn:E1.
    destruct r1 as [sub|e|].
    + rewrite (IH _ _ _ _ E1 ltac:(easy) _ Hle). eauto.
    + rewrite (IH _ _ _ _ E1 ltac:(easy) _ Hle). assumption.
    + injection H as <- <-. easy.
Qed.

(** ** The runs of nestLevel *)

Lemma runs_total currentList keyData :
  exists r keyData', runs currentList keyData r keyData'.
Proof.
  destruct (nestLevel_fuel_enough (S (String.length keyData)) currentList
              keyData (Nat.lt_succ_diag_r _)) as (r & k & E & N & _).
  exists r, k, (S (String.length keyData)). auto.
Qed.

Lemma runs_deterministic currentList keyData r1 k1 r2 k2 :
  runs currentList keyData r1 k1 -> runs currentList keyData r2 k2 ->
  r1 = r2 /\ k1 = k2.
Proof.
  intros (f1 & E1 & N1) (f2 & E2 & N2).
  pose proof (nestLevel_fuel_mono _ _ _ _ _ E1 N1 (Nat.max f1 f2)
                (Nat.le_max_l _ _)) as E1'.
  pose proof (nestLevel_fuel_mono _ _ _ _ _ E2 N2 (Nat.max f1 f2)
                (Nat.le_max_r _ _)) as E2'.
  rewrite E1' in E2'. now injection E2'.
Qed.

(** The budget that [decode_text] gives is one that suffices. *)
Lemma runs_nestLevel currentList keyData r keyData' :
  runs currentList keyData r keyData' ->
  nestLevel (S (String.length keyData)) currentList keyData = (r, keyData').
Proof.
  intros Hr.
  destruct (nestLevel_fuel_enough (S (String.length keyData)) currentList
              keyData (Nat.lt_succ_diag_r _)) as (r' & k' & E & N & _).
  destruct (runs_deterministic _ _ _ _ _ _ Hr
              (ex_intro _ _ (conj E N))) as [-> ->].
  exact E.
Qed.

(** ** The lexer on the tokens of the grammar *)

Import Syntax.

Lemma star_run p k : forall run pos rest e,
  all_chars (in_class p) run = true ->
  head_in p rest = false ->
  k (pos + String.length run) rest = Some e ->
  star p k pos (run ++ rest) = Some e.
Proof.
  induction run as [|c run IH]; intros pos rest e Hall Hhead Hk; simpl in *.
  - rewrite Nat.add_0_r in Hk.
    destruct rest as [|c rest]; simpl in *; [assumption|].
    now rewrite Hhead.
  - apply andb_true_iff in Hall as [Hc Hall]. rewrite Hc.
    rewrite (IH (S pos) rest e Hall Hhead); [reflexivity|].
    now rewrite Nat.add_succ_r in Hk.
Qed.

Lemma plus_run p k run pos rest e :
  run <> EmptyString ->
  all_chars (in_class p) run = true ->
  head_in p rest = false ->
  k (pos + String.length run) rest = Some e ->
  rmatch (Plus p) k pos (run ++ rest) = Some e.
Proof.
  destruct run as [|c run]; [easy|]. intros _ Hall Hhead Hk. simpl in *.
  apply andb_true_iff in Hall as [Hc Hall]. rewrite Hc.
  apply star_run; [assumption.. |]. now rewrite Nat.add_succ_r in Hk.
Qed.

Lemma number_run s :
  number s = true -> s <> EmptyString /\ all_chars (in_class digit) s = true.
Proof. destruct s; [discriminate | intros H; split; [easy | exact H]]. Qed.

Lemma opt_semicolon k pos semi rest e :
  safe_follow rest = true ->
  k (pos + String.length (semicolon semi)) rest = Some e ->
  rmatch (Opt (Chr ";")) k pos (semicolon semi ++ rest) = Some e.
Proof.
  intros Hsafe Hk. destruct semi; simpl in *.
  - rewrite Nat.add_1_r in Hk. now rewrite Hk.
  - rewrite Nat.add_0_r in Hk.
    destruct rest as [|c rest]; [assumption|]. simpl in Hsafe.
    apply andb_true_iff in Hsafe as [_ Hc].
    apply negb_true_iff in Hc. now rewrite Hc.
Qed.

Lemma safe_follow_semicolon semi rest :
  safe_follow rest = true ->
  head_in digit (semicolon semi ++ rest) = false.
Proof.
  intros Hsafe. destruct semi; [reflexivity|]. simpl.
  destruct rest as [|c rest]; [reflexivity|]. simpl in *.
  apply andb_true_iff in Hsafe as [Hc _]. now apply negb_true_iff in Hc.
Qed.

Lemma search_of_rmatch s e :
  rmatch lexer accept 0 s = Some e -> search lexer s = Some (0, e).
Proof. intros H. unfold search. now rewrite search_from_eq, H. Qed.

Lemma lexer_int digits semi rest :
  number digits = true -> safe_follow rest = true ->
  search lexer (("i:" ++ digits ++ semicolon semi) ++ rest)
  = Some (0, String.length ("i:" ++ digits ++ semicolon semi)).
Proof.
  intros Hnum Hsafe. apply number_run in Hnum as [Hne Hall].
  apply search_of_rmatch.
  rewrite !append_assoc.
  change (rmatch lexer accept 0 ("i:" ++ digits ++ semicolon semi ++ rest))
    with (match rmatch (Plus digit)
                  (rmatch (Opt (Chr ";")) (rmatch Eps accept)) 2
                  (digits ++ semicolon semi ++ rest) with
          | Some e => Some e
          | None => None
          end).
  erewrite plus_run; [reflexivity | assumption.. | |].
  - now apply safe_follow_semicolon.
  - apply opt_semicolon; [assumption|]. simpl. unfold accept.
    f_equal. rewrite length_append. lia.
Qed.

Lemma all_chars_ext (p q : ascii -> bool) s :
  (forall c, p c = q c) -> all_chars p s = all_chars q s.
Proof. intros H. induction s as [|c s IH]; simpl; [reflexivity | now rewrite H, IH]. Qed.

Lemma lexer_str len payload semi rest :
  number len = true ->
  all_chars (fun c => negb (Ascii.eqb c dquote)) payload = true ->
  safe_follow rest = true ->
  search lexer (("s:" ++ len ++ ":" ++ quoted payload ++ semicolon semi) ++ rest)
  = Some (0, String.length
               ("s:" ++ len ++ ":" ++ quoted payload ++ semicolon semi)).
Proof.
  intros Hnum Hpay Hsafe. apply number_run in Hnum as [Hne Hall].
  apply search_of_rmatch. unfold quoted.
  rewrite !append_assoc. simpl String.append. rewrite !append_assoc.
  simpl String.append.
  set (tail := (semicolon semi ++ rest)%string).
  set (body := (payload ++ String dquote tail)%string).
  change (rmatch lexer accept 0
            (String "s" (String ":" (len ++ String ":" (String dquote body)))))
    with (match rmatch (Plus digit)
                  (rmatch (Chr ":") (rmatch (Chr dquote)
                     (rmatch (Star (CNot (String dquote EmptyString)))
                        (rmatch (Chr dquote)
                           (rmatch (Opt (Chr ";")) (rmatch Eps accept))))))
                  2 (len ++ String ":" (String dquote body)) with
          | Some e => Some e
          | None => None
          end).
  erewrite plus_run; [reflexivity | assumption.. | reflexivity |].
  simpl rmatch. unfold body.
  apply star_run.
  - rewrite <- Hpay. apply all_chars_ext. intros c. simpl.
    now rewrite orb_false_r.
  - reflexivity.
  - simpl. unfold tail.
    change (match rmatch (Chr ";") accept
                    (S (S (S (2 + String.length len + String.length payload))))
                    (semicolon semi ++ rest) with
            | Some e => Some e
            | None => accept
                        (S (S (S (2 + String.length len + String.length payload))))
                        (semicolon semi ++ rest)%string
            end)
      with (rmatch (Opt (Chr ";")) (rmatch Eps accept)
              (S (S (S (2 + String.length len + String.length payload))))
              (semicolon semi ++ rest)).
    apply opt_semicolon; [assumption|]. simpl. unfold accept. f_equal.
    rewrite !length_append. simpl. rewrite !length_append. simpl. lia.
Qed.

Lemma lexer_bool (bit semi : bool) rest :
  safe_follow rest = true ->
  search lexer (("b:" ++ (if bit then "1" else "0") ++ semicolon semi) ++ rest)
  = Some (0, String.length
               ("b:" ++ (if bit then "1" else "0") ++ semicolon semi)).
Proof.
  intros Hsafe. apply search_of_rmatch.
  rewrite !append_assoc.
  assert (H : forall c : ascii, in_class (CSet "01") c = true ->
    rmatch lexer accept 0
      ("b:" ++ String c EmptyString ++ semicolon semi ++ rest)
    = Some (3 + String.length (semicolon semi))).
  { intros c Hc.
    change (rmatch lexer accept 0
              ("b:" ++ String c EmptyString ++ semicolon semi ++ rest))
      with (if in_class (CSet "01") c
            then rmatch (Opt (Chr ";")) (rmatch Eps accept) 3
                   (semicolon semi ++ rest)
            else None).
    rewrite Hc. now apply opt_semicolon. }
  destruct bit; rewrite H by reflexivity; f_equal;
    simpl; destruct semi; reflexivity.
Qed.

Lemma lexer_open count rest :
  number count = true ->
  search lexer (open_tag count ++ rest)
  = Some (0, String.length (open_tag count)).
Proof.
  intros Hnum. apply number_run in Hnum as [Hne Hall].
  apply search_of_rmatch. unfold open_tag.
  rewrite !append_assoc.
  change (rmatch lexer accept 0 ("a:" ++ count ++ ":{" ++ rest))
    with (match rmatch (Plus digit)
                  (rmatch (str ":{") (rmatch Eps accept)) 2
                  (count ++ ":{" ++ rest) with
          | Some e => Some e
          | None => None
          end).
  erewrite plus_run; [reflexivity | assumption.. | reflexivity |].
  simpl. unfold accept. f_equal. rewrite !length_append. simpl. lia.
Qed.

Lemma lexer_close rest :
  search lexer (String "}" rest) = Some (0, 1).
Proof. reflexivity. Qed.

(** ** One token of nestLevel *)

Lemma endswith_append a b c :
  b <> EmptyString -> endswith (a ++ b) c = endswith b c.
Proof.
  intros Hb. induction a as [|x a IH]; [reflexivity|].
  simpl String.append. simpl endswith. rewrite IH.
  destruct (a ++ b)%string eqn:E; [|reflexivity].
  destruct a; simpl in E; [contradiction | discriminate].
Qed.

Lemma drop_last_append a c :
  drop_last (a ++ String c EmptyString) = a.
Proof.
  induction a as [|x a IH]; [reflexivity|].
  simpl String.append. simpl drop_last. rewrite IH.
  now destruct a.
Qed.

Lemma endswith_all p s c :
  all_chars p s = true -> p c = false -> endswith s c = false.
Proof.
  intros Hall Hc. induction s as [|x s IH]; [reflexivity|].
  simpl in Hall. apply andb_true_iff in Hall as [Hx Hall].
  simpl. destruct s as [|y s].
  - destruct (Ascii.eqb_spec x c) as [->|]; [congruence | reflexivity].
  - now apply IH.
Qed.

Lemma strip_semicolon_append x semi :
  endswith x ";" = false -> strip_semicolon (x ++ semicolon semi) = x.
Proof.
  intros Hx. unfold strip_semicolon. destruct semi; simpl semicolon.
  - rewrite endswith_append by discriminate. simpl. apply drop_last_append.
  - now rewrite append_nil_r, Hx.
Qed.

Lemma strip_int digits semi :
  number digits = true ->
  strip_semicolon ("i:" ++ digits ++ semicolon semi) = ("i:" ++ digits)%string.
Proof.
  intros Hnum. apply number_run in Hnum as [Hne Hall].
  rewrite <- append_assoc. apply strip_semicolon_append.
  rewrite endswith_append by assumption.
  now apply (endswith_all (in_class digit)).
Qed.

Lemma strip_str len payload semi :
  strip_semicolon ("s:" ++ len ++ ":" ++ quoted payload ++ semicolon semi)
  = ("s:" ++ len ++ ":" ++ quoted payload)%string.
Proof.
  rewrite <- !append_assoc. apply strip_semicolon_append.
  unfold quoted.
  change (String dquote (payload ++ String dquote EmptyString))
    with (String dquote EmptyString ++ payload ++ String dquote EmptyString)%string.
  rewrite <- !append_assoc. now rewrite endswith_append.
Qed.

Lemma strip_bool (bit semi : bool) :
  strip_semicolon ("b:" ++ (if bit then "1" else "0") ++ semicolon semi)
  = ("b:" ++ (if bit then "1" else "0"))%string.
Proof. now destruct bit, semi. Qed.

Lemma strip_open count : strip_semicolon (open_tag count) = open_tag count.
Proof.
  unfold strip_semicolon, open_tag. rewrite <- append_assoc.
  now rewrite endswith_append.
Qed.

Lemma nestLevel_token fuel currentList token rest :
  token <> EmptyString ->
  search lexer (token ++ rest) = Some (0, String.length token) ->
  nestLevel (S fuel) currentList (token ++ rest)%string =
  let substring := strip_semicolon token in
  if startswith substring "a" then
    (sub <- nestLevel fuel [] ;;
     nestLevel fuel (currentList ++ [List sub])) rest
  else if startswith substring "i" then
    (value <- lift (parse_int substring) ;;
     nestLevel fuel (currentList ++ [value])) rest
  else if startswith substring "s" then
    (value <- lift (parse_str substring) ;;
     nestLevel fuel (currentList ++ [value])) rest
  else if startswith substring "b" then
    (value <- lift (parse_bool substring) ;;
     nestLevel fuel (currentList ++ [value])) rest
  else if startswith substring "}" then (Ok currentList, rest)
  else nestLevel fuel currentList rest.
Proof.
  intros Hne Hs. rewrite nestLevel_eq, Hs.
  rewrite slice_to_append, slice_from_append.
  destruct token as [|c token]; [contradiction | reflexivity].
Qed.

(** ** The rules of a run *)

Lemma runs_empty currentList :
  runs currentList EmptyString (Ok currentList) EmptyString.
Proof. exists 1. split; [reflexivity | discriminate]. Qed.

Lemma runs_close currentList rest :
  runs currentList (String "}" rest) (Ok currentList) rest.
Proof. exists 1. split; [reflexivity | discriminate]. Qed.

Lemma runs_open currentList count rest sub rest' r k :
  number count = true ->
  runs [] rest (Ok sub) rest' ->
  runs (currentList ++ [List sub]) rest' r k ->
  runs currentList (open_tag count ++ rest) r k.
Proof.
  intros Hnum (f1 & E1 & N1) (f2 & E2 & N2).
  exists (S (Nat.max f1 f2)). split; [|assumption].
  rewrite nestLevel_token; [|now destruct count | now apply lexer_open].
  rewrite strip_open. cbv zeta. simpl startswith. cbv iota. unfold bind.
  rewrite (nestLevel_fuel_mono _ _ _ _ _ E1 N1 _ (Nat.le_max_l _ _)).
  apply (nestLevel_fuel_mono _ _ _ _ _ E2 N2 _ (Nat.le_max_r _ _)).
Qed.

Lemma runs_open_raise currentList count rest e rest' :
  number count = true ->
  runs [] rest (Raise e) rest' ->
  runs currentList (open_tag count ++ rest) (Raise e) rest'.
Proof.
  intros Hnum (f1 & E1 & N1).
  exists (S f1). split; [|assumption].
  rewrite nestLevel_token; [|now destruct count | now apply lexer_open].
  rewrite strip_open. cbv zeta. simpl startswith. cbv iota. unfold bind.
  now rewrite E1.
Qed.

Lemma runs_int currentList digits semi rest :
  number digits = true -> safe_follow rest = true ->
  match parse_int ("i:" ++ digits) with
  | Ok n => forall r k, runs (currentList ++ [n]) rest r k ->
                        runs currentList (render (EInt digits semi) ++ rest) r k
  | Raise e => runs currentList (render (EInt digits semi) ++ rest) (Raise e) rest
  | OutOfFuel => False
  end.
Proof.
  intros Hnum Hsafe.
  assert (Hstep : forall fuel,
    nestLevel (S fuel) currentList (render (EInt digits semi) ++ rest)%string
    = (value <- lift (parse_int ("i:" ++ digits)) ;;
       nestLevel fuel (currentList ++ [value])) rest).
  { intros fuel.
    change (render (EInt digits semi))
      with ("i:" ++ digits ++ semicolon semi)%string.
    rewrite nestLevel_token; [|discriminate | now apply lexer_int].
    now rewrite strip_int. }
  pose proof (parse_int_fuel ("i:" ++ digits)) as Hf.
  destruct (parse_int ("i:" ++ digits)) as [n|e|] eqn:Hp; [| |easy].
  - intros r k (f & E & N). exists (S f). split; [|assumption].
    rewrite Hstep. exact E.
  - exists 1. split; [|discriminate]. now rewrite Hstep.
Qed.

Lemma runs_str currentList len payload semi rest :
  wf (EStr len payload semi) = true -> safe_follow rest = true ->
  match parse_str ("s:" ++ len ++ ":" ++ quoted payload) with
  | Ok n => forall r k,
      runs (currentList ++ [n]) rest r k ->
      runs currentList (render (EStr len payload semi) ++ rest) r k
  | Raise e =>
      runs currentList (render (EStr len payload semi) ++ rest) (Raise e) rest
  | OutOfFuel => False
  end.
Proof.
  intros Hwf Hsafe. simpl in Hwf. apply andb_true_iff in Hwf as [Hnum Hpay].
  assert (Hstep : forall fuel,
    nestLevel (S fuel) currentList (render (EStr len payload semi) ++ rest)%string
    = (value <- lift (parse_str ("s:" ++ len ++ ":" ++ quoted payload)) ;;
       nestLevel fuel (currentList ++ [value])) rest).
  { intros fuel.
    change (render (EStr len payload semi))
      with ("s:" ++ len ++ ":" ++ quoted payload ++ semicolon semi)%string.
    rewrite nestLevel_token; [|discriminate | now apply lexer_str].
    now rewrite strip_str. }
  pose proof (parse_str_fuel ("s:" ++ len ++ ":" ++ quoted payload)) as Hf.
  destruct (parse_str ("s:" ++ len ++ ":" ++ quoted payload))
    as [n|e|] eqn:Hp; [| |easy].
  - intros r k (f & E & N). exists (S f). split; [|assumption].
    rewrite Hstep. exact E.
  - exists 1. split; [|discriminate]. now rewrite Hstep.
Qed.

Lemma runs_bool currentList (bit semi : bool) rest :
  safe_follow rest = true ->
  match parse_bool ("b:" ++ (if bit then "1" else "0")) with
  | Ok n => forall r k, runs (currentList ++ [n]) rest r k ->
                        runs currentList (render (EBool bit semi) ++ rest) r k
  | Raise e => runs currentList (render (EBool bit semi) ++ rest) (Raise e) rest
  | OutOfFuel => False
  end.
Proof.
  intros Hsafe.
  assert (Hstep : forall fuel,
    nestLevel (S fuel) currentList (render (EBool bit semi) ++ rest)%string
    = (value <- lift (parse_bool ("b:" ++ (if bit then "1" else "0"))) ;;
       nestLevel fuel (currentList ++ [value])) rest).
  { intros fuel.
    change (render (EBool bit semi))
      with ("b:" ++ (if bit then "1" else "0") ++ semicolon semi)%string.
    rewrite nestLevel_token; [|discriminate | now apply lexer_bool].
    rewrite strip_bool. now destruct bit. }
  pose proof (parse_bool_fuel ("b:" ++ (if bit then "1" else "0"))) as Hf.
  destruct (parse_bool ("b:" ++ (if bit then "1" else "0")))
    as [n|e|] eqn:Hp; [| |easy].
  - intros r k (f & E & N). exists (S f). split; [|assumption].
    rewrite Hstep. exact E.
  - exists 1. split; [|discriminate]. now rewrite Hstep.
Qed.

(** ** nestLevel on the texts of the grammar *)

Lemma elem_ind (P : elem -> Prop) :
  (forall digits semi, P (EInt digits semi)) ->
  (forall len payload semi, P (EStr len payload semi)) ->
  (forall bit semi, P (EBool bit semi)) ->
  (forall count items, Forall P items -> P (EArr count items)) ->
  forall e, P e.
Proof.
  intros Hint Hstr Hbool Harr. fix IH 1. intros [d s|l p s|b s|c items].
  - apply Hint.
  - apply Hstr.
  - apply Hbool.
  - apply Harr. induction items as [|e items IHitems]; constructor.
    + apply IH.
    + exact IHitems.
Qed.

Lemma safe_follow_render e x : safe_follow (render e ++ x) = true.
Proof. destruct e; reflexivity. Qed.

Lemma safe_follow_render_list items rest :
  safe_follow rest = true -> safe_follow (render_list items ++ rest) = true.
Proof.
  intros Hsafe. destruct items as [|e items]; [assumption|].
  change (render_list (e :: items))
    with (render e ++ render_list items)%string.
  rewrite append_assoc. apply safe_follow_render.
Qed.

Lemma continues_items items :
  Forall (fun e => wf e = true ->
            forall rest cur, safe_follow rest = true ->
              continues cur (render e) rest (single (node_of e))) items ->
  forallb wf items = true ->
  forall rest cur, safe_follow rest = true ->
    continues cur (render_list items) rest (nodes_of items).
Proof.
  induction 1 as [|e items He _ IH]; intros Hwf rest cur Hsafe.
  - simpl. intros r k Hr. now rewrite app_nil_r in Hr.
  - simpl in Hwf. apply andb_true_iff in Hwf as [Hwe Hwi].
    specialize (IH Hwi rest).
    specialize (He Hwe (render_list items ++ rest)%string cur
                  (safe_follow_render_list _ _ Hsafe)).
    change (render_list (e :: items))
      with (render e ++ render_list items)%string.
    change (nodes_of (e :: items))
      with (match node_of e with
            | Ok n =>
                match nodes_of items with
                | Ok ns => Ok (n :: ns)
                | Raise err => Raise err
                | OutOfFuel => OutOfFuel
                end
            | Raise err => Raise err
            | OutOfFuel => OutOfFuel
            end).
    unfold continues in *. rewrite append_assoc.
    destruct (node_of e) as [n|err|]; simpl single in He; [| exact He | exact He].
    specialize (IH (cur ++ [n]) Hsafe).
    destruct (nodes_of items) as [ns|err|]; [| |exact IH].
    + intros r k Hr. apply He, IH. now rewrite <- app_assoc.
    + destruct IH as [k Hk]. exists k. now apply He.
Qed.

Lemma continues_elem e :
  wf e = true ->
  forall rest cur, safe_follow rest = true ->
    continues cur (render e) rest (single (node_of e)).
Proof.
  induction e as [d s|l p s|b s|c items IH] using elem_ind;
    intros Hwf rest cur Hsafe.
  - pose proof (runs_int cur d s rest Hwf Hsafe) as H.
    change (node_of (EInt d s)) with (parse_int ("i:" ++ d)).
    destruct (parse_int ("i:" ++ d)); unfold continues, single; eauto.
  - pose proof (runs_str cur l p s rest Hwf Hsafe) as H.
    change (node_of (EStr l p s))
      with (parse_str ("s:" ++ l ++ ":" ++ quoted p)).
    destruct (parse_str ("s:" ++ l ++ ":" ++ quoted p));
      unfold continues, single; eauto.
  - pose proof (runs_bool cur b s rest Hsafe) as H.
    change (node_of (EBool b s))
      with (parse_bool ("b:" ++ (if b then "1" else "0"))).
    destruct (parse_bool ("b:" ++ (if b then "1" else "0")));
      unfold continues, single; eauto.
  - simpl in Hwf. apply andb_true_iff in Hwf as [Hnum Hwi].
    pose proof (continues_items items IH Hwi (String "}" rest) []
                  eq_refl) as Hin.
    change (render (EArr c items))
      with (open_tag c ++ render_list items ++ "}")%string.
    change (node_of (EArr c items))
      with (match nodes_of items with
            | Ok ns => Ok (List ns)
            | Raise err => Raise err
            | OutOfFuel => OutOfFuel
            end).
    unfold continues in *.
    destruct (nodes_of items) as [ns|err|]; simpl single; cbv iota beta;
      [| |exact Hin]; rewrite !append_assoc; simpl ("}" ++ rest)%string.
    + intros r k Hr.
      apply (runs_open cur c _ ns rest r k Hnum); [|assumption].
      apply Hin. apply runs_close.
    + destruct Hin as [k Hk]. exists k. now apply runs_open_raise.
Qed.

Lemma continues_list items :
  forallb wf items = true ->
  forall rest cur, safe_follow rest = true ->
    continues cur (render_list items) rest (nodes_of items).
Proof.
  apply continues_items, Forall_forall. intros e _. apply continues_elem.
Qed.

(** ** Induction on nodes and on items taken two by two *)

Lemma Node_ind (P : Node -> Prop) :
  (forall s, P (Scalar s)) ->
  (forall l, Forall P l -> P (List l)) ->
  forall n, P n.
Proof.
  intros Hs Hl. fix IH 1. intros [s|l].
  - apply Hs.
  - apply Hl. induction l as [|n l IHl]; constructor.
    + apply IH.
    + exact IHl.
Qed.

Lemma pairs_ind {A} (P : list A -> Prop) :
  P [] ->
  (forall x, P [x]) ->
  (forall k v rest, P rest -> P (k :: v :: rest)) ->
  forall l, P l.
Proof.
  intros H0 H1 H2. fix IH 1. intros [|k [|v rest]].
  - exact H0.
  - apply H1.
  - apply H2, IH.
Qed.

Lemma Forall_pairs {A} (P : A -> Prop) k v (rest : list A) :
  Forall P (k :: v :: rest) -> P k /\ P v /\ Forall P rest.
Proof.
  intros H. inversion H as [|? ? Hk H']; subst.
  inversion H' as [|? ? Hv Hrest]; subst. auto.
Qed.

(** ** decode on the runs of nestLevel *)

Lemma decode_text_runs keyData r k :
  runs [] keyData r k -> decode_text keyData = finish r.
Proof.
  intros Hr. unfold decode_text. rewrite (runs_nestLevel _ _ _ _ Hr).
  now destruct r.
Qed.

Lemma convert_with_fuel l :
  Forall (fun n => stored n <> OutOfFuel) l ->
  forall d, convert_with stored l d <> OutOfFuel.
Proof.
  induction l as [| x | key val rest IH] using pairs_ind; intros Hall d;
    try discriminate.
  apply Forall_pairs in Hall as (_ & Hv & Hrest). simpl.
  destruct (stored val) as [v|e|]; [|discriminate|easy].
  destruct key as [k|l]; simpl; [|discriminate].
  now apply IH.
Qed.

Lemma stored_fuel n : stored n <> OutOfFuel.
Proof.
  induction n as [s|l IH] using Node_ind; [discriminate|].
  simpl. pose proof (convert_with_fuel l IH []) as H.
  now destruct (convert_with stored l []).
Qed.

Lemma convert_fuel l : convert l <> OutOfFuel.
Proof.
  apply convert_with_fuel, Forall_forall. intros n _. apply stored_fuel.
Qed.

Lemma decode_text_total keyData : decode_text keyData <> OutOfFuel.
Proof.
  destruct (runs_total [] keyData) as (r & k & Hr).
  rewrite (decode_text_runs _ _ _ Hr). destruct Hr as (f & _ & N).
  destruct r as [top|e|]; simpl; [|discriminate|easy].
  destruct top as [|x top]; simpl; [discriminate|].
  destruct x as [[z|s|b]|l]; simpl; try discriminate; apply convert_fuel.
Qed.

Lemma decode_missing_file fs key :
  fs key = None -> decode fs key = Raise FileNotFoundError.
Proof. intros H. unfold decode. now rewrite H. Qed.

Lemma decode_reads_line fs key keyData :
  fs key = Some keyData -> decode fs key = decode_text keyData.
Proof. intros H. unfold decode. now rewrite H. Qed.

(** A text made of complete items decodes to what [convert] makes of the
    first node they build. *)
Lemma decode_render_list items :
  forallb wf items = true ->
  decode_text (render_list items) = finish (nodes_of items).
Proof.
  intros Hwf.
  pose proof (continues_list items Hwf EmptyString [] eq_refl) as H.
  unfold continues in H. rewrite append_nil_r in H.
  destruct (nodes_of items) as [ns|e|]; [| |contradiction].
  - apply (decode_text_runs _ _ EmptyString), H, runs_empty.
  - destruct H as [k Hk]. apply (decode_text_runs _ _ _ Hk).
Qed.

(** ** Booleans *)

Lemma parse_bool_true (bit : bool) :
  parse_bool ("b:" ++ (if bit then "1" else "0")) = Ok (Scalar (SBool true)).
Proof. now destruct bit. Qed.

(** C1, as the code has it: the [b] branch appends [bool(value)] for the
    text [value] of the digit, and a non-empty str is true, so that the
    tokens [b:0;] and [b:1;] both decode to true; the record decoded from
    an array whose value is [b:0;] holds true where the claim says false. *)
Theorem C1_boolean_zero_decodes_true :
  parse_bool "b:0" = Ok (Scalar (SBool true))
  /\ parse_bool "b:1" = Ok (Scalar (SBool true))
  /\ decode_text (dq "a:2:{s:1:'k';b:0;}")
     = Ok [(SStr "k", VScalar (SBool true))]
  /\ decode_text (dq "a:2:{s:1:'k';b:1;}")
     = Ok [(SStr "k", VScalar (SBool true))].
Proof. repeat split; vm_compute; reflexivity. Qed.

(** ** Texts that no pattern matches *)

Lemma search_none_rmatch r s :
  search r s = None -> rmatch r accept 0 s = None.
Proof.
  unfold search. rewrite search_from_eq.
  now destruct (rmatch r accept 0 s).
Qed.

Lemma search_lexer_none s :
  search integer s = None -> search string_ s = None ->
  search array s = None -> search endArr s = None ->
  search boolean s = None ->
  search lexer s = None.
Proof.
  intros Hi Hs Ha He Hb.
  apply search_none_rmatch in Hi, Hs, Ha, He, Hb.
  unfold search. rewrite search_from_eq.
  change (rmatch lexer accept 0 s)
    with (match rmatch integer accept 0 s with
          | Some e => Some e
          | None =>
              match rmatch string_ accept 0 s with
              | Some e => Some e
              | None =>
                  match rmatch array accept 0 s with
                  | Some e => Some e
                  | None =>
                      match rmatch endArr accept 0 s with
                      | Some e => Some e
                      | None => rmatch boolean accept 0 s
                      end
                  end
              end
          end).
  rewrite Hi, Hs, Ha, He, Hb.
  destruct s as [|c s]; [reflexivity | apply search_from_lexer_off].
Qed.

Lemma nestLevel_stuck fuel currentList keyData :
  keyData <> EmptyString ->
  search lexer keyData = None ->
  nestLevel (S fuel) currentList keyData
  = (Raise (InvalidArrayFormat keyData), keyData).
Proof.
  intros Hne Hs. rewrite nestLevel_eq, Hs.
  destruct keyData; [contradiction | reflexivity].
Qed.

Lemma search_lexer_other_tag c rest :
  mem_char c "isa}b" = false -> search lexer (String c rest) = None.
Proof.
  intros Hc. simpl in Hc. repeat (apply orb_false_iff in Hc as [? Hc]).
  unfold search. rewrite search_from_eq.
  change (rmatch lexer accept 0 (String c rest))
    with (match (if Ascii.eqb c "i"
                 then rmatch (seq [Chr ":"; Plus digit; Opt (Chr ";")])
                        accept 1 rest
                 else None) with
          | Some e => Some e
          | None =>
              match (if Ascii.eqb c "s"
                     then rmatch
                            (seq [Chr ":"; Plus digit; Chr ":"; Chr dquote;
                                  Star (CNot (String dquote EmptyString));
                                  Chr dquote; Opt (Chr ";")]) accept 1 rest
                     else None) with
              | Some e => Some e
              | None =>
                  match (if Ascii.eqb c "a"
                         then rmatch (seq [Chr ":"; Plus digit; str ":{"])
                                accept 1 rest
                         else None) with
                  | Some e => Some e
                  | None =>
                      match (if Ascii.eqb c "}" then Some 1 else None) with
                      | Some e => Some e
                      | None =>
                          if Ascii.eqb c "b"
                          then rmatch (seq [Chr ":"; Cls (CSet "01");
                                            Opt (Chr ";")]) accept 1 rest
                          else None
                      end
                  end
              end
          end).
  repeat match goal with
         | H : Ascii.eqb c _ = false |- _ => rewrite H; clear H
         end.
  apply search_from_lexer_off.
Qed.

(** C6: when none of the five token patterns matches at the front of the
    text that is left, [nestLevel] raises [InvalidArrayFormat] with that
    text, at every nesting level, and so does [decode] when this is the
    first token; an input that starts with [x:1;] is such a text. *)
Theorem C6_unrecognized_tag_is_rejected :
  (forall fuel currentList keyData,
     keyData <> EmptyString ->
     search integer keyData = None -> search string_ keyData = None ->
     search array keyData = None -> search endArr keyData = None ->
     search boolean keyData = None ->
     nestLevel (S fuel) currentList keyData
     = (Raise (InvalidArrayFormat keyData), keyData)
     /\ decode_text keyData = Raise (InvalidArrayFormat keyData))
  /\ (forall rest,
        decode_text ("x:1;" ++ rest)
        = Raise (InvalidArrayFormat ("x:1;" ++ rest))).
Proof.
  split.
  - intros fuel cur kd Hne Hi Hs Ha He Hb.
    pose proof (search_lexer_none kd Hi Hs Ha He Hb) as Hnone.
    split; [now apply nestLevel_stuck|].
    unfold decode_text. now rewrite nestLevel_stuck.
  - intros rest. unfold decode_text.
    rewrite nestLevel_stuck; [reflexivity | discriminate |].
    now apply search_lexer_other_tag.
Qed.

Lemma C6_unrecognized_tag_witness :
  nestLevel 3 [Scalar (SInt 1)] "x:1;"
  = (Raise (InvalidArrayFormat "x:1;"), "x:1;")
  /\ decode_text "x:1;" = Raise (InvalidArrayFormat "x:1;").
Proof.
  apply (proj1 C6_unrecognized_tag_is_rejected 2 [Scalar (SInt 1)] "x:1;");
    [discriminate | reflexivity..].
Defined.

(** ** The spans of the matches *)

Lemma nestLevel_spans_erase : forall fuel currentList keyData spans,
  nestLevel fuel currentList keyData
  = (fst (nestLevel_spans fuel currentList keyData spans),
     fst (snd (nestLevel_spans fuel currentList keyData spans))).
Proof.
  induction fuel as [|fuel IH]; intros cur kd spans; [reflexivity|].
  rewrite nestLevel_eq. simpl nestLevel_spans.
  destruct kd as [|c kd0]; [reflexivity|].
  destruct (search lexer (String c kd0)) as [[st en]|]; [|reflexivity].
  set (kd := String c kd0). cbv zeta.
  set (spans1 := spans ++ [span_text kd st en]).
  assert (Hpure : forall o : outcome Node,
    (value <- lift o ;; nestLevel fuel (cur ++ [value])) (slice_from en kd)
    = (fst (match o with
            | Ok value => nestLevel_spans fuel (cur ++ [value])
                            (slice_from en kd) spans1
            | Raise e => (Raise e, (slice_from en kd, spans1))
            | OutOfFuel => (OutOfFuel, (slice_from en kd, spans1))
            end),
       fst (snd (match o with
                 | Ok value => nestLevel_spans fuel (cur ++ [value])
                                 (slice_from en kd) spans1
                 | Raise e => (Raise e, (slice_from en kd, spans1))
                 | OutOfFuel => (OutOfFuel, (slice_from en kd, spans1))
                 end)))).
  { intros o. unfold bind, lift. destruct o; [apply IH | reflexivity..]. }
  token_cases; try apply Hpure; try reflexivity; try apply IH.
  unfold bind. rewrite (IH [] (slice_from en kd) spans1).
  destruct (nestLevel_spans fuel [] (slice_from en kd) spans1)
    as [[sub|e|] [kd1 spans2]]; simpl; [apply IH | reflexivity..].
Qed.

Lemma concat_spans_app a b :
  concat_spans (a ++ b) = (concat_spans a ++ concat_spans b)%string.
Proof.
  induction a as [|x a IH]; simpl; [reflexivity|].
  now rewrite IH, append_assoc.
Qed.

Lemma nestLevel_spans_cover : forall fuel currentList keyData spans r k spans',
  nestLevel_spans fuel currentList keyData spans = (r, (k, spans')) ->
  exists new, spans' = spans ++ new
              /\ (concat_spans new ++ k)%string = keyData.
Proof.
  induction fuel as [|fuel IH]; intros cur kd spans r k spans' H.
  - injection H as <- <- <-. exists []. now rewrite app_nil_r.
  - simpl in H.
    assert (Hdone : forall o,
      (o, (kd, spans)) = (r, (k, spans')) ->
      exists new, spans' = spans ++ new
                  /\ (concat_spans new ++ k)%string = kd).
    { intros o [= <- <- <-]. exists []. now rewrite app_nil_r. }
    destruct kd as [|c kd0]; [now apply (Hdone (Ok cur))|].
    destruct (search lexer (String c kd0)) as [[st en]|] eqn:Hs;
      [|now apply (Hdone (Raise (InvalidArrayFormat (String c kd0))))].
    clear Hdone. set (kd := String c kd0) in *.
    apply search_lexer_span in Hs as [-> Hen].
    assert (Hhere : forall o k1 spans1,
      (concat_spans spans1 ++ k1)%string = slice_from en kd ->
      (o, (k1, (spans ++ [span_text kd 0 en]) ++ spans1)) = (r, (k, spans')) ->
      exists new, spans' = spans ++ new
                  /\ (concat_spans new ++ k)%string = kd).
    { intros o k1 spans1 Hcat [= <- <- <-].
      exists ([span_text kd 0 en] ++ spans1). split; [now rewrite app_assoc|].
      rewrite concat_spans_app, append_assoc, Hcat. simpl.
      rewrite append_nil_r. apply slice_to_from. }
    assert (Hnext : forall l,
      nestLevel_spans fuel l (slice_from en kd)
        (spans ++ [span_text kd 0 en]) = (r, (k, spans')) ->
      exists new, spans' = spans ++ new
                  /\ (concat_spans new ++ k)%string = kd).
    { intros l Hl. destruct (IH _ _ _ _ _ _ Hl) as (new & -> & Hcat).
      now apply (Hhere r k new). }
    assert (Hstop : forall o,
      (o, (slice_from en kd, spans ++ [span_text kd 0 en]))
      = (r, (k, spans')) ->
      exists new, spans' = spans ++ new
                  /\ (concat_spans new ++ k)%string = kd).
    { intros o Ho. apply (Hhere o (slice_from en kd) []); [reflexivity|].
      now rewrite app_nil_r. }
    cbv zeta in H.
    assert (Hpure : forall o : outcome Node,
      match o with
      | Ok value => nestLevel_spans fuel (cur ++ [value]) (slice_from en kd)
                      (spans ++ [span_text kd 0 en])
      | Raise e => (Raise e, (slice_from en kd, spans ++ [span_text kd 0 en]))
      | OutOfFuel => (OutOfFuel,
                      (slice_from en kd, spans ++ [span_text kd 0 en]))
      end = (r, (k, spans')) ->
      exists new, spans' = spans ++ new
                  /\ (concat_spans new ++ k)%string = kd).
    { intros [v|e|] Ho; [now apply (Hnext _ Ho) | now apply (Hstop _ Ho)..]. }
    revert H. token_cases; intros H; eauto.
    destruct (nestLevel_spans fuel [] (slice_from en kd)
                (spans ++ [span_text kd 0 en]))
      as [r1 [k1 spans1]] eqn:E1.
    destruct (IH _ _ _ _ _ _ E1) as (new1 & -> & Hcat1).
    assert (Hinner : forall o k2 spans2,
      (concat_spans spans2 ++ k2)%string = k1 ->
      (o, (k2, ((spans ++ [span_text kd 0 en]) ++ new1) ++ spans2))
      = (r, (k, spans')) ->
      exists new, spans' = spans ++ new
                  /\ (concat_spans new ++ k)%string = kd).
    { intros o k2 spans2 Hcat2 Ho. rewrite <- app_assoc in Ho.
      apply (Hhere o k2 (new1 ++ spans2)); [|assumption].
      now rewrite concat_spans_app, append_assoc, Hcat2. }
    destruct r1 as [sub|e|].
    + destruct (IH _ _ _ _ _ _ H) as (new2 & -> & Hcat2).
      now apply (Hinner r k new2).
    + apply (Hinner (Raise e) k1 []); [reflexivity | now rewrite app_nil_r].
    + apply (Hinner OutOfFuel k1 []); [reflexivity | now rewrite app_nil_r].
Qed.

(** C9: a match of the lexer always starts at offset 0 of the text that is
    left and takes at least one character, so that the matched span and
    the text kept for the next round make up the text again; over a whole
    call of [nestLevel], the spans matched so far, in order, followed by the
    text that is left, are the text the call started with. *)
Theorem C9_matches_cover_the_consumed_prefix :
  (forall keyData start end_,
     search lexer keyData = Some (start, end_) ->
     start = 0
     /\ 0 < end_ <= String.length keyData
     /\ (span_text keyData start end_ ++ slice_from end_ keyData)%string
        = keyData)
  /\ (forall fuel currentList keyData r k spans,
        nestLevel_spans fuel currentList keyData [] = (r, (k, spans)) ->
        nestLevel fuel currentList keyData = (r, k)
        /\ (concat_spans spans ++ k)%string = keyData).
Proof.
  split.
  - intros kd st en Hs. apply search_lexer_span in Hs as [-> Hen].
    repeat split; try lia. apply slice_to_from.
  - intros fuel cur kd r k spans H. split.
    + rewrite (nestLevel_spans_erase fuel cur kd []). now rewrite H.
    + destruct (nestLevel_spans_cover _ _ _ _ _ _ _ H) as (new & -> & Hcat).
      exact Hcat.
Qed.

Lemma C9_matches_cover_witness :
  (0 = 0 /\ 0 < 4 <= 8
   /\ (span_text "i:1;i:2;" 0 4 ++ slice_from 4 "i:1;i:2;")%string = "i:1;i:2;")
  /\ (nestLevel 9 [] "a:1:{i:1;}}z" = (Ok [List [Scalar (SInt 1)]], "z")
      /\ (concat_spans ["a:1:{"; "i:1;"; "}"; "}"] ++ "z")%string
         = "a:1:{i:1;}}z").
Proof.
  split.
  - apply (proj1 C9_matches_cover_the_consumed_prefix "i:1;i:2;" 0 4).
    reflexivity.
  - apply (proj2 C9_matches_cover_the_consumed_prefix 9 [] "a:1:{i:1;}}z").
    reflexivity.
Defined.

(** ** Inputs that end inside open arrays *)

Lemma closers_snoc n : closers (S n) = (closers n ++ "}")%string.
Proof. induction n as [|n IH]; [reflexivity|]. simpl in *. now rewrite IH. Qed.

Lemma safe_follow_levels levels rest :
  safe_follow rest = true -> safe_follow (render_levels levels ++ rest) = true.
Proof. intros H. destruct levels as [|[c items] levels]; [assumption | reflexivity]. Qed.

Lemma safe_follow_open_levels levels :
  safe_follow (render_levels levels) = true.
Proof. now destruct levels as [|[c items] levels]. Qed.

Lemma render_levels_cons count items deeper :
  render_levels ((count, items) :: deeper)
  = (open_tag count ++ render_list items ++ render_levels deeper)%string.
Proof. reflexivity. Qed.

Lemma level_nodes_cons count items deeper :
  level_nodes ((count, items) :: deeper)
  = match nodes_of items with
    | Ok ns =>
        match level_nodes deeper with
        | Ok ds => Ok [List (ns ++ ds)]
        | Raise err => Raise err
        | OutOfFuel => OutOfFuel
        end
    | Raise err => Raise err
    | OutOfFuel => OutOfFuel
    end.
Proof. reflexivity. Qed.

(** At the end of the text every open level returns its list. *)
Lemma levels_exhausted levels :
  wf_levels levels = true ->
  forall cur,
    match level_nodes levels with
    | Ok ds => runs cur (render_levels levels) (Ok (cur ++ ds)) EmptyString
    | Raise err => exists k, runs cur (render_levels levels) (Raise err) k
    | OutOfFuel => False
    end.
Proof.
  induction levels as [|[c items] deeper IH]; intros Hwf cur.
  - simpl. rewrite app_nil_r. apply runs_empty.
  - simpl in Hwf. apply andb_true_iff in Hwf as [Hl Hwd].
    apply andb_true_iff in Hl as [Hnum Hwi]. simpl in Hnum, Hwi.
    specialize (IH Hwd).
    pose proof (continues_list items Hwi (render_levels deeper) []
                  (safe_follow_open_levels deeper)) as Hin.
    rewrite render_levels_cons, level_nodes_cons. unfold continues in Hin.
    destruct (nodes_of items) as [ns|err|]; [| |exact Hin].
    + specialize (IH ns).
      destruct (level_nodes deeper) as [ds|err|]; [| |exact IH].
      * apply (runs_open cur c _ (ns ++ ds) EmptyString); [assumption | |].
        -- now apply Hin.
        -- apply runs_empty.
      * destruct IH as [k Hk]. exists k.
        apply runs_open_raise; [assumption | now apply Hin].
    + destruct Hin as [k Hk]. exists k. now apply runs_open_raise.
Qed.

(** With the closing braces supplied the run goes on after them with the
    same node. *)
Lemma levels_closed levels :
  wf_levels levels = true ->
  forall tail cur, safe_follow tail = true ->
    continues cur (render_levels levels ++ closers (List.length levels)) tail
      (level_nodes levels).
Proof.
  induction levels as [|[c items] deeper IH]; intros Hwf tail cur Hsafe.
  - simpl. intros r k Hr. now rewrite app_nil_r in Hr.
  - simpl in Hwf. apply andb_true_iff in Hwf as [Hl Hwd].
    apply andb_true_iff in Hl as [Hnum Hwi]. simpl in Hnum, Hwi.
    specialize (IH Hwd (String "}" tail)).
    assert (Hsafe' : safe_follow
              ((render_levels deeper ++ closers (List.length deeper))
                 ++ String "}" tail) = true).
    { rewrite append_assoc. apply safe_follow_levels.
      now destruct (List.length deeper). }
    pose proof (continues_list items Hwi _ [] Hsafe') as Hin.
    rewrite render_levels_cons, level_nodes_cons.
    simpl List.length. rewrite closers_snoc.
    unfold continues in *.
    destruct (nodes_of items) as [ns|err|]; [| |exact Hin].
    + specialize (IH ns eq_refl).
      destruct (level_nodes deeper) as [ds|err|]; [| |exact IH].
      * intros r k Hr. rewrite !append_assoc. simpl ("}" ++ tail)%string.
        rewrite !append_assoc in Hin, IH.
        apply (runs_open cur c _ (ns ++ ds) tail); [assumption | |assumption].
        apply Hin, IH, runs_close.
      * destruct IH as [k Hk]. exists k.
        rewrite !append_assoc. simpl ("}" ++ tail)%string.
        rewrite !append_assoc in Hin, Hk.
        apply runs_open_raise; [assumption | now apply Hin].
    + destruct Hin as [k Hk]. exists k.
      rewrite !append_assoc. simpl ("}" ++ tail)%string.
      rewrite !append_assoc in Hk.
      now apply runs_open_raise.
Qed.

Lemma decode_unclosed first levels :
  forallb wf first = true -> wf_levels levels = true ->
  decode_text (render_list first ++ render_levels levels)
  = finish (seq_outcome (nodes_of first) (level_nodes levels)).
Proof.
  intros Hwf Hwl.
  pose proof (continues_list first Hwf (render_levels levels) []
                (safe_follow_open_levels levels)) as Hf.
  unfold continues in Hf.
  destruct (nodes_of first) as [ns|err|]; [| |contradiction].
  - pose proof (levels_exhausted levels Hwl ns) as Hl. simpl seq_outcome.
    destruct (level_nodes levels) as [ds|err|]; [| |contradiction].
    + apply (decode_text_runs _ _ EmptyString), Hf, Hl.
    + destruct Hl as [k Hk]. apply (decode_text_runs _ _ k), Hf, Hk.
  - destruct Hf as [k Hk]. apply (decode_text_runs _ _ _ Hk).
Qed.

Lemma decode_closed first levels :
  forallb wf first = true -> wf_levels levels = true ->
  decode_text (render_list first ++ render_levels levels
               ++ closers (List.length levels))
  = finish (seq_outcome (nodes_of first) (level_nodes levels)).
Proof.
  intros Hwf Hwl.
  set (text := (render_levels levels ++ closers (List.length levels))%string).
  assert (Hsafe : safe_follow text = true).
  { unfold text. destruct levels as [|[c items] levels]; reflexivity. }
  pose proof (continues_list first Hwf text [] Hsafe) as Hf.
  unfold continues in Hf.
  destruct (nodes_of first) as [ns|err|]; [| |contradiction].
  - pose proof (levels_closed levels Hwl EmptyString ns eq_refl) as Hl.
    fold text in Hl. unfold continues in Hl. simpl seq_outcome.
    destruct (level_nodes levels) as [ds|err|]; [| |contradiction];
      rewrite append_nil_r in Hl.
    + apply (decode_text_runs _ _ EmptyString), Hf, Hl, runs_empty.
    + destruct Hl as [k Hk]. apply (decode_text_runs _ _ k), Hf, Hk.
  - destruct Hf as [k Hk]. apply (decode_text_runs _ _ _ Hk).
Qed.

(** C2, against the claim: the input [a:1:{i:1] ends inside its array and
    decoding returns a record, the empty one; nothing is raised. *)
Lemma C2_unclosed_array_counterexample :
  decode_text "a:1:{i:1" = Ok []
  /\ forall e, decode_text "a:1:{i:1" <> Raise e.
Proof. split; [reflexivity | intros e; discriminate]. Qed.

(** C2, amended: the end of the text is not an error.  [nestLevel] on the
    empty text returns the list it holds, at every nesting level, so that an
    input that ends inside any number of open arrays decodes to what the
    same input decodes to with the missing closing braces supplied; the
    input [a:1:{i:1] decodes to the empty record. *)
Theorem C2_end_of_input_closes_open_arrays :
  (forall fuel currentList,
     nestLevel (S fuel) currentList EmptyString
     = (Ok currentList, EmptyString))
  /\ (forall first levels,
        forallb wf first = true -> wf_levels levels = true ->
        decode_text (render_list first ++ render_levels levels)
        = decode_text (render_list first ++ render_levels levels
                       ++ closers (List.length levels)))
  /\ decode_text "a:1:{i:1" = Ok [].
Proof.
  split; [reflexivity|]. split; [|reflexivity].
  intros first levels Hwf Hwl.
  now rewrite decode_unclosed, decode_closed.
Qed.

Lemma C2_end_of_input_witness :
  decode_text "a:1:{i:1" = decode_text "a:1:{i:1}".
Proof.
  apply (proj1 (proj2 C2_end_of_input_closes_open_arrays)
           [] [("1", [EInt "1" false])]); reflexivity.
Defined.

(** ** The element that decode converts *)

Lemma convert_with_raises l :
  Forall (fun n => forall e, stored n = Raise e -> e = TypeError) l ->
  forall d e, convert_with stored l d = Raise e -> e = TypeError.
Proof.
  induction l as [| x | key val rest IH] using pairs_ind; intros Hall d e;
    try discriminate.
  apply Forall_pairs in Hall as (_ & Hv & Hrest). simpl.
  destruct (stored val) as [v|e'|]; [| |discriminate].
  - destruct key as [k|l]; simpl; [now apply IH | congruence].
  - intros [= <-]. now apply Hv.
Qed.

Lemma stored_raises n : forall e, stored n = Raise e -> e = TypeError.
Proof.
  induction n as [s|l IH] using Node_ind; [discriminate|].
  intros e. simpl. pose proof (convert_with_raises l IH []) as H.
  destruct (convert_with stored l []) as [d|e'|]; try discriminate.
  intros [= <-]. now apply H.
Qed.

Lemma convert_raises l e : convert l = Raise e -> e = TypeError.
Proof.
  apply convert_with_raises, Forall_forall. intros n _. apply stored_raises.
Qed.

Lemma convert_arg_raises x e : convert_arg x = Raise e -> e = TypeError.
Proof.
  destruct x as [[z|s|b]|l]; simpl; try congruence; apply convert_raises.
Qed.

(** C4, against the claim: the text [a:0:{}a:2:{i:1;i:2;}] makes [nestLevel]
    return two top-level elements, and decoding succeeds with the record of
    the first. *)
Lemma C4_two_top_level_elements_counterexample :
  fst (nestLevel 22 [] "a:0:{}a:2:{i:1;i:2;}")
  = Ok [List []; List [Scalar (SInt 1); Scalar (SInt 2)]]
  /\ decode_text "a:0:{}a:2:{i:1;i:2;}" = Ok [].
Proof. split; reflexivity. Qed.

(** C4, amended: [decode] does not look at the number of top-level
    elements.  When [nestLevel] returns at least one element, the first is
    what [convert] gets and the others are ignored; when it returns none,
    the indexing raises [IndexError]; in no case does this step raise
    [InvalidArrayFormat]. *)
Theorem C4_decode_converts_first_element :
  forall keyData top k,
    runs [] keyData (Ok top) k ->
    match top with
    | x :: others => decode_text keyData = convert_arg x
    | [] => decode_text keyData = Raise IndexError
    end
    /\ forall text, decode_text keyData <> Raise (InvalidArrayFormat text).
Proof.
  intros kd top k Hr. rewrite (decode_text_runs _ _ _ Hr). simpl.
  destruct top as [|x others]; simpl; split;
    try reflexivity; try discriminate.
  intros text H. now apply convert_arg_raises in H.
Qed.

Lemma C4_decode_converts_first_witness :
  (decode_text "a:0:{}a:2:{i:1;i:2;}" = convert_arg (List [])
   /\ forall text,
        decode_text "a:0:{}a:2:{i:1;i:2;}" <> Raise (InvalidArrayFormat text))
  /\ (decode_text EmptyString = Raise IndexError
      /\ forall text,
           decode_text EmptyString <> Raise (InvalidArrayFormat text)).
Proof.
  split.
  - apply (C4_decode_converts_first_element "a:0:{}a:2:{i:1;i:2;}"
             [List []; List [Scalar (SInt 1); Scalar (SInt 2)]] EmptyString).
    exists 22. split; [reflexivity | discriminate].
  - apply (C4_decode_converts_first_element EmptyString [] EmptyString).
    exists 1. split; [reflexivity | discriminate].
Defined.

(** ** Declared counts *)

Lemma erase_counts_wf e : wf e = true -> wf (erase_counts e) = true.
Proof.
  induction e as [d s|l p s|b s|c items IH] using elem_ind; try easy.
  simpl. intros H. apply andb_true_iff in H as [_ H].
  induction items as [|e items IHitems]; [reflexivity|].
  simpl in H |- *. apply andb_true_iff in H as [He Hi].
  inversion IH as [|? ? IHe IHi]; subst.
  apply andb_true_iff. split; [now apply IHe | now apply IHitems].
Qed.

Lemma node_of_erase_counts e : node_of (erase_counts e) = node_of e.
Proof.
  induction e as [d s|l p s|b s|c items IH] using elem_ind; try reflexivity.
  simpl.
  assert (H : nodes_with node_of (map erase_counts items)
              = nodes_with node_of items).
  { induction IH as [|e items He _ IHitems]; [reflexivity|].
    simpl. now rewrite He, IHitems. }
  now rewrite H.
Qed.

Lemma nodes_of_erase_counts items :
  nodes_of (map erase_counts items) = nodes_of items.
Proof.
  unfold nodes_of. induction items as [|e items IH]; [reflexivity|].
  simpl. now rewrite node_of_erase_counts, IH.
Qed.

(** C7: two well-formed inputs that are the same once every declared count
    is erased decode to the same result, and an array of any declared count
    contributes the list of all the items found before its closing brace. *)
Theorem C7_declared_count_is_ignored :
  (forall items1 items2,
     forallb wf items1 = true -> forallb wf items2 = true ->
     map erase_counts items1 = map erase_counts items2 ->
     decode_text (render_list items1) = decode_text (render_list items2))
  /\ (forall count items ns rest currentList r k,
        wf (EArr count items) = true -> safe_follow rest = true ->
        nodes_of items = Ok ns ->
        runs (currentList ++ [List ns]) rest r k ->
        runs currentList (render (EArr count items) ++ rest) r k).
Proof.
  split.
  - intros items1 items2 H1 H2 Heq.
    rewrite !decode_render_list by assumption.
    now rewrite <- (nodes_of_erase_counts items1), Heq, nodes_of_erase_counts.
  - intros c items ns rest cur r k Hwf Hsafe Hns Hr.
    pose proof (continues_elem (EArr c items) Hwf rest cur Hsafe) as H.
    change (node_of (EArr c items))
      with (match nodes_of items with
            | Ok ns => Ok (List ns)
            | Raise err => Raise err
            | OutOfFuel => OutOfFuel
            end) in H.
    rewrite Hns in H. now apply H.
Qed.

Lemma C7_declared_count_witness :
  decode_text (dq "a:2:{s:1:'k';a:7:{i:1;i:2;}}")
  = decode_text (dq "a:900:{s:1:'k';a:0:{i:1;i:2;}}")
  /\ runs [] (render (EArr "5" [EInt "1" true]) ++ "}z")
       (Ok [List [Scalar (SInt 1)]]) "z".
Proof.
  split.
  - apply (proj1 C7_declared_count_is_ignored
             [EArr "2" [EStr "1" "k" true;
                        EArr "7" [EInt "1" true; EInt "2" true]]]
             [EArr "900" [EStr "1" "k" true;
                          EArr "0" [EInt "1" true; EInt "2" true]]]);
      reflexivity.
  - apply (proj2 C7_declared_count_is_ignored "5" [EInt "1" true]
             [Scalar (SInt 1)] "}z" []); try reflexivity.
    exists 1. split; [reflexivity | discriminate].
Defined.

(** ** Text after an unmatched closing brace *)

Lemma decode_array_then_close count items garbage :
  wf (EArr count items) = true ->
  decode_text (render (EArr count items) ++ String "}" garbage)
  = decode_text (render (EArr count items)).
Proof.
  intros Hwf.
  pose proof (decode_render_list [EArr count items]) as Hd.
  simpl forallb in Hd. rewrite andb_true_r in Hd. specialize (Hd Hwf).
  change (render_list [EArr count items])
    with (render (EArr count items) ++ EmptyString)%string in Hd.
  rewrite append_nil_r in Hd. rewrite Hd.
  pose proof (continues_elem (EArr count items) Hwf (String "}" garbage) []
                eq_refl) as H.
  change (nodes_of [EArr count items])
    with (match node_of (EArr count items) with
          | Ok n => Ok [n]
          | Raise err => Raise err
          | OutOfFuel => OutOfFuel
          end).
  unfold continues, single in H.
  destruct (node_of (EArr count items)) as [n|err|]; [| |contradiction].
  - apply (decode_text_runs _ _ garbage), H, runs_close.
  - destruct H as [k Hk]. apply (decode_text_runs _ _ _ Hk).
Qed.

(** ** convert: the loop header and the items taken two by two *)

Lemma range2_aux_fuel : forall n m start stop,
  (stop - start <= Z.of_nat n)%Z -> (stop - start <= Z.of_nat m)%Z ->
  range2_aux n start stop = range2_aux m start stop.
Proof.
  induction n as [|n IH]; intros m start stop Hn Hm.
  - destruct m as [|m]; [reflexivity|]. simpl.
    destruct (Z.ltb_spec start stop); [lia | reflexivity].
  - simpl. destruct (Z.ltb_spec start stop) as [Hlt|Hge].
    + destruct m as [|m]; [simpl in Hm; lia|]. simpl.
      destruct (Z.ltb_spec start stop); [|lia].
      f_equal. apply IH; lia.
    + destruct m as [|m]; [reflexivity|]. simpl.
      destruct (Z.ltb_spec start stop); [lia | reflexivity].
Qed.

Lemma range2_cons start stop :
  (start < stop)%Z -> range2 start stop = start :: range2 (start + 2) stop.
Proof.
  intros Hlt. unfold range2.
  destruct (Z.to_nat (stop - start)) as [|n] eqn:En; [lia|].
  simpl. destruct (Z.ltb_spec start stop); [|lia].
  f_equal. apply range2_aux_fuel; lia.
Qed.

Lemma range2_nil start stop : (stop <= start)%Z -> range2 start stop = [].
Proof.
  intros Hle. unfold range2.
  replace (Z.to_nat (stop - start)) with 0 by lia. reflexivity.
Qed.

Lemma getitem_app {A} (pre : list A) x tl :
  getitem (pre ++ x :: tl) (Z.of_nat (List.length pre)) = Ok x.
Proof.
  unfold getitem. destruct (Z.ltb_spec (Z.of_nat (List.length pre)) 0); [lia|].
  rewrite Nat2Z.id, nth_error_app2 by lia.
  now rewrite Nat.sub_diag.
Qed.

Lemma getitem_app_next {A} (pre : list A) x y tl :
  getitem (pre ++ x :: y :: tl) (Z.of_nat (List.length pre) + 1) = Ok y.
Proof.
  replace (Z.of_nat (List.length pre) + 1)%Z
    with (Z.of_nat (List.length (pre ++ [x])))
    by (rewrite length_app; simpl; lia).
  replace (pre ++ x :: y :: tl) with ((pre ++ [x]) ++ y :: tl)
    by now rewrite <- app_assoc.
  apply getitem_app.
Qed.

(** The structural loop visits the items at the indices of the loop
    header of the source. *)
Lemma convert_indexed_from value_of : forall rest pre d,
  convert_indexed value_of (pre ++ rest)
    (zip (range2 (Z.of_nat (List.length pre))
            (Z.of_nat (List.length (pre ++ rest)) - 1))
         (range2 (Z.of_nat (List.length pre) + 1)
            (Z.of_nat (List.length (pre ++ rest))))) d
  = convert_with value_of rest d.
Proof.
  induction rest as [| x | key val rest IH] using pairs_ind; intros pre d.
  - rewrite app_nil_r, range2_nil by lia. reflexivity.
  - rewrite range2_nil; [reflexivity|]. rewrite length_app. simpl. lia.
  - assert (Hlen : List.length (pre ++ key :: val :: rest)
                   = List.length pre + 2 + List.length rest)
      by (rewrite length_app; simpl; lia).
    rewrite range2_cons by lia.
    rewrite (range2_cons (Z.of_nat (List.length pre) + 1)) by lia.
    simpl zip. simpl convert_indexed.
    rewrite getitem_app, getitem_app_next. simpl convert_with.
    destruct (value_of val) as [v|e|]; [|reflexivity..].
    destruct (setitem d key v) as [d'|e|]; [|reflexivity..].
    specialize (IH (pre ++ [key; val]) d').
    replace ((pre ++ [key; val]) ++ rest) with (pre ++ key :: val :: rest)
      in IH by now rewrite <- app_assoc.
    replace (Z.of_nat (List.length (pre ++ [key; val])))
      with (Z.of_nat (List.length pre) + 2)%Z in IH
      by (rewrite length_app; simpl; lia).
    rewrite <- IH. f_equal. f_equal. f_equal. lia.
Qed.

Lemma convert_indexed_eq multiLevelArray :
  convert multiLevelArray
  = convert_indexed stored multiLevelArray
      (loop_indices (Z.of_nat (List.length multiLevelArray))) [].
Proof.
  unfold convert, loop_indices.
  now rewrite <- (convert_indexed_from stored multiLevelArray [] []).
Qed.

Lemma convert_with_drop_last value_of : forall l x d,
  Nat.even (List.length l) = true ->
  convert_with value_of (l ++ [x]) d = convert_with value_of l d.
Proof.
  induction l as [| y | key val rest IH] using pairs_ind; intros x d Hev;
    try easy.
  simpl in Hev |- *.
  destruct (value_of val) as [v|e|]; [|reflexivity..].
  destruct (setitem d key v) as [d'|e|]; [|reflexivity..].
  now apply IH.
Qed.

Lemma odd_length_split {A} (l : list A) :
  Nat.odd (List.length l) = true ->
  exists x, l = removelast l ++ [x]
            /\ Nat.even (List.length (removelast l)) = true.
Proof.
  intros Hodd. destruct l as [|y l] using rev_ind; [discriminate|].
  exists y. rewrite removelast_last. split; [reflexivity|].
  rewrite length_app in Hodd. simpl in Hodd.
  rewrite Nat.add_1_r, Nat.odd_succ in Hodd. exact Hodd.
Qed.

Lemma convert_with_hashable l :
  Forall (fun n => hashable_node n = true <-> exists v, stored n = Ok v) l ->
  forall d,
    hashable_with hashable_node l = true
    <-> exists d', convert_with stored l d = Ok d'.
Proof.
  induction l as [| x | key val rest IH] using pairs_ind; intros Hall d;
    [simpl; split; eauto.. |].
  apply Forall_pairs in Hall as (_ & Hv & Hrest). simpl.
  rewrite !andb_true_iff, Hv. split.
  - intros [[Hk [v Hs]] Hr]. rewrite Hs.
    destruct key as [k|l]; [|discriminate]. simpl.
    now apply IH.
  - destruct (stored val) as [v|e|]; [|intros [? [=]]..].
    destruct key as [k|l]; simpl; [|intros [? [=]]].
    intros H. apply IH in H; eauto.
Qed.

Lemma stored_hashable n :
  hashable_node n = true <-> exists v, stored n = Ok v.
Proof.
  induction n as [s|l IH] using Node_ind; [simpl; split; eauto|].
  simpl. rewrite (convert_with_hashable l IH []).
  destruct (convert_with stored l []) as [d|e|]; split;
    try (intros [? [=]]); eauto.
Qed.

Lemma convert_hashable l :
  hashable l = true <-> exists d, convert l = Ok d.
Proof.
  apply convert_with_hashable, Forall_forall. intros n _.
  apply stored_hashable.
Qed.

(** C5, against the claim: a list of odd length whose first item, a key,
    is a list cannot be converted: the key is unhashable. *)
Lemma C5_unhashable_key_counterexample :
  Nat.odd (List.length [List []; Scalar (SInt 1); Scalar (SInt 2)]) = true
  /\ convert [List []; Scalar (SInt 1); Scalar (SInt 2)] = Raise TypeError
  /\ decode_text "a:3:{a:0:{}i:1;i:2;}" = Raise TypeError.
Proof. repeat split. Qed.

(** C5, amended: for a list of odd length [L] the last element is never
    looked at: converting the list is converting its first [L - 1]
    elements, taken at the index pairs (0,1), (2,3), ... of the loop
    header; this succeeds exactly when no key position among them holds a
    list, and otherwise raises [TypeError]; a root array that holds only
    [i:42;] decodes to the empty record. *)
Theorem C5_odd_length_drops_last_element :
  forall multiLevelArray,
    Nat.odd (List.length multiLevelArray) = true ->
    convert multiLevelArray = convert (removelast multiLevelArray)
    /\ convert multiLevelArray
       = convert_indexed stored multiLevelArray
           (zip (range2 0 (Z.of_nat (List.length multiLevelArray) - 1))
                (range2 1 (Z.of_nat (List.length multiLevelArray)))) []
    /\ (hashable (removelast multiLevelArray) = true
        <-> exists d, convert multiLevelArray = Ok d)
    /\ (forall e, convert multiLevelArray = Raise e -> e = TypeError)
    /\ decode_text "a:1:{i:42;}" = Ok [].
Proof.
  intros l Hodd.
  assert (Hdrop : convert l = convert (removelast l)).
  { destruct (odd_length_split l Hodd) as (x & Hl & Hev).
    rewrite Hl at 1. now apply convert_with_drop_last. }
  repeat split.
  - exact Hdrop.
  - apply convert_indexed_eq.
  - rewrite Hdrop. apply convert_hashable.
  - rewrite Hdrop. apply convert_hashable.
  - apply convert_raises.
Qed.

Lemma C5_odd_length_witness :
  convert [Scalar (SStr "a"); Scalar (SInt 1); Scalar (SStr "b")]
  = convert [Scalar (SStr "a"); Scalar (SInt 1)]
  /\ convert [Scalar (SInt 42)] = Ok [].
Proof.
  split.
  - apply (C5_odd_length_drops_last_element
             [Scalar (SStr "a"); Scalar (SInt 1); Scalar (SStr "b")]).
    reflexivity.
  - rewrite (proj1 (C5_odd_length_drops_last_element [Scalar (SInt 42)]
                      eq_refl)).
    reflexivity.
Defined.

(** ** find: the first occurrence *)

Lemma Value_ind (P : Value -> Prop) :
  (forall s, P (VScalar s)) ->
  (forall d, Forall (fun kv => P (snd kv)) d -> P (VDict d)) ->
  forall v, P v.
Proof.
  intros Hs Hd. fix IH 1. intros [s|d].
  - apply Hs.
  - apply Hd. induction d as [|[k v] d IHd]; constructor.
    + apply IH.
    + exact IHd.
Qed.

Lemma find_loop_cons rec key ky value rest :
  find_loop rec key ((ky, value) :: rest)
  = if py_eq ky key then Some value
    else match value with
         | VDict _ =>
             match rec value with
             | Some res => if truthy res then Some res
                           else find_loop rec key rest
             | None => find_loop rec key rest
             end
         | VScalar _ => find_loop rec key rest
         end.
Proof. reflexivity. Qed.

Lemma findAll_loop_cons rec key ky value rest occurrences :
  findAll_loop rec key ((ky, value) :: rest) occurrences
  = findAll_loop rec key rest
      (match value with
       | VDict _ =>
           rec value (if py_eq ky key then occurrences ++ [value]
                      else occurrences)
       | VScalar _ =>
           if py_eq ky key then occurrences ++ [value] else occurrences
       end).
Proof. now destruct value. Qed.

Lemma findAll_loop_acc key d :
  Forall (fun kv => forall acc,
            findAll_value key (snd kv) acc
            = acc ++ findAll_value key (snd kv) []) d ->
  forall acc,
    findAll_loop (findAll_value key) key d acc
    = acc ++ findAll_loop (findAll_value key) key d [].
Proof.
  induction 1 as [|[ky value] d Hv _ IH]; intros acc.
  - simpl. now rewrite app_nil_r.
  - cbn [snd] in Hv. rewrite !findAll_loop_cons.
    rewrite IH. symmetry. rewrite IH. symmetry.
    destruct value as [s|sub].
    + destruct (py_eq ky key); cbn [app]; now rewrite <- ?app_assoc.
    + rewrite Hv. symmetry. rewrite Hv. symmetry.
      destruct (py_eq ky key); cbn [app]; now rewrite <- ?app_assoc.
Qed.

Lemma findAll_value_acc key v : forall acc,
  findAll_value key v acc = acc ++ findAll_value key v [].
Proof.
  induction v as [s|d IH] using Value_ind; intros acc.
  - simpl. now rewrite app_nil_r.
  - now apply findAll_loop_acc.
Qed.

(** Where every value is truthy, [find] is the first element of
    [findAll]; the test [if res:] is all that separates the two. *)
Lemma find_loop_first key d :
  Forall (fun kv =>
            all_truthy (snd kv) = true ->
            find_value key (snd kv)
            = hd_error (findAll_value key (snd kv) [])
            /\ forall res, find_value key (snd kv) = Some res ->
                           truthy res = true) d ->
  all_truthy (VDict d) = true ->
  find_loop (find_value key) key d
  = hd_error (findAll_loop (findAll_value key) key d [])
  /\ forall res, find_loop (find_value key) key d = Some res ->
                 truthy res = true.
Proof.
  induction 1 as [|[ky value] d Hv _ IH]; intros Hall.
  - split; [reflexivity | discriminate].
  - simpl in Hall. apply andb_true_iff in Hall as [Hval Hrest].
    apply andb_true_iff in Hval as [Htr Hdeep].
    specialize (IH Hrest). destruct IH as [IHeq IHtr].
    specialize (Hv Hdeep). cbn [snd] in Hv. destruct Hv as [Hveq Hvtr].
    rewrite find_loop_cons, findAll_loop_cons.
    rewrite (findAll_loop_acc key d)
      by (apply Forall_forall; intros; apply findAll_value_acc).
    destruct (py_eq ky key).
    + split; [|now intros res [= <-]].
      destruct value as [s|sub]; [reflexivity|].
      now rewrite findAll_value_acc.
    + destruct value as [s|sub]; [split; assumption|].
      rewrite Hveq in Hvtr |- *.
      destruct (findAll_value key (VDict sub) []) as [|res others];
        cbn [hd_error app] in *; [split; assumption|].
      rewrite (Hvtr res eq_refl). split; [reflexivity|].
      intros res' [= <-]. now apply Hvtr.
Qed.

Lemma find_value_first key v :
  all_truthy v = true ->
  find_value key v = hd_error (findAll_value key v [])
  /\ forall res, find_value key v = Some res -> truthy res = true.
Proof.
  induction v as [s|d IH] using Value_ind; intros Hall.
  - split; [reflexivity | discriminate].
  - apply find_loop_first; assumption.
Qed.

Lemma find_first_when_truthy key nestedDicts :
  all_truthy (VDict nestedDicts) = true ->
  find key nestedDicts = hd_error (findAll key nestedDicts).
Proof. intros Hall. now apply (find_value_first key (VDict nestedDicts)). Qed.


(** C3, as the code has it: [find] tests the result of the recursive call
    with [if res:], so that a match found in a nested dict is passed over
    when its value is 0, empty or false.  On the record decoded from
    [a:2:{s:1:'x';a:2:{s:1:'k';i:0;}}] (' for the double quote), [find]
    returns nothing for the key
    k although [findAll] returns one value; with a second nested dict that
    maps k to 5, [find] returns 5, which is not the first element of what
    [findAll] returns. *)
Theorem C3_find_passes_over_falsy_nested_match :
  decode_text (dq "a:2:{s:1:'x';a:2:{s:1:'k';i:0;}}")
  = Ok [(SStr "x", VDict [(SStr "k", VScalar (SInt 0))])]
  /\ find (SStr "k") [(SStr "x", VDict [(SStr "k", VScalar (SInt 0))])]
     = None
  /\ findAll (SStr "k") [(SStr "x", VDict [(SStr "k", VScalar (SInt 0))])]
     = [VScalar (SInt 0)]
  /\ find (SStr "k")
       [(SStr "x", VDict [(SStr "k", VScalar (SInt 0))]);
        (SStr "y", VDict [(SStr "k", VScalar (SInt 5))])]
     = Some (VScalar (SInt 5))
  /\ findAll (SStr "k")
       [(SStr "x", VDict [(SStr "k", VScalar (SInt 0))]);
        (SStr "y", VDict [(SStr "k", VScalar (SInt 5))])]
     = [VScalar (SInt 0); VScalar (SInt 5)].
Proof. repeat split. Qed.

(** ** The look-ups and the store *)

Module StoreFacts.
Import Store.

Lemma frames_ret {A} (a : A) : frames (hret a).
Proof. intros h. reflexivity. Qed.

Lemma frames_bind {A B} (m : HM A) (f : A -> HM B) :
  frames m -> (forall a, frames (f a)) -> frames (hbind m f).
Proof.
  intros Hm Hf h. unfold hbind. specialize (Hm h).
  destruct (m h) as [[a|e|] h']; simpl in *; subst; [apply Hf | reflexivity..].
Qed.

Lemma frames_dict_items nested : frames (dict_items nested).
Proof. intros h. unfold dict_items. now destruct (h !! nested) as [[]|]. Qed.

Lemma frames_as_dict value : frames (as_dict value).
Proof.
  intros h. unfold as_dict. destruct value as [s|l]; [reflexivity|].
  now destruct (h !! l) as [[]|].
Qed.

Lemma frames_truthy_ref res : frames (truthy_ref res).
Proof.
  intros h. unfold truthy_ref. destruct res as [[s|l]|]; try reflexivity.
  now destruct (h !! l) as [[]|].
Qed.

Lemma frames_find_loop rec key items :
  (forall l, frames (rec l)) -> frames (find_loop rec key items).
Proof.
  intros Hrec. induction items as [|[ky value] rest IH]; simpl.
  - apply frames_ret.
  - destruct (py_eq ky key); [apply frames_ret|].
    apply frames_bind; [apply frames_as_dict|]. intros [nested|]; [|exact IH].
    apply frames_bind; [apply Hrec|]. intros res.
    apply frames_bind; [apply frames_truthy_ref|]. intros [|];
      [apply frames_ret | exact IH].
Qed.

Lemma frames_find_traverse fuel key : forall nested,
  frames (find_traverse fuel key nested).
Proof.
  induction fuel as [|fuel IH]; intros nested; simpl.
  - intros h. reflexivity.
  - apply frames_bind; [apply frames_dict_items|]. intros items.
    now apply frames_find_loop.
Qed.

Lemma frames_keeps h0 {A} (m : HM A) : frames m -> keeps h0 m.
Proof. intros Hm h Hsub. now rewrite Hm. Qed.

Lemma keeps_bind h0 {A B} (m : HM A) (f : A -> HM B) :
  keeps h0 m -> (forall a, keeps h0 (f a)) -> keeps h0 (hbind m f).
Proof.
  intros Hm Hf h Hsub. unfold hbind. specialize (Hm h Hsub).
  destruct (m h) as [[a|e|] h']; simpl in *; [now apply Hf | assumption..].
Qed.

Lemma keeps_list_append (h0 : heap) occurrences value :
  h0 !! occurrences = None -> keeps h0 (list_append occurrences value).
Proof.
  intros Hnew h Hsub. unfold list_append.
  destruct (h !! occurrences) as [[items|elems]|]; simpl; try assumption.
  now apply insert_subseteq_r.
Qed.

Lemma keeps_findAll_loop (h0 : heap) rec key occurrences items :
  h0 !! occurrences = None ->
  (forall l, keeps h0 (rec l)) ->
  keeps h0 (findAll_loop rec key occurrences items).
Proof.
  intros Hnew Hrec. induction items as [|[ky value] rest IH]; simpl.
  - apply frames_keeps, frames_ret.
  - apply keeps_bind.
    { destruct (py_eq ky key);
        [now apply keeps_list_append | apply frames_keeps, frames_ret]. }
    intros _. apply keeps_bind; [apply frames_keeps, frames_as_dict|].
    intros d. apply keeps_bind; [|intros _; exact IH].
    destruct d as [nested|]; [apply Hrec | apply frames_keeps, frames_ret].
Qed.

Lemma keeps_findAll_traverse (h0 : heap) fuel key occurrences :
  h0 !! occurrences = None ->
  forall nested, keeps h0 (findAll_traverse fuel key occurrences nested).
Proof.
  intros Hnew. induction fuel as [|fuel IH]; intros nested; simpl.
  - intros h Hsub. exact Hsub.
  - apply keeps_bind; [apply frames_keeps, frames_dict_items|].
    intros items. now apply keeps_findAll_loop.
Qed.

Lemma fresh_unused (h : heap) : h !! fresh (dom h) = None.
Proof. apply not_elem_of_dom, is_fresh. Qed.

Lemma findAll_keeps fuel key nestedDicts (h : heap) :
  h ⊆ snd (findAll fuel key nestedDicts h).
Proof.
  unfold findAll, hbind, new_list.
  pose proof (fresh_unused h) as Hnew.
  pose proof (keeps_findAll_traverse h fuel key (fresh (dom h)) Hnew
                nestedDicts (<[fresh (dom h) := OList []]> h)
                (insert_subseteq _ _ _ Hnew)) as Hk.
  destruct (findAll_traverse fuel key (fresh (dom h)) nestedDicts
              (<[fresh (dom h) := OList []]> h)) as [[[]|e|] h'];
    exact Hk.
Qed.

Lemma holds_items_mono (h h' : heap) d :
  Forall (fun kv => forall rv, holds h (snd kv) rv -> holds h' (snd kv) rv) d ->
  forall items, holds_items (holds h) d items -> holds_items (holds h') d items.
Proof.
  induction 1 as [|[k v] d Hv _ IH]; intros [|[k' rv] items] H;
    simpl in *; try easy.
  destruct H as (-> & Hh & Hi). auto.
Qed.

Lemma holds_mono (h h' : heap) v :
  h ⊆ h' -> forall rv, holds h v rv -> holds h' v rv.
Proof.
  intros Hsub. induction v as [s|d IH] using Value_ind; intros rv H.
  - exact H.
  - simpl in *. destruct H as (l & items & -> & Hl & Hi).
    exists l, items. repeat split.
    + now apply (lookup_weaken h h').
    + now apply (holds_items_mono h h').
Qed.

Lemma holds_items_nil (h : heap) d items :
  holds_items (holds h) d items ->
  match items with [] => false | _ => true end
  = match d with [] => false | _ => true end.
Proof. destruct d as [|[k v] d], items as [|[k' rv] items]; simpl; easy. Qed.

Lemma truthy_holds (h : heap) v rv :
  holds h v rv -> truthy_ref (Some rv) h = (Ok (truthy v), h).
Proof.
  destruct v as [s|d]; simpl.
  - now intros ->.
  - intros (l & items & -> & Hl & Hi). simpl. rewrite Hl.
    now rewrite (holds_items_nil h d items Hi).
Qed.

(** [find] in the store returns what [find] on values returns. *)
Lemma find_loop_refines (h : heap) key fuel d :
  Forall (fun kv => forall l,
            holds h (snd kv) (Ref l) -> depth (snd kv) <= fuel ->
            exists res,
              find_traverse fuel key l h = (Ok res, h)
              /\ holds_result h (find_value key (snd kv)) res) d ->
  forall items,
    holds_items (holds h) d items -> depth_items depth d <= fuel ->
    exists res,
      find_loop (find_traverse fuel key) key items h = (Ok res, h)
      /\ holds_result h (ConvertJSON.find_loop (find_value key) key d) res.
Proof.
  induction 1 as [|[ky v] d Hv _ IH]; intros [|[ky' rv] items] Hi Hdepth;
    simpl in Hi; try easy.
  - exists None. now split.
  - destruct Hi as (<- & Hh & Hi). simpl in Hdepth.
    specialize (IH items Hi ltac:(lia)).
    simpl. destruct (py_eq ky key).
    { exists (Some rv). now split. }
    unfold hbind at 1. destruct v as [s|sub].
    + simpl in Hh. subst rv. simpl. exact IH.
    + pose proof Hh as Hh'. simpl in Hh'.
      destruct Hh' as (l & sitems & -> & Hl & Hsi).
      simpl as_dict. rewrite Hl.
      destruct (Hv l Hh ltac:(simpl in *; lia)) as (res & Hres & Hrel).
      unfold hbind at 1. rewrite Hres. unfold hbind at 1.
      simpl snd in Hrel.
      destruct (find_value key (VDict sub)) as [v|] eqn:Hpure;
        destruct res as [rv|]; simpl in Hrel; try contradiction;
        [|exact IH].
      rewrite (truthy_holds h v rv Hrel).
      destruct (truthy v); [|exact IH].
      exists (Some rv). now split.
Qed.

Lemma find_traverse_refines (h : heap) key v :
  forall fuel l,
    holds h v (Ref l) -> depth v <= fuel ->
    exists res,
      find_traverse fuel key l h = (Ok res, h)
      /\ holds_result h (find_value key v) res.
Proof.
  induction v as [s|d IH] using Value_ind; intros fuel l Hh Hdepth.
  - discriminate.
  - simpl in Hh, Hdepth. destruct Hh as (l' & items & [= <-] & Hl & Hi).
    destruct fuel as [|fuel]; [lia|]. simpl find_traverse.
    unfold hbind, dict_items. rewrite Hl.
    apply find_loop_refines; [|assumption|lia].
    apply Forall_forall. intros kv Hin l0 Hh0 Hd0.
    rewrite Forall_forall in IH. now apply IH.
Qed.

(** [findAll] in the store appends to its list what [findAll] on values
    appends. *)
Lemma findAll_loop_refines (h0 : heap) key lo fuel d :
  h0 !! lo = None ->
  Forall (fun kv => forall l accp acc,
            holds h0 (snd kv) (Ref l) -> depth (snd kv) <= fuel ->
            Forall2 (holds h0) accp acc ->
            exists acc',
              findAll_traverse fuel key lo l (<[lo := OList acc]> h0)
              = (Ok tt, <[lo := OList acc']> h0)
              /\ Forall2 (holds h0) (findAll_value key (snd kv) accp) acc') d ->
  forall items accp acc,
    holds_items (holds h0) d items -> depth_items depth d <= fuel ->
    Forall2 (holds h0) accp acc ->
    exists acc',
      findAll_loop (findAll_traverse fuel key lo) key lo items
        (<[lo := OList acc]> h0)
      = (Ok tt, <[lo := OList acc']> h0)
      /\ Forall2 (holds h0)
           (ConvertJSON.findAll_loop (findAll_value key) key d accp) acc'.
Proof.
  intros Hnew.
  induction 1 as [|[ky v] d Hv _ IH]; intros [|[ky' rv] items] accp acc
    Hi Hdepth Hacc; simpl in Hi; try easy.
  - exists acc. now split.
  - destruct Hi as (<- & Hh & Hi). simpl in Hdepth.
    simpl findAll_loop. simpl ConvertJSON.findAll_loop.
    set (accp1 := if py_eq ky key then accp ++ [v] else accp).
    set (acc1 := if py_eq ky key then acc ++ [rv] else acc).
    assert (Hacc1 : Forall2 (holds h0) accp1 acc1).
    { unfold accp1, acc1. destruct (py_eq ky key); [|assumption].
      apply Forall2_app; [assumption | now constructor]. }
    assert (Hfirst :
      (if py_eq ky key then list_append lo rv else hret tt)
        (<[lo := OList acc]> h0)
      = (Ok tt, <[lo := OList acc1]> h0)).
    { unfold acc1. destruct (py_eq ky key); [|reflexivity].
      unfold list_append. rewrite lookup_insert_eq.
      now rewrite insert_insert_eq. }
    unfold hbind at 1. rewrite Hfirst.
    unfold hbind at 1. destruct v as [s|sub].
    + simpl in Hh. subst rv. simpl as_dict. unfold hbind at 1. simpl hret.
      now apply IH; [|lia|].
    + pose proof Hh as Hh'. simpl in Hh'.
      destruct Hh' as (l & sitems & -> & Hl & Hsi).
      assert (Hne : lo <> l) by congruence.
      simpl as_dict. rewrite lookup_insert_ne, Hl by assumption.
      destruct (Hv l accp1 acc1 Hh ltac:(simpl in *; lia) Hacc1)
        as (acc2 & Hrun & Hacc2).
      unfold hbind at 1. rewrite Hrun.
      now apply IH; [|lia|].
Qed.

Lemma findAll_traverse_refines (h0 : heap) key lo v :
  h0 !! lo = None ->
  forall fuel l accp acc,
    holds h0 v (Ref l) -> depth v <= fuel ->
    Forall2 (holds h0) accp acc ->
    exists acc',
      findAll_traverse fuel key lo l (<[lo := OList acc]> h0)
      = (Ok tt, <[lo := OList acc']> h0)
      /\ Forall2 (holds h0) (findAll_value key v accp) acc'.
Proof.
  intros Hnew.
  induction v as [s|d IH] using Value_ind; intros fuel l accp acc Hh Hdepth Hacc.
  - discriminate.
  - simpl in Hh, Hdepth. destruct Hh as (l' & items & [= <-] & Hl & Hi).
    destruct fuel as [|fuel]; [lia|]. simpl findAll_traverse.
    assert (Hne : lo <> l) by congruence.
    unfold hbind at 1, dict_items. rewrite lookup_insert_ne, Hl by assumption.
    apply findAll_loop_refines; [assumption| |assumption|lia|assumption].
    apply Forall_forall. intros kv Hin l0 accp0 acc0 Hh0 Hd0 Hacc0.
    rewrite Forall_forall in IH. now apply IH.
Qed.

End StoreFacts.

(** C8: neither look-up writes to the record.  [find] leaves the whole
    store as it was; [findAll] only adds its new list, so that every
    object that was in the store, the record and all its nested dicts
    among them, is the same object afterwards, whatever the budget and
    whether or not the call returns.  For a store that holds a record, and
    a budget that covers its depth, both calls return, with the values
    that [find] and [findAll] compute on the record itself. *)
Theorem C8_lookups_leave_the_record_unchanged :
  forall fuel key (nestedDicts : Store.loc) (h : Store.heap),
    snd (Store.find fuel key nestedDicts h) = h
    /\ (forall l o,
          h !! l = Some o ->
          snd (Store.findAll fuel key nestedDicts h) !! l = Some o)
    /\ (forall d,
          Store.holds h (VDict d) (Store.Ref nestedDicts) ->
          Store.holds (snd (Store.find fuel key nestedDicts h))
            (VDict d) (Store.Ref nestedDicts)
          /\ Store.holds (snd (Store.findAll fuel key nestedDicts h))
               (VDict d) (Store.Ref nestedDicts))
    /\ (forall d,
          Store.holds h (VDict d) (Store.Ref nestedDicts) ->
          Store.depth (VDict d) <= fuel ->
          (exists res,
             Store.find fuel key nestedDicts h = (Ok res, h)
             /\ Store.holds_result h (find key d) res)
          /\ (exists elems,
                Store.findAll fuel key nestedDicts h
                = (Ok (fresh (dom h)),
                   <[fresh (dom h) := Store.OList elems]> h)
                /\ Forall2 (Store.holds h) (findAll key d) elems)).
Proof.
  intros fuel key r h.
  pose proof (StoreFacts.frames_find_traverse fuel key r h) as Hfind.
  pose proof (StoreFacts.findAll_keeps fuel key r h) as Hall.
  split; [exact Hfind|]. split; [|split].
  - intros l o Hl. now apply (lookup_weaken h).
  - intros d Hd. split.
    + unfold Store.find. now rewrite Hfind.
    + now apply (StoreFacts.holds_mono h).
  - intros d Hd Hdepth. split.
    + apply (StoreFacts.find_traverse_refines h key (VDict d)); assumption.
    + pose proof (StoreFacts.fresh_unused h) as Hnew.
      destruct (StoreFacts.findAll_traverse_refines h key (fresh (dom h))
                  (VDict d) Hnew fuel r [] [] Hd Hdepth (Forall2_nil _))
        as (elems & Hrun & Helems).
      exists elems. split; [|exact Helems].
      unfold Store.findAll, Store.hbind, Store.new_list. now rewrite Hrun.
Qed.

Lemma C8_lookups_witness :
  let h : Store.heap :=
    <[0 := Store.ODict [(SStr "x", Store.Ref 1)]]>
      (<[1 := Store.ODict [(SStr "k", Store.Imm (SInt 7))]]> ∅) in
  snd (Store.findAll 2 (SStr "k") 0 h) !! 1
  = Some (Store.ODict [(SStr "k", Store.Imm (SInt 7))])
  /\ Store.holds (snd (Store.findAll 2 (SStr "k") 0 h))
       (VDict [(SStr "x", VDict [(SStr "k", VScalar (SInt 7))])])
       (Store.Ref 0)
  /\ exists res,
       Store.find 2 (SStr "k") 0 h = (Ok res, h)
       /\ Store.holds_result h
            (find (SStr "k")
               [(SStr "x", VDict [(SStr "k", VScalar (SInt 7))])]) res.
Proof.
  intros h.
  assert (Hd : Store.holds h
                 (VDict [(SStr "x", VDict [(SStr "k", VScalar (SInt 7))])])
                 (Store.Ref 0)).
  { exists 0, [(SStr "x", Store.Ref 1)]. repeat split.
    exists 1, [(SStr "k", Store.Imm (SInt 7))]. repeat split. }
  destruct (C8_lookups_leave_the_record_unchanged 2 (SStr "k") 0 h)
    as (_ & Hkeep & Hholds & Hret).
  split; [|split].
  - apply Hkeep. reflexivity.
  - apply (Hholds _ Hd).
  - apply (Hret _ Hd). simpl. lia.
Defined.

(** ** flatten *)

Module ToolFacts.
Import Tool.

Lemma flatten_sub_app {A} (subList flatList : list A) :
  flatten_sub subList flatList = flatList ++ subList.
Proof.
  revert flatList. induction subList as [|x subList IH]; intros flatList; simpl.
  - now rewrite app_nil_r.
  - now rewrite IH, <- app_assoc.
Qed.

Lemma flatten_loop_app {A} (inList : list (list A)) (flatList : list A) :
  flatten_loop inList flatList = flatList ++ concat inList.
Proof.
  revert flatList. induction inList as [|s inList IH]; intros flatList; simpl.
  - now rewrite app_nil_r.
  - now rewrite IH, flatten_sub_app, <- app_assoc.
Qed.

Lemma flatten_concat {A} (inList : list (list A)) :
  flatten inList = concat inList.
Proof. unfold flatten. now rewrite flatten_loop_app. Qed.

(** ** The agents that main keeps *)

Lemma member_In uuid agents : member uuid agents = true <-> In uuid agents.
Proof.
  unfold member. rewrite existsb_exists. split.
  - intros (x & Hx & Heq). apply String.eqb_eq in Heq. now subst.
  - intros H. exists uuid. split; [assumption | apply String.eqb_refl].
Qed.

Lemma list_remove_In x l :
  In x l ->
  exists l', list_remove x l = Ok l'
             /\ S (List.length l') = List.length l
             /\ sublist l' l
             /\ forall keep : string -> bool,
                  keep x = false -> filter keep l' = filter keep l.
Proof.
  induction l as [|y l IH]; intros Hin; [contradiction|].
  simpl. destruct (String.eqb_spec y x) as [->|Hne].
  - exists l. repeat split.
    + now apply sublist_cons.
    + intros keep Hk. simpl. now rewrite Hk.
  - destruct Hin as [->|Hin]; [contradiction|].
    destruct (IH Hin) as (l' & -> & Hlen & Hsub & Hfil).
    exists (y :: l'). repeat split.
    + simpl. now rewrite Hlen.
    + now apply sublist_skip.
    + intros keep Hk. simpl. now rewrite (Hfil keep Hk).
Qed.

Lemma list_remove_here x prefix rest :
  ~ In x prefix -> list_remove x (prefix ++ x :: rest) = Ok (prefix ++ rest).
Proof.
  induction prefix as [|y prefix IH]; intros Hnot; simpl.
  - now rewrite String.eqb_refl.
  - destruct (String.eqb_spec y x) as [->|Hne].
    + exfalso. apply Hnot. now left.
    + rewrite IH; [reflexivity|]. intros Hin. apply Hnot. now right.
Qed.

(** The loop ends, raises nothing, and only takes unknown names out. *)
Lemma exclude_loop_ends agents : forall fuel requested i warned,
  List.length requested - i < fuel ->
  exists kept new,
    exclude_loop fuel agents requested i warned = Ok (kept, warned ++ new)
    /\ filter (fun u => member u agents) kept
       = filter (fun u => member u agents) requested
    /\ sublist kept requested
    /\ List.length kept + List.length new = List.length requested.
Proof.
  induction fuel as [|fuel IH]; intros l i warned Hfuel; [lia|].
  simpl. destruct (nth_error l i) as [uuid|] eqn:Hnth.
  - assert (Hi : i < List.length l) by (apply nth_error_Some; congruence).
    destruct (member uuid agents) eqn:Hm.
    + apply IH. lia.
    + destruct (list_remove_In uuid l (nth_error_In _ _ Hnth))
        as (l' & -> & Hlen & Hsub & Hfil).
      destruct (IH l' (S i) (warned ++ [excluding uuid]) ltac:(lia))
        as (kept & new & Hrun & Hkeep & Hsub' & Hcount).
      exists kept, (excluding uuid :: new). rewrite Hrun. repeat split.
      * now rewrite <- app_assoc.
      * rewrite Hkeep. now apply Hfil.
      * now transitivity l'.
      * simpl. lia.
  - exists l, []. rewrite app_nil_r.
    split; [reflexivity|]. split; [reflexivity|].
    split; [reflexivity | simpl; lia].
Qed.

Lemma unknown_not_before agents prefix x rest :
  member x agents = false ->
  NoDup (filter (fun u => negb (member u agents)) (prefix ++ x :: rest)) ->
  ~ In x prefix.
Proof.
  intros Hx Hnd Hin. rewrite filter_app in Hnd. simpl in Hnd.
  rewrite Hx in Hnd. simpl in Hnd.
  apply NoDup_remove_2 in Hnd. apply Hnd, in_or_app. left.
  apply filter_In. split; [assumption | now rewrite Hx].
Qed.

Lemma unknown_NoDup_drop agents prefix x rest :
  NoDup (filter (fun u => negb (member u agents)) (prefix ++ x :: rest)) ->
  NoDup (filter (fun u => negb (member u agents)) (prefix ++ rest)).
Proof.
  rewrite !filter_app. simpl.
  destruct (negb (member x agents)); [apply NoDup_remove_1 | trivial].
Qed.

Lemma snoc_app {A} (prefix : list A) y rest :
  prefix ++ y :: rest = (prefix ++ [y]) ++ rest
  /\ S (List.length prefix) = List.length (prefix ++ [y]).
Proof. rewrite <- app_assoc, length_app. simpl. split; [reflexivity | lia]. Qed.

Lemma exclude_loop_eq fuel agents requested i warned :
  exclude_loop (S fuel) agents requested i warned
  = match nth_error requested i with
    | None => Ok (requested, warned)
    | Some uuid =>
        if member uuid agents then
          exclude_loop fuel agents requested (S i) warned
        else
          match list_remove uuid requested with
          | Ok requested' =>
              exclude_loop fuel agents requested' (S i)
                (warned ++ [excluding uuid])
          | Raise e => Raise e
          | OutOfFuel => OutOfFuel
          end
    end.
Proof. reflexivity. Qed.

(** With no unknown name requested twice the loop is [sweep]. *)
Lemma exclude_loop_sweep agents : forall n rest prefix warned fuel,
  List.length rest <= n ->
  List.length rest < fuel ->
  NoDup (filter (fun u => negb (member u agents)) (prefix ++ rest)) ->
  exclude_loop fuel agents (prefix ++ rest) (List.length prefix) warned
  = Ok (prefix ++ sweep agents rest,
        warned ++ map excluding (swept agents rest)).
Proof.
  induction n as [n IH] using lt_wf_ind.
  intros rest prefix warned fuel Hn Hfuel Hnd.
  destruct fuel as [|fuel]; [lia|]. rewrite exclude_loop_eq.
  destruct rest as [|x rest].
  - rewrite app_nil_r. 
    replace (nth_error prefix (List.length prefix)) with (@None string)
      by (symmetry; apply nth_error_None; lia).
    simpl. now rewrite !app_nil_r.
  - rewrite nth_error_app2, Nat.sub_diag by lia. simpl nth_error.
    cbv beta iota. simpl sweep. simpl swept. simpl in Hn, Hfuel.
    destruct (member x agents) eqn:Hx.
    + destruct (snoc_app prefix x rest) as [-> ->].
      rewrite (IH (List.length rest)); try lia.
      * now rewrite <- !app_assoc.
      * now rewrite <- app_assoc.
    + rewrite list_remove_here by now apply (unknown_not_before agents _ _ rest).
      apply unknown_NoDup_drop in Hnd.
      destruct rest as [|y rest].
      * destruct fuel as [|fuel]; [lia|]. rewrite exclude_loop_eq.
        rewrite app_nil_r.
        replace (nth_error prefix (S (List.length prefix))) with (@None string)
          by (symmetry; apply nth_error_None; lia).
        reflexivity.
      * simpl in Hn, Hfuel.
        destruct (snoc_app prefix y rest) as [-> ->].
        rewrite (IH (List.length rest)); try lia.
        -- simpl map. now rewrite <- !app_assoc.
        -- now rewrite <- app_assoc.
Qed.

Lemma sweep_all_unknown agents requested :
  forallb (fun u => negb (member u agents)) requested = true ->
  sweep agents requested = odd_items requested.
Proof.
  induction requested as [| x | x y rest IH] using pairs_ind; intros Hall.
  - reflexivity.
  - simpl in *. apply andb_true_iff in Hall as [Hx _].
    apply negb_true_iff in Hx. now rewrite Hx.
  - simpl in Hall. apply andb_true_iff in Hall as [Hx Hall].
    apply andb_true_iff in Hall as [_ Hall].
    apply negb_true_iff in Hx. simpl. rewrite Hx. now rewrite IH.
Qed.

Lemma sweep_all_known agents requested :
  forallb (fun u => member u agents) requested = true ->
  sweep agents requested = requested /\ swept agents requested = [].
Proof.
  induction requested as [|x rest IH]; intros Hall; [now split|].
  simpl in Hall. apply andb_true_iff in Hall as [Hx Hall].
  destruct (IH Hall) as [IH1 IH2]. simpl. rewrite Hx. now rewrite IH1, IH2.
Qed.

Lemma exclude_unknown_sweep agents requested :
  NoDup (filter (fun u => negb (member u agents)) requested) ->
  exclude_unknown agents requested
  = Ok (sweep agents requested, map excluding (swept agents requested)).
Proof.
  intros Hnd. unfold exclude_unknown.
  apply (exclude_loop_sweep agents (List.length requested) requested [] []);
    [lia | lia | exact Hnd].
Qed.

Lemma filter_unknown_nil agents requested :
  forallb (fun u => member u agents) requested = true ->
  filter (fun u => negb (member u agents)) requested = [].
Proof.
  induction requested as [|x rest IH]; intros Hall; [reflexivity|].
  simpl in Hall |- *. apply andb_true_iff in Hall as [Hx Hall].
  rewrite Hx. simpl. now apply IH.
Qed.

(** The warnings of the loop are those of excluded names. *)
Lemma exclude_loop_warnings agents : forall fuel requested i warned kept new,
  Tool.exclude_loop fuel agents requested i warned = Ok (kept, new) ->
  forall w, In w new -> In w warned \/ exists u, w = Tool.excluding u.
Proof.
  induction fuel as [|fuel IH]; intros requested i warned kept new H w Hin;
    [discriminate|].
  rewrite exclude_loop_eq in H.
  destruct (nth_error requested i) as [uuid|].
  - destruct (Tool.member uuid agents).
    + now apply (IH _ _ _ _ _ H).
    + destruct (Tool.list_remove uuid requested) as [requested'| |];
        try discriminate.
      destruct (IH _ _ _ _ _ H w Hin) as [Hw|Hw]; [|now right].
      apply in_app_or in Hw as [Hw|[<-|[]]]; eauto.
  - injection H as <- <-. now left.
Qed.

Lemma exclude_unknown_warnings agents requested :
  exists kept warned,
    Tool.exclude_unknown agents requested = Ok (kept, warned)
    /\ forall w, In w warned -> exists u, w = Tool.excluding u.
Proof.
  destruct (exclude_loop_ends agents (S (List.length requested))
              requested 0 [] ltac:(lia)) as (kept & new & H & _).
  exists kept, new. split; [exact H|].
  intros w Hin.
  destruct (exclude_loop_warnings _ _ _ _ _ _ _ H w Hin) as [[]|Hu].
  exact Hu.
Qed.

Lemma endswith_snoc s c d :
  endswith (s ++ String c EmptyString) d = Ascii.eqb c d.
Proof.
  induction s as [|x s IH]; [reflexivity|].
  simpl String.append. cbn [endswith]. rewrite IH.
  now destruct (s ++ String c EmptyString)%string eqn:E;
    [destruct s; discriminate|].
Qed.

(** No warning about an excluded name is the warning about the default. *)
Lemma excluding_not_default u :
  "Defaulting to complete dataset" <> Tool.excluding u.
Proof.
  intros H. apply (f_equal (fun s => endswith s "g")) in H.
  unfold Tool.excluding in H.
  change (u ++ " is not in the dataset, excluding")%string
    with (u ++ " is not in the dataset, excludin" ++ String "g" EmptyString)%string
    in H.
  rewrite <- append_assoc, endswith_snoc in H. discriminate.
Qed.


End ToolFacts.

(** X1: [flatten] is the concatenation of the lists in order: it keeps
    every item, in the order of the lists and of the items in each, so that
    an item is in the result exactly when it is in one of the lists, and
    the length of the result is the sum of the lengths. *)
Theorem X1_flatten_is_concat :
  forall (A : Type) (inList : list (list A)),
    Tool.flatten inList = concat inList
    /\ List.length (Tool.flatten inList)
       = list_sum (map (@List.length A) inList)
    /\ (forall x, In x (Tool.flatten inList)
                  <-> exists subList, In subList inList /\ In x subList)
    /\ forall inList', Tool.flatten (inList ++ inList')
                       = Tool.flatten inList ++ Tool.flatten inList'.
Proof.
  intros A inList. rewrite ToolFacts.flatten_concat. repeat split.
  - now rewrite length_concat.
  - intros Hin. apply in_concat in Hin as (s & Hs & Hx). eauto.
  - intros (s & Hs & Hx). apply in_concat. eauto.
  - intros inList'. rewrite !ToolFacts.flatten_concat. apply concat_app.
Qed.

(** X2: the loop of [main] that takes the unknown names out of the
    requested agents always ends and raises nothing (the name it removes
    is in the list).  It never takes out a known name: the known names of
    the result are those requested, in order and as often; the result is
    the request with some names left out; and one warning is issued for
    each name left out. *)
Theorem X2_exclusion_keeps_known_agents :
  forall agents requested,
    exists kept warned,
      Tool.exclude_unknown agents requested = Ok (kept, warned)
      /\ filter (fun u => Tool.member u agents) kept
         = filter (fun u => Tool.member u agents) requested
      /\ sublist kept requested
      /\ List.length kept + List.length warned = List.length requested.
Proof.
  intros agents requested.
  destruct (ToolFacts.exclude_loop_ends agents (S (List.length requested))
              requested 0 [] ltac:(lia)) as (kept & new & H).
  exists kept, new. exact H.
Qed.

(** X3: removing from the list while iterating over it makes the loop skip
    the name that follows each name it removes.  When no unknown name is
    requested twice, the result is [sweep]: an unknown name is dropped and
    the next name is kept without being checked; so of a request made of
    unknown names only, the names at the odd positions 1, 3, 5, ... are
    kept. *)
Theorem X3_exclusion_skips_after_removal :
  forall agents requested,
    NoDup (filter (fun u => negb (Tool.member u agents)) requested) ->
    Tool.exclude_unknown agents requested
    = Ok (Tool.sweep agents requested,
          map Tool.excluding (Tool.swept agents requested))
    /\ (forallb (fun u => negb (Tool.member u agents)) requested = true ->
        Tool.exclude_unknown agents requested
        = Ok (Tool.odd_items requested,
              map Tool.excluding (Tool.swept agents requested))).
Proof.
  intros agents requested Hnd.
  assert (H : Tool.exclude_unknown agents requested
              = Ok (Tool.sweep agents requested,
                    map Tool.excluding (Tool.swept agents requested))).
  { now apply ToolFacts.exclude_unknown_sweep. }
  split; [exact H|].
  intros Hall. rewrite H. now rewrite ToolFacts.sweep_all_unknown.
Qed.

Lemma X3_exclusion_skips_witness :
  Tool.exclude_unknown ["ok"] ["b1"; "b2"; "ok"; "b3"]
  = Ok (["b2"; "ok"],
        ["b1 is not in the dataset, excluding";
         "b3 is not in the dataset, excluding"])
  /\ Tool.exclude_unknown [] ["b1"; "b2"; "b3"; "b4"; "b5"]
     = Ok (["b2"; "b4"],
           map Tool.excluding ["b1"; "b3"; "b5"]).
Proof.
  split.
  - apply (proj1 (X3_exclusion_skips_after_removal
                    ["ok"] ["b1"; "b2"; "ok"; "b3"]
                    ltac:(repeat constructor; simpl; intuition discriminate))).
  - apply (proj2 (X3_exclusion_skips_after_removal
                    [] ["b1"; "b2"; "b3"; "b4"; "b5"]
                    ltac:(repeat constructor; simpl; intuition discriminate))).
    reflexivity.
Defined.

(** X4: what [main] goes on with.  Without [-a], or with an empty request,
    it is the whole dataset, without a warning.  When every requested name
    is known, it is the request, flattened, without a warning.  Otherwise
    the loop decides: when it leaves at least one name, [main] goes on with
    the names it leaves and the warnings of the loop and nothing else; when
    it leaves none, with the whole dataset and one more warning, the one
    that says so.  That warning is issued in no other case. *)
Theorem X4_selected_agents :
  forall agents,
    Tool.select_agents agents None = Ok (agents, [])
    /\ Tool.select_agents agents (Some []) = Ok (agents, [])
    /\ (forall group groups,
          forallb (fun u => Tool.member u agents)
            (Tool.flatten (group :: groups)) = true ->
          Tool.flatten (group :: groups) <> [] ->
          Tool.select_agents agents (Some (group :: groups))
          = Ok (Tool.flatten (group :: groups), []))
    /\ (forall group groups,
          exists kept warned,
            Tool.exclude_unknown agents (Tool.flatten (group :: groups))
            = Ok (kept, warned)
            /\ Tool.select_agents agents (Some (group :: groups))
               = Ok (match kept with
                     | [] => (agents,
                              warned ++ ["Defaulting to complete dataset"])
                     | _ :: _ => (kept, warned)
                     end)
            /\ ~ In "Defaulting to complete dataset" warned)
    /\ (forall requested chosen warnings,
          Tool.select_agents agents requested = Ok (chosen, warnings) ->
          In "Defaulting to complete dataset" warnings ->
          exists group groups warned,
            requested = Some (group :: groups)
            /\ Tool.exclude_unknown agents (Tool.flatten (group :: groups))
               = Ok ([], warned)
            /\ chosen = agents).
Proof.
  intros agents.
  assert (Hloop : forall group groups,
    exists kept warned,
      Tool.exclude_unknown agents (Tool.flatten (group :: groups))
      = Ok (kept, warned)
      /\ Tool.select_agents agents (Some (group :: groups))
         = Ok (match kept with
               | [] => (agents, warned ++ ["Defaulting to complete dataset"])
               | _ :: _ => (kept, warned)
               end)
      /\ ~ In "Defaulting to complete dataset" warned).
  { intros group groups.
    destruct (ToolFacts.exclude_unknown_warnings agents
                (Tool.flatten (group :: groups)))
      as (kept & warned & Hrun & Hwarn).
    exists kept, warned. split; [exact Hrun|]. split.
    - unfold Tool.select_agents. rewrite Hrun. now destruct kept.
    - intros Hin. destruct (Hwarn _ Hin) as [u Hu].
      now apply ToolFacts.excluding_not_default in Hu. }
  split; [reflexivity|]. split; [reflexivity|]. split; [|split].
  - intros group groups Hall Hne. unfold Tool.select_agents.
    assert (Hnd : NoDup (filter (fun u => negb (Tool.member u agents))
                           (Tool.flatten (group :: groups)))).
    { rewrite ToolFacts.filter_unknown_nil by assumption. constructor. }
    destruct (ToolFacts.sweep_all_known agents _ Hall) as [Hs Hw].
    rewrite (ToolFacts.exclude_unknown_sweep agents _ Hnd), Hs, Hw.
    destruct (Tool.flatten (group :: groups)); [contradiction | reflexivity].
  - exact Hloop.
  - intros requested chosen warnings Hsel Hin.
    destruct requested as [[|group groups]|];
      try (injection Hsel as <- <-; contradiction).
    destruct (Hloop group groups) as (kept & warned & Hrun & Hsel' & Hnot).
    rewrite Hsel' in Hsel. exists group, groups, warned.
    destruct kept as [|k kept].
    + injection Hsel as <- <-. auto.
    + injection Hsel as <- <-. contradiction.
Qed.

Lemma X4_selected_agents_witness :
  Tool.select_agents ["a1"; "a2"] (Some [["a2"]; ["a1"; "a2"]])
  = Ok (["a2"; "a1"; "a2"], [])
  /\ exists group groups warned,
       Some [["zz"]] = Some (group :: groups)
       /\ Tool.exclude_unknown ["a1"; "a2"] (Tool.flatten (group :: groups))
          = Ok ([], warned)
       /\ ["a1"; "a2"] = ["a1"; "a2"].
Proof.
  destruct (X4_selected_agents ["a1"; "a2"]) as (_ & _ & Hknown & _ & Honly).
  split.
  - apply (Hknown ["a2"] [["a1"; "a2"]]); [reflexivity | discriminate].
  - apply (Honly (Some [["zz"]]) ["a1"; "a2"]
             ["zz is not in the dataset, excluding";
              "Defaulting to complete dataset"]);
      [reflexivity | right; left; reflexivity].
Defined.

(** ** The look-ups against the entries of the record *)

Module RecordFacts.
Import Records.

Lemma values_of_app key es1 es2 :
  values_of key (es1 ++ es2) = values_of key es1 ++ values_of key es2.
Proof. unfold values_of. now rewrite filter_app, map_app. Qed.

Lemma values_of_cons key ky value es :
  values_of key ((ky, value) :: es)
  = (if py_eq ky key then [value] else []) ++ values_of key es.
Proof. unfold values_of. simpl. now destruct (py_eq ky key). Qed.

Lemma entries_with_cons rec ky value rest :
  entries_with rec ((ky, value) :: rest)
  = (ky, value) :: rec value ++ entries_with rec rest.
Proof. reflexivity. Qed.

Lemma findAll_loop_entries key d :
  Forall (fun kv => findAll_value key (snd kv) []
                    = values_of key (entries_value (snd kv))) d ->
  findAll_loop (findAll_value key) key d []
  = values_of key (entries_with entries_value d).
Proof.
  induction 1 as [|[ky value] d Hv _ IH]; [reflexivity|].
  cbn [snd] in Hv.
  rewrite findAll_loop_cons, entries_with_cons, values_of_cons, values_of_app.
  rewrite (findAll_loop_acc key d)
    by (apply Forall_forall; intros; apply findAll_value_acc).
  rewrite IH, <- Hv.
  destruct value as [s|sub].
  - now destruct (py_eq ky key).
  - rewrite (findAll_value_acc key (VDict sub)
               (if py_eq ky key then [] ++ [VDict sub] else [])).
    destruct (py_eq ky key); now rewrite <- ?app_assoc.
Qed.

Lemma findAll_value_entries key v :
  findAll_value key v [] = values_of key (entries_value v).
Proof.
  induction v as [s|d IH] using Value_ind; [reflexivity|].
  now apply findAll_loop_entries.
Qed.

Lemma findAll_entries key d : findAll key d = values_of key (entries d).
Proof. apply (findAll_value_entries key (VDict d)). Qed.

Lemma find_loop_sound key d :
  Forall (fun kv => forall res,
            find_value key (snd kv) = Some res ->
            In res (values_of key (entries_value (snd kv)))) d ->
  forall res,
    find_loop (find_value key) key d = Some res ->
    In res (values_of key (entries_with entries_value d)).
Proof.
  induction 1 as [|[ky value] d Hv _ IH]; intros res; [discriminate|].
  cbn [snd] in Hv.
  rewrite find_loop_cons, entries_with_cons, values_of_cons, values_of_app.
  destruct (py_eq ky key).
  - intros [= <-]. now left.
  - cbn [app]. intros H. apply in_or_app.
    destruct value as [s|sub]; [right; now apply IH|].
    destruct (find_value key (VDict sub)) as [r|] eqn:Hr;
      [|right; now apply IH].
    destruct (truthy r); [|right; now apply IH].
    injection H as <-. left. now apply Hv.
Qed.

Lemma find_value_sound key v res :
  find_value key v = Some res -> In res (values_of key (entries_value v)).
Proof.
  revert res. induction v as [s|d IH] using Value_ind; intros res;
    [discriminate|].
  now apply find_loop_sound.
Qed.

Lemma find_top_level key rec d v :
  dict_get d key = Some v -> exists v', find_loop rec key d = Some v'.
Proof.
  induction d as [|[ky value] d IH]; [discriminate|].
  simpl dict_get. rewrite find_loop_cons.
  destruct (py_eq ky key); [eauto|].
  intros H. specialize (IH H).
  destruct value as [s|sub]; [exact IH|].
  destruct (rec (VDict sub)) as [r|]; [|exact IH].
  destruct (truthy r); eauto.
Qed.

Lemma find_flat key rec d :
  forallb (fun kv : scalar * Value =>
             match snd kv with VScalar _ => true | VDict _ => false end) d
  = true ->
  find_loop rec key d = dict_get d key.
Proof.
  induction d as [|[ky value] d IH]; [reflexivity|].
  simpl forallb. intros H. apply andb_true_iff in H as [Hv Hd].
  rewrite find_loop_cons. simpl dict_get.
  destruct (py_eq ky key); [reflexivity|].
  destruct value; [now apply IH | discriminate].
Qed.

End RecordFacts.

(** X5: [findAll] returns the values of exactly the entries, at every
    depth, whose key equals the key, in the order of the traversal: an
    entry before the entries nested in its value, and those before the
    entries that follow it. *)
Theorem X5_findAll_collects_every_match :
  forall key nestedDicts,
    findAll key nestedDicts
    = Records.values_of key (Records.entries nestedDicts)
    /\ forall v, In v (findAll key nestedDicts)
                 <-> exists ky, In (ky, v) (Records.entries nestedDicts)
                                /\ py_eq ky key = true.
Proof.
  intros key d. rewrite RecordFacts.findAll_entries. split; [reflexivity|].
  intros v. unfold Records.values_of. rewrite in_map_iff. split.
  - intros ([ky v'] & <- & Hin). apply filter_In in Hin as [Hin Heq]. eauto.
  - intros (ky & Hin & Heq). exists (ky, v). split; [reflexivity|].
    apply filter_In. auto.
Qed.

(** X6: what [find] returns is the value of an entry with that key (it is
    one of the values that [findAll] returns); [find] returns a value
    whenever the key is a key of the record itself, whatever the nested
    dicts hold; and on a record that holds no dict, [find] is the plain
    look-up of the key. *)
Theorem X6_find_returns_a_match :
  forall key nestedDicts,
    (forall v, find key nestedDicts = Some v -> In v (findAll key nestedDicts))
    /\ (forall v, Records.dict_get nestedDicts key = Some v ->
                  exists v', find key nestedDicts = Some v')
    /\ (forallb (fun kv : scalar * Value =>
                   match snd kv with VScalar _ => true | VDict _ => false end)
          nestedDicts = true ->
        find key nestedDicts = Records.dict_get nestedDicts key).
Proof.
  intros key d. repeat split.
  - intros v H. rewrite RecordFacts.findAll_entries.
    now apply (RecordFacts.find_value_sound key (VDict d)).
  - intros v H. now apply (RecordFacts.find_top_level key _ d v).
  - apply RecordFacts.find_flat.
Qed.

Lemma X6_find_returns_a_match_witness :
  In (VScalar (SInt 5))
    (findAll (SStr "k")
       [(SStr "x", VDict [(SStr "k", VScalar (SInt 0))]);
        (SStr "y", VDict [(SStr "k", VScalar (SInt 5))])])
  /\ (exists v', find (SStr "b")
                   [(SStr "a", VDict [(SStr "b", VScalar (SInt 0))]);
                    (SStr "b", VScalar (SInt 2))] = Some v')
  /\ find (SInt 1) [(SStr "a", VScalar (SInt 1)); (SBool true, VScalar (SInt 2))]
     = Some (VScalar (SInt 2)).
Proof.
  split; [|split].
  - apply (proj1 (X6_find_returns_a_match (SStr "k") _)). reflexivity.
  - apply (proj1 (proj2 (X6_find_returns_a_match (SStr "b") _))
             (VScalar (SInt 2))). reflexivity.
  - rewrite (proj2 (proj2 (X6_find_returns_a_match (SInt 1)
               [(SStr "a", VScalar (SInt 1));
                (SBool true, VScalar (SInt 2))])) eq_refl).
    reflexivity.
Defined.

(** ** The dicts that convert builds *)

Module DictFacts.
Import Records.

Lemma py_eq_norm a b : py_eq a b = true <-> norm a = norm b.
Proof.
  destruct a as [x|x|x], b as [y|y|y]; simpl;
    rewrite ?Z.eqb_eq, ?String.eqb_eq; try (split; congruence).
  destruct x, y; simpl; split; congruence.
Qed.

Lemma py_eq_norm_false a b : py_eq a b = false <-> norm a <> norm b.
Proof.
  rewrite <- py_eq_norm. destruct (py_eq a b); split; congruence.
Qed.

Ltac py_eq_cases :=
  repeat match goal with
         | |- context [py_eq ?a ?b] =>
             let E := fresh "E" in
             destruct (py_eq a b) eqn:E;
             [apply py_eq_norm in E | apply py_eq_norm_false in E]
         end;
  try reflexivity; try congruence.

Lemma dict_get_set d k v q :
  dict_get (dict_set d k v) q
  = if py_eq k q then Some v else dict_get d q.
Proof.
  induction d as [|[k' v'] d IH]; simpl.
  - reflexivity.
  - destruct (py_eq k' k) eqn:E1; simpl.
    + apply py_eq_norm in E1. py_eq_cases.
    + apply py_eq_norm_false in E1. rewrite IH. py_eq_cases.
Qed.

Lemma dict_set_length d k v :
  List.length (dict_set d k v) <= S (List.length d).
Proof.
  induction d as [|[k' v'] d IH]; simpl; [lia|].
  destruct (py_eq k' k); simpl; lia.
Qed.

Lemma dict_set_keys_exist f d k v :
  existsb f (map fst (dict_set d k v)) = true ->
  existsb f (map fst d) = true \/ f k = true.
Proof.
  induction d as [|[k' v'] d IH]; simpl.
  - rewrite orb_false_r. auto.
  - destruct (py_eq k' k); simpl; [auto|].
    rewrite !orb_true_iff. intros [H|H]; [auto|].
    destruct (IH H); auto.
Qed.

Lemma dict_set_distinct d k v :
  distinct_keys (map fst d) = true ->
  distinct_keys (map fst (dict_set d k v)) = true.
Proof.
  induction d as [|[k' v'] d IH]; simpl; [reflexivity|].
  intros H. apply andb_true_iff in H as [Hk Hd].
  destruct (py_eq k' k) eqn:E; simpl.
  - now rewrite Hk, Hd.
  - rewrite (IH Hd), andb_true_r. apply negb_true_iff.
    apply negb_true_iff in Hk.
    destruct (existsb (fun k'0 => py_eq k'0 k') (map fst (dict_set d k v)))
      eqn:Hex; [|reflexivity].
    apply dict_set_keys_exist in Hex as [Hex|Hex]; [congruence|].
    apply py_eq_norm in Hex. apply py_eq_norm_false in E. congruence.
Qed.

Lemma dict_set_values (P : Value -> bool) d k v :
  forallb (fun kv : scalar * Value => let (_, value) := kv in P value) d
  = true ->
  P v = true ->
  forallb (fun kv : scalar * Value => let (_, value) := kv in P value)
    (dict_set d k v) = true.
Proof.
  intros Hd Hv. induction d as [|[k' v'] d IH]; simpl.
  - now rewrite Hv.
  - simpl in Hd. apply andb_true_iff in Hd as [Hv' Hd].
    destruct (py_eq k' k); simpl.
    + now rewrite Hv, Hd.
    + now rewrite Hv', IH.
Qed.

Lemma convert_with_shape l :
  Forall (fun n => forall v, stored n = Ok v -> well_keyed v = true) l ->
  forall d0 d,
    convert_with stored l d0 = Ok d ->
    well_keyed (VDict d0) = true ->
    well_keyed (VDict d) = true
    /\ List.length d <= List.length d0 + Nat.div2 (List.length l).
Proof.
  induction l as [| x | key val rest IH] using pairs_ind;
    intros Hall d0 d Hrun Hd0.
  - injection Hrun as <-. split; [assumption | simpl; lia].
  - injection Hrun as <-. split; [assumption | simpl; lia].
  - apply Forall_pairs in Hall as (_ & Hv & Hrest).
    simpl in Hrun. destruct (stored val) as [v|e|] eqn:Hs; try discriminate.
    destruct key as [k|sub]; simpl in Hrun; [|discriminate].
    assert (Hd1 : well_keyed (VDict (dict_set d0 k v)) = true).
    { simpl in Hd0 |- *. apply andb_true_iff in Hd0 as [Hk Hvals].
      rewrite dict_set_distinct by assumption.
      apply (dict_set_values well_keyed); [assumption | now apply Hv]. }
    destruct (IH Hrest _ _ Hrun Hd1) as [Hw Hlen]. split; [assumption|].
    pose proof (dict_set_length d0 k v). simpl. lia.
Qed.

Lemma stored_well_keyed n : forall v, stored n = Ok v -> well_keyed v = true.
Proof.
  induction n as [s|l IH] using Node_ind; intros v.
  - now intros [= <-].
  - simpl. destruct (convert_with stored l []) as [d|e|] eqn:Hrun;
      try discriminate.
    intros [= <-]. now apply (convert_with_shape l IH [] d).
Qed.

Lemma convert_with_last k l : forall d0 d,
  convert_with stored l d0 = Ok d ->
  dict_get d k = last_stored k l (dict_get d0 k).
Proof.
  induction l as [| x | key val rest IH] using pairs_ind; intros d0 d Hrun.
  - now injection Hrun as <-.
  - injection Hrun as <-. now destruct x.
  - simpl in Hrun. destruct (stored val) as [v|e|] eqn:Hs; try discriminate.
    destruct key as [key|sub]; simpl in Hrun; [|discriminate].
    rewrite (IH _ _ Hrun), dict_get_set. simpl. now rewrite Hs.
Qed.

End DictFacts.

(** X7: the dict that [convert] builds from a list of [L] items has at
    most [L / 2] entries, no two of its keys are equal (as Python compares
    them: [True] equals [1]), and the same holds of every dict nested in
    it. *)
Theorem X7_convert_builds_a_proper_dict :
  forall multiLevelArray d,
    convert multiLevelArray = Ok d ->
    List.length d <= Nat.div2 (List.length multiLevelArray)
    /\ Records.well_keyed (VDict d) = true.
Proof.
  intros l d Hrun.
  destruct (DictFacts.convert_with_shape l
              ltac:(apply Forall_forall; intros n _;
                    apply DictFacts.stored_well_keyed)
              [] d Hrun eq_refl) as [Hw Hlen].
  split; [exact Hlen | exact Hw].
Qed.

Lemma X7_convert_builds_a_proper_dict_witness :
  List.length [(SBool true, VScalar (SInt 6))] <= 2
  /\ Records.well_keyed (VDict [(SBool true, VScalar (SInt 6))]) = true.
Proof.
  apply (X7_convert_builds_a_proper_dict
           [Scalar (SBool true); Scalar (SInt 5);
            Scalar (SInt 1); Scalar (SInt 6)]).
  reflexivity.
Defined.

(** X8: a key that occurs more than once takes the value of its last
    occurrence: in the dict that [convert] builds, looking a key up gives
    what the last pair of items with an equal key stores, and nothing for a
    key that no pair has. *)
Theorem X8_convert_last_occurrence_wins :
  forall multiLevelArray d k,
    convert multiLevelArray = Ok d ->
    Records.dict_get d k = Records.last_stored k multiLevelArray None.
Proof.
  intros l d k Hrun. apply (DictFacts.convert_with_last k l [] d Hrun).
Qed.

Lemma X8_convert_last_occurrence_witness :
  Records.dict_get
    [(SStr "a", VScalar (SInt 3)); (SStr "b", VScalar (SInt 2))] (SStr "a")
  = Some (VScalar (SInt 3)).
Proof.
  apply (X8_convert_last_occurrence_wins
           [Scalar (SStr "a"); Scalar (SInt 1);
            Scalar (SStr "b"); Scalar (SInt 2);
            Scalar (SStr "a"); Scalar (SInt 3)]).
  reflexivity.
Defined.

(** ** How decode ends *)

Lemma int_digits_raises s : forall acc e,
  int_digits acc s = Raise e -> e = ValueError.
Proof.
  induction s as [|c s IH]; intros acc e; simpl; [discriminate|].
  destruct (digit_value c); [apply IH | congruence].
Qed.

Lemma parse_int_raises s e : parse_int s = Raise e -> e = ValueError.
Proof.
  unfold parse_int, unpack2.
  destruct (re_split colon s) as [|? [|v [|? ?]]]; try congruence.
  pose proof (int_digits_raises v 0%Z) as Hd.
  unfold py_int. destruct v as [|c v]; [congruence|].
  destruct (int_digits 0 (String c v)) as [z|e'|]; try congruence.
  intros [= <-]. now apply Hd.
Qed.

Lemma parse_str_raises s e : parse_str s = Raise e -> e = ValueError.
Proof.
  unfold parse_str, unpack3.
  destruct (re_split colonStringSplit s) as [|? [|? [|? [|? ?]]]]; congruence.
Qed.

Lemma parse_bool_raises s e : parse_bool s = Raise e -> e = ValueError.
Proof.
  unfold parse_bool, unpack2.
  destruct (re_split colon s) as [|? [|v [|? ?]]]; congruence.
Qed.

Lemma nestLevel_raises : forall fuel currentList keyData e k,
  nestLevel fuel currentList keyData = (Raise e, k) ->
  e = ValueError \/ (e = InvalidArrayFormat k /\ k <> EmptyString).
Proof.
  induction fuel as [|fuel IH]; intros cur kd e k H; [discriminate|].
  rewrite nestLevel_eq in H.
  destruct kd as [|c kd0]; [discriminate|].
  destruct (search lexer (String c kd0)) as [[st en]|].
  - cbv zeta in H.
    assert (Hpure : forall o : outcome Node,
      (forall e', o = Raise e' -> e' = ValueError) ->
      (value <- lift o ;; nestLevel fuel (cur ++ [value]))
        (slice_from en (String c kd0)) = (Raise e, k) ->
      e = ValueError \/ (e = InvalidArrayFormat k /\ k <> EmptyString)).
    { intros o Ho. unfold bind, lift. destruct o as [v|e'|]; [eauto | |discriminate].
      intros [= <- <-]. left. now apply Ho. }
    revert H. token_cases; intros H; eauto using parse_int_raises,
      parse_str_raises, parse_bool_raises; try discriminate.
    unfold bind in H.
    destruct (nestLevel fuel [] (slice_from en (String c kd0)))
      as [[sub|e'|] k1] eqn:E1; [eauto | | discriminate].
    injection H as <- <-. eauto.
  - injection H as <- <-. right. split; [reflexivity | discriminate].
Qed.

Lemma nestLevel_leaves_suffix fuel currentList keyData r k :
  nestLevel fuel currentList keyData = (r, k) ->
  exists consumed, keyData = (consumed ++ k)%string.
Proof.
  rewrite (nestLevel_spans_erase fuel currentList keyData []).
  destruct (nestLevel_spans fuel currentList keyData [])
    as [r' [k' spans]] eqn:E.
  simpl. intros [= <- <-].
  destruct (nestLevel_spans_cover _ _ _ _ _ _ _ E) as (new & _ & Hcat).
  eauto.
Qed.

(** ** Taking tokens apart *)

Module SplitFacts.
Import Records Plain.

Lemma split_at_length cut : forall s prev piece,
  List.length (split_at cut prev piece s) = S (cuts cut prev s).
Proof.
  induction s as [|c s IH]; intros prev piece; [reflexivity|].
  simpl. destruct (cut prev (String c s)); simpl; now rewrite IH.
Qed.

Lemma split_at_no_cut cut : forall s prev piece,
  cuts cut prev s = 0 ->
  split_at cut prev piece s = [(piece ++ s)%string].
Proof.
  induction s as [|c s IH]; intros prev piece H; simpl in *.
  - now rewrite append_nil_r.
  - destruct (cut prev (String c s)); [discriminate|].
    rewrite IH by assumption. now rewrite append_assoc.
Qed.

Lemma colon_cuts_at_colons : cuts_at_colons colon.
Proof. intros prev c s H. exact H. Qed.

Lemma colonStringSplit_cuts_at_colons : cuts_at_colons colonStringSplit.
Proof.
  intros prev c s H. unfold colonStringSplit.
  destruct (Ascii.eqb_spec c ":") as [->|Hne]; [discriminate|].
  destruct c as [[] [] [] [] [] [] [] []]; try reflexivity.
  now contradiction Hne.
Qed.

Lemma split_at_run cut :
  cuts_at_colons cut ->
  forall run rest prev piece,
    all_chars (fun c => negb (Ascii.eqb c ":")) run = true ->
    split_at cut prev piece (run ++ rest)
    = split_at cut (last_char prev run) (piece ++ run) rest.
Proof.
  intros Hcut. induction run as [|c run IH]; intros rest prev piece Hall.
  - simpl. now rewrite append_nil_r.
  - simpl in Hall. apply andb_true_iff in Hall as [Hc Hall].
    apply negb_true_iff in Hc. simpl String.append. simpl split_at.
    rewrite (Hcut prev c _ Hc), IH by assumption.
    simpl last_char. now rewrite append_assoc.
Qed.

Lemma cuts_run cut :
  cuts_at_colons cut ->
  forall run prev,
    all_chars (fun c => negb (Ascii.eqb c ":")) run = true ->
    cuts cut prev run = 0.
Proof.
  intros Hcut. induction run as [|c run IH]; intros prev Hall; [reflexivity|].
  simpl in Hall. apply andb_true_iff in Hall as [Hc Hall].
  apply negb_true_iff in Hc. simpl.
  now rewrite (Hcut prev c _ Hc), IH.
Qed.

Lemma digit_not_colon c :
  in_class digit c = true -> negb (Ascii.eqb c ":") = true.
Proof.
  destruct (Ascii.eqb_spec c ":") as [->|]; [discriminate | reflexivity].
Qed.

Lemma digits_no_colon s :
  all_chars (in_class digit) s = true ->
  all_chars (fun c => negb (Ascii.eqb c ":")) s = true.
Proof.
  induction s as [|c s IH]; [reflexivity|]. cbn [all_chars].
  intros H. apply andb_true_iff in H as [Hc Hs].
  now rewrite (digit_not_colon c Hc), IH.
Qed.

(** The digits of a number are read as the number they denote. *)
Lemma int_digits_decimal s : forall acc,
  all_chars (in_class digit) s = true ->
  int_digits acc s
  = Ok (acc * 10 ^ Z.of_nat (String.length s) + decimal s)%Z.
Proof.
  induction s as [|c s IH]; intros acc Hall.
  - simpl. f_equal. lia.
  - cbn [all_chars] in Hall. apply andb_true_iff in Hall as [Hc Hs].
    cbn [int_digits]. unfold digit_value. rewrite Hc.
    rewrite IH by assumption. f_equal.
    change (decimal (String c s))
      with ((Z.of_nat (nat_of_ascii c) - 48) * 10 ^ Z.of_nat (String.length s)
            + decimal s)%Z.
    change (String.length (String c s)) with (S (String.length s)).
    rewrite Nat2Z.inj_succ, Z.pow_succ_r by lia. lia.
Qed.

Lemma parse_int_decimal digits :
  number digits = true ->
  parse_int ("i:" ++ digits) = Ok (Scalar (SInt (decimal digits))).
Proof.
  intros Hnum. apply number_run in Hnum as [Hne Hall].
  unfold parse_int, re_split.
  change (split_at colon None EmptyString ("i:" ++ digits))
    with ("i" :: split_at colon (Some ":"%char) EmptyString digits).
  rewrite split_at_no_cut
    by (apply cuts_run; [apply colon_cuts_at_colons | now apply digits_no_colon]).
  simpl unpack2. unfold py_int.
  destruct digits as [|c digits]; [contradiction|].
  change (EmptyString ++ String c digits)%string with (String c digits).
  rewrite int_digits_decimal by assumption. do 2 f_equal.
Qed.

Lemma colonStringSplit_eq prev c s :
  colonStringSplit prev (String c s)
  = Ascii.eqb c ":"
    && (match prev with Some p => Ascii.eqb p "s" | None => false end
        || startswith s dquote).
Proof.
  destruct (Ascii.eqb_spec c ":") as [->|Hne].
  - destruct prev as [p|]; [|reflexivity].
    destruct (Ascii.eqb_spec p "s") as [->|Hp]; [reflexivity|].
    destruct p as [[] [] [] [] [] [] [] []]; try reflexivity.
    now contradiction Hp.
  - destruct c as [[] [] [] [] [] [] [] []]; try reflexivity.
    now contradiction Hne.
Qed.

Lemma startswith_closing payload :
  all_chars (fun c => negb (Ascii.eqb c dquote)) payload = true ->
  startswith (payload ++ String dquote EmptyString) dquote
  = match payload with EmptyString => true | _ => false end.
Proof.
  destruct payload as [|c pl]; [reflexivity|].
  cbn [all_chars]. intros H. apply andb_true_iff in H as [Hc _].
  apply negb_true_iff in Hc. exact Hc.
Qed.

(** The cuts inside a quoted payload: after an s, or before the closing
    quote. *)
Lemma payload_cuts payload : forall p,
  all_chars (fun c => negb (Ascii.eqb c dquote)) payload = true ->
  cuts colonStringSplit (Some p) (payload ++ String dquote EmptyString) = 0
  <-> (Ascii.eqb p "s" && startswith payload ":") = false
      /\ has_s_colon payload = false
      /\ endswith payload ":" = false.
Proof.
  induction payload as [|c pl IH]; intros p Hall.
  - simpl. rewrite andb_false_r. tauto.
  - pose proof Hall as Hall'.
    cbn [all_chars] in Hall'. apply andb_true_iff in Hall' as [Hc Hpl].
    change (cuts colonStringSplit (Some p)
              (String c pl ++ String dquote EmptyString))
      with ((if colonStringSplit (Some p)
                  (String c (pl ++ String dquote EmptyString))
             then 1 else 0)
            + cuts colonStringSplit (Some c)
                (pl ++ String dquote EmptyString)).
    rewrite colonStringSplit_eq, (startswith_closing pl Hpl).
    specialize (IH c Hpl).
    assert (Hend : endswith (String c pl) ":"
                   = match pl with
                     | EmptyString => Ascii.eqb c ":"
                     | _ => endswith pl ":"
                     end) by now destruct pl.
    rewrite Hend. cbn [startswith has_s_colon].
    destruct (Ascii.eqb c ":") eqn:Ec, (Ascii.eqb p "s") eqn:Ep;
      cbn [andb orb].
    + split; [discriminate | intros (H & _); discriminate].
    + destruct pl as [|c' pl']; cbn [andb orb].
      * split; [discriminate | intros (_ & _ & H); discriminate].
      * rewrite Nat.add_0_l, IH, orb_false_iff. tauto.
    + rewrite Nat.add_0_l, IH, orb_false_iff.
      destruct pl as [|c' pl']; tauto.
    + rewrite Nat.add_0_l, IH, orb_false_iff.
      destruct pl as [|c' pl']; tauto.
Qed.

Lemma splittable_cuts payload :
  all_chars (fun c => negb (Ascii.eqb c dquote)) payload = true ->
  splittable payload = true
  <-> cuts colonStringSplit (Some dquote)
        (payload ++ String dquote EmptyString) = 0.
Proof.
  intros Hall. rewrite (payload_cuts payload dquote Hall).
  unfold splittable. rewrite andb_true_iff, !negb_true_iff.
  change (Ascii.eqb dquote "s") with false. cbn [andb]. tauto.
Qed.

Lemma strip_ends_quoted payload : strip_ends (quoted payload) = payload.
Proof. unfold quoted. simpl. apply drop_last_append. Qed.

(** The pieces of a string token: the tag, the declared length, the quoted
    payload, and one more piece for every cut inside the payload. *)
Lemma re_split_str len payload :
  number len = true ->
  re_split colonStringSplit ("s:" ++ len ++ ":" ++ quoted payload)
  = "s" :: len
    :: split_at colonStringSplit (Some dquote) (String dquote EmptyString)
         (payload ++ String dquote EmptyString).
Proof.
  intros Hnum. apply number_run in Hnum as [Hne Hall].
  unfold re_split.
  change (split_at colonStringSplit None EmptyString
            ("s:" ++ len ++ ":" ++ quoted payload))
    with ("s" :: split_at colonStringSplit (Some ":"%char) EmptyString
                   (len ++ ":" ++ quoted payload)).
  rewrite (split_at_run colonStringSplit colonStringSplit_cuts_at_colons)
    by now apply digits_no_colon.
  unfold quoted.
  change (":" ++ String dquote (payload ++ String dquote EmptyString))%string
    with (String ":" (String dquote (payload ++ String dquote EmptyString))).
  cbn [split_at]. rewrite colonStringSplit_eq.
  cbn [startswith]. rewrite Ascii.eqb_refl, orb_true_r. cbn [andb].
  rewrite colonStringSplit_eq.
  change (Ascii.eqb dquote ":") with false. cbn [andb].
  reflexivity.
Qed.

Lemma parse_str_payload len payload :
  number len = true ->
  all_chars (fun c => negb (Ascii.eqb c dquote)) payload = true ->
  parse_str ("s:" ++ len ++ ":" ++ quoted payload)
  = if splittable payload then Ok (Scalar (SStr payload))
    else Raise ValueError.
Proof.
  intros Hnum Hall. unfold parse_str. rewrite re_split_str by assumption.
  pose proof (splittable_cuts payload Hall) as Hs.
  pose proof (split_at_length colonStringSplit
                (payload ++ String dquote EmptyString) (Some dquote)
                (String dquote EmptyString)) as Hlen.
  destruct (splittable payload).
  - rewrite split_at_no_cut by now apply Hs.
    simpl unpack3. now rewrite <- (strip_ends_quoted payload) at 2.
  - destruct (cuts colonStringSplit (Some dquote)
                (payload ++ String dquote EmptyString)) as [|n];
      [now destruct Hs as [_ Hs]; discriminate Hs|].
    destruct (split_at colonStringSplit (Some dquote)
                (String dquote EmptyString)
                (payload ++ String dquote EmptyString)) as [|a [|b l]];
      try discriminate.
    reflexivity.
Qed.

End SplitFacts.

(** ** decode on the texts of the grammar *)

Module PlainFacts.
Import Plain Records.

Lemma nodes_of_cons e items :
  nodes_of (e :: items)
  = match node_of e with
    | Ok n =>
        match nodes_of items with
        | Ok ns => Ok (n :: ns)
        | Raise err => Raise err
        | OutOfFuel => OutOfFuel
        end
    | Raise err => Raise err
    | OutOfFuel => OutOfFuel
    end.
Proof. reflexivity. Qed.

Lemma nodes_of_plain_items items :
  Forall (fun e => wf e = true ->
            node_of e = if clean e then Ok (plain e) else Raise ValueError)
    items ->
  forallb wf items = true ->
  nodes_of items
  = if forallb clean items then Ok (map plain items) else Raise ValueError.
Proof.
  induction 1 as [|e items He _ IH]; intros Hwf; [reflexivity|].
  cbn [forallb] in Hwf. apply andb_true_iff in Hwf as [Hwe Hwi].
  rewrite nodes_of_cons, (He Hwe), (IH Hwi). cbn [forallb map].
  now destruct (clean e), (forallb clean items).
Qed.

Lemma node_of_plain e :
  wf e = true ->
  node_of e = if clean e then Ok (plain e) else Raise ValueError.
Proof.
  induction e as [d s|l p s|b s|c items IH] using elem_ind; intros Hwf.
  - now apply SplitFacts.parse_int_decimal.
  - cbn [wf] in Hwf. apply andb_true_iff in Hwf as [Hnum Hpay].
    now apply SplitFacts.parse_str_payload.
  - apply parse_bool_true.
  - cbn [wf] in Hwf. apply andb_true_iff in Hwf as [Hnum Hwi].
    change (node_of (EArr c items))
      with (match nodes_of items with
            | Ok ns => Ok (List ns)
            | Raise err => Raise err
            | OutOfFuel => OutOfFuel
            end).
    rewrite (nodes_of_plain_items items IH Hwi). cbn [clean plain].
    now destruct (forallb clean items).
Qed.

Lemma nodes_of_plain items :
  forallb wf items = true ->
  nodes_of items
  = if forallb clean items then Ok (map plain items) else Raise ValueError.
Proof.
  apply nodes_of_plain_items, Forall_forall. intros e _. apply node_of_plain.
Qed.

End PlainFacts.

(** ** Text after an unmatched closing brace: what decode gives *)

(** C10, against the claim: a top-level array of the grammar need not
    decode.  The array [a:3:{a:0:{}i:1;i:2;}] has an array in key position
    and the array [a:2:{s:7:"hours:3";i:1;}] a payload that splits; followed
    by a closing brace and more text, they still raise [TypeError] and
    [ValueError]: decode does not return a record. *)
Lemma C10_array_that_raises_counterexample :
  wf (EArr "3" [EArr "0" []; EInt "1" true; EInt "2" true]) = true
  /\ (render (EArr "3" [EArr "0" []; EInt "1" true; EInt "2" true]) ++ "}x")%string
     = "a:3:{a:0:{}i:1;i:2;}}x"
  /\ decode_text "a:3:{a:0:{}i:1;i:2;}}x" = Raise TypeError
  /\ wf (EArr "2" [EStr "7" "hours:3" true; EInt "1" true]) = true
  /\ decode_text (dq "a:2:{s:7:'hours:3';i:1;}}x") = Raise ValueError.
Proof. repeat split. Qed.

(** C10, amended: after a well-formed top-level array, an unmatched closing
    brace makes the outermost call of [nestLevel] return, so that decoding
    gives exactly what the array alone gives: its record when the array
    decodes, and the exception of the array when it does not.  The text
    after the brace is never looked at: whatever it is, it is not reported,
    and no [InvalidArrayFormat] is raised.  So [a:2:{s:1:"k";i:7;}}x:1;{{]
    decodes to the record of its array, and [a:3:{a:0:{}i:1;i:2;}}x:1;]
    raises the [TypeError] of its array. *)
Theorem C10_text_after_unmatched_close_is_ignored :
  (forall count items garbage,
     wf (EArr count items) = true ->
     decode_text (render (EArr count items) ++ String "}" garbage)
     = decode_text (render (EArr count items))
     /\ (forall d,
           decode_text (render (EArr count items)) = Ok d ->
           decode_text (render (EArr count items) ++ String "}" garbage)
           = Ok d)
     /\ (forall e,
           decode_text (render (EArr count items)) = Raise e ->
           decode_text (render (EArr count items) ++ String "}" garbage)
           = Raise e)
     /\ forall text,
          decode_text (render (EArr count items) ++ String "}" garbage)
          <> Raise (InvalidArrayFormat text))
  /\ decode_text (dq "a:2:{s:1:'k';i:7;}}x:1;{{")
     = Ok [(SStr "k", VScalar (SInt 7))]
  /\ decode_text "a:3:{a:0:{}i:1;i:2;}}x:1;" = Raise TypeError.
Proof.
  split; [|split; reflexivity].
  intros c items g Hwf. rewrite decode_array_then_close by assumption.
  split; [reflexivity|]. split; [trivial|]. split; [trivial|].
  intros text.
  pose proof (decode_render_list [EArr c items]) as Hd.
  cbn [forallb] in Hd. rewrite andb_true_r in Hd. specialize (Hd Hwf).
  change (render_list [EArr c items])
    with (render (EArr c items) ++ EmptyString)%string in Hd.
  rewrite append_nil_r in Hd. rewrite Hd.
  rewrite (PlainFacts.nodes_of_plain [EArr c items])
    by (cbn [forallb]; now rewrite Hwf).
  destruct (forallb Plain.clean [EArr c items]); [|discriminate].
  cbn [map finish convert_first]. intros H.
  now apply convert_arg_raises in H.
Qed.

Lemma C10_text_after_unmatched_close_witness :
  decode_text (dq "a:2:{s:1:'k';i:7;}}y:2;")
  = Ok [(SStr "k", VScalar (SInt 7))]
  /\ decode_text (dq "a:2:{s:7:'hours:3';i:1;}}y:2;") = Raise ValueError.
Proof.
  split.
  - apply (proj1 (proj2 (proj1 C10_text_after_unmatched_close_is_ignored
                    "2" [EStr "1" "k" true; EInt "7" true] "y:2;" eq_refl))).
    reflexivity.
  - apply (proj1 (proj2 (proj2
             (proj1 C10_text_after_unmatched_close_is_ignored
                "2" [EStr "7" "hours:3" true; EInt "1" true] "y:2;"
                eq_refl)))).
    reflexivity.
Defined.

(** X11: a string token decodes to its payload exactly when the payload
    holds no s directly followed by a colon and does not end with a colon
    (the two places where the pattern that takes the token apart cuts
    again); otherwise the token raises [ValueError], and so does decoding
    any text of the grammar that holds such a token. *)
Theorem X11_string_payload_that_splits_raises :
  (forall len payload,
     number len = true ->
     all_chars (fun c => negb (Ascii.eqb c dquote)) payload = true ->
     parse_str ("s:" ++ len ++ ":" ++ quoted payload)
     = if negb (Records.has_s_colon payload) && negb (endswith payload ":")
       then Ok (Scalar (SStr payload))
       else Raise ValueError)
  /\ (forall items,
        forallb wf items = true ->
        forallb Plain.clean items = false ->
        decode_text (render_list items) = Raise ValueError).
Proof.
  split.
  - intros len payload Hnum Hpay.
    now apply SplitFacts.parse_str_payload.
  - intros items Hwf Hclean.
    rewrite (decode_render_list items Hwf).
    now rewrite (PlainFacts.nodes_of_plain items Hwf), Hclean.
Qed.

Lemma X11_string_payload_witness :
  parse_str (dq "s:7:'hours:3'") = Raise ValueError
  /\ parse_str (dq "s:4:'day:'") = Raise ValueError
  /\ parse_str (dq "s:3:'a:c'") = Ok (Scalar (SStr "a:c"))
  /\ decode_text (dq "a:2:{s:7:'hours:3';i:1;}") = Raise ValueError.
Proof.
  destruct X11_string_payload_that_splits_raises as [Htok Hdec].
  split; [|split; [|split]].
  - apply (Htok "7" "hours:3"); reflexivity.
  - apply (Htok "4" "day:"); reflexivity.
  - apply (Htok "3" "a:c"); reflexivity.
  - apply (Hdec [EArr "2" [EStr "7" "hours:3" true; EInt "1" true]]);
      reflexivity.
Defined.

(** ** The decoder on a host *)

Module HostFacts.
Import Records Plain.

Lemma too_many_mono h m n :
  m <= n -> Host.too_many h n = false -> Host.too_many h m = false.
Proof.
  unfold Host.too_many. intros Hle H.
  destruct (Nat.ltb_spec 640 m), (Nat.ltb_spec 0 (Host.max_str_digits h)),
    (Nat.ltb_spec (Host.max_str_digits h) m); try reflexivity.
  destruct (Nat.ltb_spec 640 n), (Nat.ltb_spec (Host.max_str_digits h) n);
    try discriminate; lia.
Qed.

Lemma py_int_cases h value :
  Host.py_int h value = py_int value \/ Host.py_int h value = Raise ValueError.
Proof. unfold Host.py_int. destruct (Host.too_many h _); auto. Qed.

(** On the host a token of digits is read as the program reads it, or
    refused for its length. *)
Lemma parse_int_cases h substring :
  Host.parse_int h substring = parse_int substring
  \/ Host.parse_int h substring = Raise ValueError.
Proof.
  unfold Host.parse_int, parse_int.
  destruct (unpack2 (re_split colon substring)) as [value| |]; auto.
  destruct (py_int_cases h value) as [-> | ->]; auto.
Qed.

Lemma split_at_pieces cut : forall s prev piece,
  Forall (fun p => String.length p <= String.length piece + String.length s)
    (split_at cut prev piece s).
Proof.
  induction s as [|c s IH]; intros prev piece; cbn [split_at].
  - constructor; [lia | constructor].
  - destruct (cut prev (String c s)).
    + constructor; [lia|].
      eapply Forall_impl; [|apply IH]. simpl. intros p Hp. lia.
    + eapply Forall_impl; [|apply IH]. simpl. intros p Hp.
      rewrite length_append in Hp. simpl in *. lia.
Qed.

Lemma unpack2_piece substring value :
  unpack2 (re_split colon substring) = Ok value ->
  String.length value <= String.length substring.
Proof.
  pose proof (split_at_pieces colon substring None EmptyString) as H.
  unfold re_split.
  destruct (split_at colon None EmptyString substring) as [|a [|b [|c l]]];
    try discriminate.
  intros [= <-]. inversion H as [|? ? _ H']; subst.
  inversion H' as [|? ? Hb _]; subst. exact Hb.
Qed.

(** A token that is not longer than [int] takes is read as the program
    reads it. *)
Lemma parse_int_small h substring n :
  String.length substring <= n -> Host.too_many h n = false ->
  Host.parse_int h substring = parse_int substring.
Proof.
  intros Hlen Hn. unfold Host.parse_int, parse_int.
  destruct (unpack2 (re_split colon substring)) as [value| |] eqn:E;
    try reflexivity.
  apply unpack2_piece in E. unfold Host.py_int.
  now rewrite (too_many_mono h (String.length value) n) by (assumption || lia).
Qed.

Lemma parse_int_short h digits :
  number digits = true ->
  Host.too_many h (String.length digits) = false ->
  Host.parse_int h ("i:" ++ digits) = parse_int ("i:" ++ digits).
Proof.
  intros Hnum Hshort. apply number_run in Hnum as [Hne Hall].
  unfold Host.parse_int, parse_int, re_split.
  change (split_at colon None EmptyString ("i:" ++ digits))
    with ("i" :: split_at colon (Some ":"%char) EmptyString digits).
  rewrite SplitFacts.split_at_no_cut
    by (apply SplitFacts.cuts_run;
        [apply SplitFacts.colon_cuts_at_colons
        | now apply SplitFacts.digits_no_colon]).
  cbn [unpack2]. unfold Host.py_int.
  change (EmptyString ++ digits)%string with digits. now rewrite Hshort.
Qed.

Lemma host_nestLevel_eq h fuel frames currentList keyData :
  Host.nestLevel h (S fuel) frames currentList keyData =
  match keyData with
  | EmptyString => (Host.Ends (Ok currentList), keyData)
  | _ =>
      if (frames <? Host.search_frames h)%nat
      then (Host.Aborts Host.RecursionError, keyData)
      else
      match search lexer keyData with
      | None => (Host.Ends (Raise (InvalidArrayFormat keyData)), keyData)
      | Some (start, end_) =>
          let substring := strip_semicolon (slice_to end_ keyData) in
          let keyData := slice_from end_ keyData in
          if startswith substring "a" then
            Host.and_then
              (Host.call frames (fun room => Host.nestLevel h fuel room []))
              (fun sub =>
                 Host.nestLevel h fuel frames (currentList ++ [List sub]))
              keyData
          else if startswith substring "i" then
            Host.and_then (Host.ends (Host.parse_int h substring))
              (fun value =>
                 Host.nestLevel h fuel frames (currentList ++ [value]))
              keyData
          else if startswith substring "s" then
            Host.and_then
              (Host.library frames (Host.split_frames h)
                 (parse_str substring))
              (fun value =>
                 Host.nestLevel h fuel frames (currentList ++ [value]))
              keyData
          else if startswith substring "b" then
            Host.and_then (Host.ends (parse_bool substring))
              (fun value =>
                 Host.nestLevel h fuel frames (currentList ++ [value]))
              keyData
          else if startswith substring "}" then
            (Host.Ends (Ok currentList), keyData)
          else Host.nestLevel h fuel frames currentList keyData
      end
  end.
Proof. reflexivity. Qed.

(** What the host adds to a run: it may stop it with [RecursionError], or
    refuse a token of digits with [ValueError]; a run that it lets through
    ends as the run of the program alone. *)
Lemma host_nestLevel_refines h : forall fuel frames currentList keyData e k,
  Host.nestLevel h fuel frames currentList keyData = (e, k) ->
  match e with
  | Host.Ends r =>
      nestLevel fuel currentList keyData = (r, k) \/ r = Raise ValueError
  | Host.Aborts err => err = Host.RecursionError
  end.
Proof.
  induction fuel as [|fuel IH]; intros frames cur kd e k H.
  - injection H as <- <-. now left.
  - rewrite host_nestLevel_eq in H. rewrite nestLevel_eq.
    destruct kd as [|c kd0]; [injection H as <- <-; now left|].
    destruct (frames <? Host.search_frames h)%nat;
      [injection H as <- <-; reflexivity|].
    destruct (search lexer (String c kd0)) as [[st en]|];
      [|injection H as <- <-; now left].
    cbv zeta in H |- *.
    set (kd' := slice_from en (String c kd0)) in *.
    set (substring := strip_semicolon (slice_to en (String c kd0))) in *.
    assert (Hpure : forall o : outcome Node,
      Host.and_then (Host.ends o)
        (fun value => Host.nestLevel h fuel frames (cur ++ [value])) kd'
      = (e, k) ->
      match e with
      | Host.Ends r =>
          (value <- lift o ;; nestLevel fuel (cur ++ [value])) kd' = (r, k)
          \/ r = Raise ValueError
      | Host.Aborts err => err = Host.RecursionError
      end).
    { intros o Ho. unfold Host.and_then, Host.ends in Ho. unfold bind, lift.
      destruct o as [v|err|].
      - now apply IH in Ho.
      - injection Ho as <- <-. now left.
      - injection Ho as <- <-. now left. }
    destruct (startswith substring "a").
    { unfold Host.and_then, Host.call in H. unfold bind.
      destruct frames as [|room]; [injection H as <- <-; reflexivity|].
      destruct (Host.nestLevel h fuel room [] kd') as [e1 k1] eqn:E1.
      apply IH in E1.
      destruct e1 as [[sub|err|]|err].
      - destruct E1 as [E1|E1]; [|discriminate]. rewrite E1.
        now apply IH in H.
      - injection H as <- <-. destruct E1 as [E1| ->]; [|now right].
        rewrite E1. now left.
      - injection H as <- <-. destruct E1 as [E1|E1]; [|discriminate].
        rewrite E1. now left.
      - injection H as <- <-. exact E1. }
    destruct (startswith substring "i").
    { destruct (parse_int_cases h substring) as [Hp|Hp]; rewrite Hp in H.
      - now apply Hpure.
      - injection H as <- <-. now right. }
    destruct (startswith substring "s").
    { unfold Host.library in H.
      destruct (frames <? Host.split_frames h)%nat;
        [injection H as <- <-; reflexivity | now apply Hpure]. }
    destruct (startswith substring "b"); [now apply Hpure|].
    destruct (startswith substring "}"); [injection H as <- <-; now left|].
    now apply IH in H.
Qed.

(** *** The lists that nestLevel builds are no deeper than its stack *)

Lemma nesting_with_le l m :
  Forall (fun n => Host.nesting n <= m) l <->
  Host.nesting_with Host.nesting l <= m.
Proof.
  induction l as [|n l IH]; cbn [Host.nesting_with].
  - split; [lia | constructor].
  - split.
    + intros H. inversion H as [|? ? Hn Hl]; subst. apply IH in Hl. lia.
    + intros H. constructor; [lia | apply IH; lia].
Qed.

Lemma parse_int_scalar h substring v :
  Host.parse_int h substring = Ok v -> Host.nesting v = 0.
Proof.
  unfold Host.parse_int.
  destruct (unpack2 _) as [value| |]; try discriminate.
  destruct (Host.py_int h value); try discriminate. now intros [= <-].
Qed.

Lemma parse_str_scalar substring v :
  parse_str substring = Ok v -> Host.nesting v = 0.
Proof.
  unfold parse_str. destruct (unpack3 _); try discriminate. now intros [= <-].
Qed.

Lemma parse_bool_scalar substring v :
  parse_bool substring = Ok v -> Host.nesting v = 0.
Proof.
  unfold parse_bool. destruct (unpack2 _); try discriminate. now intros [= <-].
Qed.

Lemma host_nestLevel_nesting h : forall fuel frames currentList keyData l k,
  Host.nestLevel h fuel frames currentList keyData = (Host.Ends (Ok l), k) ->
  Forall (fun n => Host.nesting n <= frames) currentList ->
  Forall (fun n => Host.nesting n <= frames) l.
Proof.
  induction fuel as [|fuel IH]; intros frames cur kd l k H Hcur;
    [discriminate|].
  rewrite host_nestLevel_eq in H.
  destruct kd as [|c kd0]; [now injection H as <- <-|].
  destruct (frames <? Host.search_frames h)%nat; [discriminate|].
  destruct (search lexer (String c kd0)) as [[st en]|]; [|discriminate].
  cbv zeta in H.
  set (kd' := slice_from en (String c kd0)) in *.
  set (substring := strip_semicolon (slice_to en (String c kd0))) in *.
  assert (Hpure : forall o : outcome Node,
    (forall v, o = Ok v -> Host.nesting v = 0) ->
    Host.and_then (Host.ends o)
      (fun value => Host.nestLevel h fuel frames (cur ++ [value])) kd'
    = (Host.Ends (Ok l), k) ->
    Forall (fun n => Host.nesting n <= frames) l).
  { intros o Hv Ho. unfold Host.and_then, Host.ends in Ho.
    destruct o as [v|err|]; try discriminate.
    apply (IH _ _ _ _ _ Ho). apply Forall_app. split; [assumption|].
    constructor; [|constructor]. rewrite (Hv v eq_refl). lia. }
  destruct (startswith substring "a").
  { unfold Host.and_then, Host.call in H.
    destruct frames as [|room]; [discriminate|].
    destruct (Host.nestLevel h fuel room [] kd') as [e1 k1] eqn:E1.
    destruct e1 as [[sub|err|]|err]; try discriminate.
    apply IH in E1; [|constructor].
    apply (IH _ _ _ _ _ H). apply Forall_app. split; [assumption|].
    constructor; [|constructor]. cbn [Host.nesting].
    apply nesting_with_le in E1. lia. }
  destruct (startswith substring "i");
    [now apply (Hpure _ (parse_int_scalar h substring))|].
  destruct (startswith substring "s").
  { unfold Host.library in H.
    destruct (frames <? Host.split_frames h)%nat; [discriminate|].
    now apply (Hpure _ (parse_str_scalar substring)). }
  destruct (startswith substring "b");
    [now apply (Hpure _ (parse_bool_scalar substring))|].
  destruct (startswith substring "}"); [now injection H as <- <-|].
  now apply (IH _ _ _ _ _ H).
Qed.

(** *** convert has the frames it needs *)

Lemma host_convert_with value_of value_of' l :
  Forall (fun val => value_of val = Host.Ends (value_of' val)) l ->
  forall d, Host.convert_with value_of l d
            = Host.Ends (convert_with value_of' l d).
Proof.
  induction l as [| x | key val rest IH] using pairs_ind; intros Hall d;
    try reflexivity.
  apply Forall_pairs in Hall as (_ & Hv & Hrest).
  cbn [Host.convert_with convert_with]. rewrite Hv.
  destruct (value_of' val) as [v|e|]; try reflexivity.
  destruct (setitem d key v) as [d'|e|]; try reflexivity.
  now apply IH.
Qed.

Lemma host_stored val : forall frames,
  Host.nesting val <= frames ->
  Host.stored frames val = Host.Ends (stored val).
Proof.
  induction val as [s|l IH] using Node_ind; intros frames Hn; [reflexivity|].
  cbn [Host.nesting] in Hn.
  destruct frames as [|room]; [lia|]. apply le_S_n in Hn.
  apply nesting_with_le in Hn.
  cbn [Host.stored stored].
  rewrite (host_convert_with (Host.stored room) stored).
  - now destruct (convert_with stored l []).
  - rewrite Forall_forall in IH, Hn |- *. intros val Hin.
    apply IH; [assumption | now apply Hn].
Qed.

Lemma host_convert frames l :
  Forall (fun n => Host.nesting n <= frames) l ->
  Host.convert frames l = Host.Ends (convert l).
Proof.
  intros Hall. apply host_convert_with.
  eapply Forall_impl; [|exact Hall]. intros val. apply host_stored.
Qed.

Lemma chars_scalars s frames :
  Forall (fun n => Host.nesting n <= frames) (chars s).
Proof.
  induction s as [|c s IH]; constructor; [simpl; lia | exact IH].
Qed.

Lemma host_convert_arg frames x :
  Host.nesting x <= S frames ->
  Host.convert_arg frames x = Host.Ends (convert_arg x).
Proof.
  destruct x as [[z|s|b]|l]; intros Hn; try reflexivity.
  - apply host_convert, chars_scalars.
  - apply host_convert. apply nesting_with_le.
    cbn [Host.nesting] in Hn. lia.
Qed.

(** *** decode on a host *)

(** What [decode] does on a host, given what [nestLevel] did there. *)
Lemma host_decode_text_of_run h room keyData r k :
  Host.nestLevel h (S (String.length keyData)) room [] keyData
  = (Host.Ends r, k) ->
  Host.decode_text h (S room) keyData = Host.Ends (finish r).
Proof.
  intros H. unfold Host.decode_text. rewrite H.
  destruct r as [[|x top]|e|]; try reflexivity.
  cbn [finish convert_first]. apply host_convert_arg.
  apply host_nestLevel_nesting in H; [|constructor].
  inversion H; subst. lia.
Qed.

Lemma decode_text_finish keyData r k :
  nestLevel (S (String.length keyData)) [] keyData = (r, k) ->
  decode_text keyData = finish r.
Proof. intros H. unfold decode_text. rewrite H. now destruct r. Qed.

(** The host stops [decode] with [RecursionError], or refuses a token of
    digits, or lets it end as the program alone does. *)
Lemma host_decode_text_cases h frames keyData :
  Host.decode_text h frames keyData = Host.Aborts Host.RecursionError
  \/ Host.decode_text h frames keyData = Host.Ends (Raise ValueError)
  \/ Host.decode_text h frames keyData = Host.Ends (decode_text keyData).
Proof.
  destruct frames as [|room]; [now left|].
  destruct (Host.nestLevel h (S (String.length keyData)) room [] keyData)
    as [e k] eqn:E.
  pose proof (host_nestLevel_refines h _ _ _ _ _ _ E) as Hr.
  destruct e as [r|err].
  - rewrite (host_decode_text_of_run _ _ _ _ _ E).
    destruct Hr as [Hr| ->]; [|now right; left].
    right. right. now rewrite (decode_text_finish _ _ _ Hr).
  - subst err. left. unfold Host.decode_text. now rewrite E.
Qed.



(** *** Texts within the bounds of the host *)

Lemma library_frames_le h frames n :
  n + Host.library_frames h <= frames ->
  (frames <? Host.search_frames h)%nat = false
  /\ (frames <? Host.split_frames h)%nat = false.
Proof.
  unfold Host.library_frames. intros H.
  split; apply Nat.ltb_ge; lia.
Qed.

Lemma host_nestLevel_token h fuel frames currentList token rest :
  token <> EmptyString ->
  search lexer (token ++ rest) = Some (0, String.length token) ->
  (frames <? Host.search_frames h)%nat = false ->
  Host.nestLevel h (S fuel) frames currentList (token ++ rest)%string =
  let substring := strip_semicolon token in
  if startswith substring "a" then
    Host.and_then
      (Host.call frames (fun room => Host.nestLevel h fuel room []))
      (fun sub => Host.nestLevel h fuel frames (currentList ++ [List sub]))
      rest
  else if startswith substring "i" then
    Host.and_then (Host.ends (Host.parse_int h substring))
      (fun value => Host.nestLevel h fuel frames (currentList ++ [value]))
      rest
  else if startswith substring "s" then
    Host.and_then
      (Host.library frames (Host.split_frames h) (parse_str substring))
      (fun value => Host.nestLevel h fuel frames (currentList ++ [value]))
      rest
  else if startswith substring "b" then
    Host.and_then (Host.ends (parse_bool substring))
      (fun value => Host.nestLevel h fuel frames (currentList ++ [value]))
      rest
  else if startswith substring "}" then (Host.Ends (Ok currentList), rest)
  else Host.nestLevel h fuel frames currentList rest.
Proof.
  intros Hne Hs Hframes. rewrite host_nestLevel_eq, Hs, Hframes.
  rewrite slice_to_append, slice_from_append.
  destruct token as [|c token]; [contradiction | reflexivity].
Qed.

Lemma host_close h frames rest :
  (frames <? Host.search_frames h)%nat = false ->
  forall fuel currentList,
    Host.nestLevel h fuel frames currentList (String "}" rest)
    = Host.unbounded (nestLevel fuel currentList (String "}" rest)).
Proof.
  intros Hframes [|fuel] cur; [reflexivity|].
  rewrite host_nestLevel_eq, Hframes. reflexivity.
Qed.

Lemma host_end h frames fuel currentList :
  Host.nestLevel h fuel frames currentList EmptyString
  = Host.unbounded (nestLevel fuel currentList EmptyString).
Proof. now destruct fuel. Qed.

(** A value built without a call: the run goes on as the program's. *)
Lemma host_append h fuel frames currentList rest (o : outcome Node) :
  (forall fuel currentList,
     Host.nestLevel h fuel frames currentList rest
     = Host.unbounded (nestLevel fuel currentList rest)) ->
  Host.and_then (Host.ends o)
    (fun value => Host.nestLevel h fuel frames (currentList ++ [value])) rest
  = Host.unbounded
      ((value <- lift o ;; nestLevel fuel (currentList ++ [value])) rest).
Proof.
  intros Hrest. unfold Host.and_then, Host.ends, bind, lift.
  destruct o as [v|e|]; [apply Hrest | reflexivity | reflexivity].
Qed.

Lemma host_items h items :
  Forall (fun e =>
    wf e = true -> Host.short h e = true ->
    forall frames rest,
      Host.depth e + Host.library_frames h <= frames ->
      safe_follow rest = true ->
      (forall fuel currentList,
         Host.nestLevel h fuel frames currentList rest
         = Host.unbounded (nestLevel fuel currentList rest)) ->
      forall fuel currentList,
        Host.nestLevel h fuel frames currentList (render e ++ rest)%string
        = Host.unbounded (nestLevel fuel currentList (render e ++ rest)%string))
    items ->
  forallb wf items = true -> forallb (Host.short h) items = true ->
  forall frames rest,
    Host.depth_list items + Host.library_frames h <= frames ->
    safe_follow rest = true ->
    (forall fuel currentList,
       Host.nestLevel h fuel frames currentList rest
       = Host.unbounded (nestLevel fuel currentList rest)) ->
    forall fuel currentList,
      Host.nestLevel h fuel frames currentList (render_list items ++ rest)%string
      = Host.unbounded (nestLevel fuel currentList (render_list items ++ rest)%string).
Proof.
  induction 1 as [|e items He _ IH];
    intros Hwf Hshort frames rest Hd Hsafe Hrest; [exact Hrest|].
  cbn [forallb] in Hwf, Hshort.
  apply andb_true_iff in Hwf as [Hwe Hwi].
  apply andb_true_iff in Hshort as [Hse Hsi].
  unfold Host.depth_list in Hd. cbn [Host.depth_with] in Hd.
  fold (Host.depth_list items) in Hd.
  change (render_list (e :: items))
    with (render e ++ render_list items)%string.
  rewrite append_assoc.
  apply (He Hwe Hse); [lia | now apply safe_follow_render_list |].
  apply IH; [assumption.. | lia | assumption | assumption].
Qed.

Lemma host_elem h e :
  wf e = true -> Host.short h e = true ->
  forall frames rest,
    Host.depth e + Host.library_frames h <= frames ->
    safe_follow rest = true ->
    (forall fuel currentList,
       Host.nestLevel h fuel frames currentList rest
       = Host.unbounded (nestLevel fuel currentList rest)) ->
    forall fuel currentList,
      Host.nestLevel h fuel frames currentList (render e ++ rest)%string
      = Host.unbounded (nestLevel fuel currentList (render e ++ rest)%string).
Proof.
  induction e as [d s|l p s|b s|c items IH] using elem_ind;
    intros Hwf Hshort frames rest Hd Hsafe Hrest [|fuel] cur;
    try reflexivity;
    destruct (library_frames_le h frames _ Hd) as [Hsearch Hsplit].
  - change (render (EInt d s)) with ("i:" ++ d ++ semicolon s)%string.
    rewrite host_nestLevel_token;
      [|discriminate | now apply lexer_int | assumption].
    rewrite nestLevel_token; [|discriminate | now apply lexer_int].
    rewrite strip_int by assumption. cbv zeta.
    change (startswith ("i:" ++ d) "a") with false.
    change (startswith ("i:" ++ d) "i") with true. cbv iota.
    cbn [Host.short] in Hshort. apply negb_true_iff in Hshort.
    rewrite parse_int_short by assumption.
    now apply host_append.
  - pose proof Hwf as Hwf'. cbn [wf] in Hwf'.
    apply andb_true_iff in Hwf' as [Hnum Hpay].
    change (render (EStr l p s))
      with ("s:" ++ l ++ ":" ++ quoted p ++ semicolon s)%string.
    rewrite host_nestLevel_token;
      [|discriminate | now apply lexer_str | assumption].
    rewrite nestLevel_token; [|discriminate | now apply lexer_str].
    rewrite strip_str. cbv zeta.
    change (startswith ("s:" ++ l ++ ":" ++ quoted p) "a") with false.
    change (startswith ("s:" ++ l ++ ":" ++ quoted p) "i") with false.
    change (startswith ("s:" ++ l ++ ":" ++ quoted p) "s") with true.
    cbv iota. unfold Host.library. rewrite Hsplit.
    now apply host_append.
  - change (render (EBool b s))
      with ("b:" ++ (if b then "1" else "0") ++ semicolon s)%string.
    rewrite host_nestLevel_token;
      [|discriminate | now apply lexer_bool | assumption].
    rewrite nestLevel_token; [|discriminate | now apply lexer_bool].
    rewrite strip_bool. cbv zeta.
    change (startswith ("b:" ++ (if b then "1" else "0")) "a") with false.
    change (startswith ("b:" ++ (if b then "1" else "0")) "i") with false.
    change (startswith ("b:" ++ (if b then "1" else "0")) "s") with false.
    change (startswith ("b:" ++ (if b then "1" else "0")) "b") with true.
    cbv iota. now apply host_append.
  - cbn [wf] in Hwf. apply andb_true_iff in Hwf as [Hnum Hwi].
    cbn [Host.short] in Hshort. cbn [Host.depth] in Hd.
    fold (Host.depth_list items) in Hd.
    destruct frames as [|room]; [lia|].
    change (render (EArr c items))
      with (open_tag c ++ render_list items ++ "}")%string.
    rewrite !append_assoc. change ("}" ++ rest)%string with (String "}" rest).
    rewrite host_nestLevel_token;
      [|now destruct c | now apply lexer_open | assumption].
    rewrite nestLevel_token; [|now destruct c | now apply lexer_open].
    rewrite strip_open. cbv zeta.
    change (startswith (open_tag c) "a") with true. cbv iota.
    unfold Host.and_then, Host.call, bind.
    assert (Hroom : Host.depth_list items + Host.library_frames h <= room)
      by lia.
    rewrite (host_items h items IH Hwi Hshort room (String "}" rest) Hroom
               eq_refl
               (host_close h room rest
                  (proj1 (library_frames_le h room _ Hroom)))).
    destruct (nestLevel fuel [] (render_list items ++ String "}" rest)%string)
      as [r1 k1] eqn:E1.
    unfold Host.unbounded at 1. cbn [fst snd].
    destruct r1 as [sub|e|]; try reflexivity.
    assert (Hk : k1 = rest).
    { assert (Hrun : runs [] (render_list items ++ String "}" rest)%string
                       (Ok sub) k1)
        by (exists fuel; split; [exact E1 | discriminate]).
      pose proof (continues_list items Hwi (String "}" rest) [] eq_refl)
        as Hin.
      unfold continues in Hin.
      destruct (nodes_of items) as [ns|err|]; [| |contradiction].
      - specialize (Hin _ _ (runs_close ([] ++ ns) rest)).
        now destruct (runs_deterministic _ _ _ _ _ _ Hrun Hin).
      - destruct Hin as [k' Hk'].
        now destruct (runs_deterministic _ _ _ _ _ _ Hrun Hk'). }
    subst k1. apply Hrest.
Qed.

Lemma host_render_list h items :
  forallb wf items = true -> forallb (Host.short h) items = true ->
  forall frames rest,
    Host.depth_list items + Host.library_frames h <= frames ->
    safe_follow rest = true ->
    (forall fuel currentList,
       Host.nestLevel h fuel frames currentList rest
       = Host.unbounded (nestLevel fuel currentList rest)) ->
    forall fuel currentList,
      Host.nestLevel h fuel frames currentList (render_list items ++ rest)%string
      = Host.unbounded (nestLevel fuel currentList (render_list items ++ rest)%string).
Proof.
  apply host_items, Forall_forall. intros e _. apply host_elem.
Qed.

(** On a text of the grammar whose numbers [int] takes, with a frame for
    each array that is open at a time and frames for the library, [decode]
    ends on the host as the program alone does. *)
Lemma host_decode_text_within h frames items :
  forallb wf items = true -> forallb (Host.short h) items = true ->
  Host.depth_list items + Host.library_frames h < frames ->
  Host.decode_text h frames (render_list items)
  = Host.Ends (decode_text (render_list items)).
Proof.
  intros Hwf Hshort Hd. destruct frames as [|room]; [lia|].
  pose proof (host_render_list h items Hwf Hshort room EmptyString
                ltac:(lia) eq_refl (host_end h room)
                (S (String.length (render_list items))) []) as H.
  rewrite append_nil_r in H.
  destruct (nestLevel (S (String.length (render_list items))) []
              (render_list items)) as [r k] eqn:E.
  rewrite (host_decode_text_of_run _ _ _ _ _ H).
  now rewrite (decode_text_finish _ _ _ E).
Qed.

(** *** Short texts *)

Lemma length_drop_last s : String.length (drop_last s) <= String.length s.
Proof.
  induction s as [|c s IH]; [simpl; lia|].
  destruct s as [|c' s']; [simpl; lia|].
  change (drop_last (String c (String c' s')))
    with (String c (drop_last (String c' s'))).
  simpl String.length in *. lia.
Qed.

Lemma length_strip_semicolon s :
  String.length (strip_semicolon s) <= String.length s.
Proof.
  unfold strip_semicolon. destruct (endswith s ";"); [|lia].
  apply length_drop_last.
Qed.

Lemma length_slice_to n s : String.length (slice_to n s) <= String.length s.
Proof.
  revert s. induction n as [|n IH]; intros [|c s]; simpl; try lia.
  specialize (IH s). lia.
Qed.

(** A text shorter than the stack, and no longer than the digits that
    [int] takes, meets no bound. *)
Lemma host_nestLevel_small h : forall fuel frames currentList keyData,
  String.length keyData + Host.library_frames h <= frames ->
  Host.too_many h (String.length keyData) = false ->
  Host.nestLevel h fuel frames currentList keyData
  = Host.unbounded (nestLevel fuel currentList keyData).
Proof.
  induction fuel as [|fuel IH]; intros frames cur kd Hlen Hdig;
    [reflexivity|].
  rewrite host_nestLevel_eq, nestLevel_eq.
  destruct kd as [|c kd0]; [reflexivity|].
  destruct (library_frames_le h frames _ Hlen) as [Hsearch Hsplit].
  rewrite Hsearch.
  destruct (search lexer (String c kd0)) as [[st en]|] eqn:Hs;
    [|reflexivity].
  apply search_lexer_span in Hs as [_ Hen].
  set (kd := String c kd0) in *. cbv zeta.
  set (kd' := slice_from en kd).
  set (substring := strip_semicolon (slice_to en kd)).
  assert (Hkd' : String.length kd' < String.length kd)
    by (unfold kd'; rewrite length_slice_from; lia).
  assert (Hgo : forall l,
    Host.nestLevel h fuel frames l kd'
    = Host.unbounded (nestLevel fuel l kd')).
  { intros l. apply IH; [lia|].
    apply (too_many_mono h _ (String.length kd)); [lia | assumption]. }
  assert (Hpure : forall o : outcome Node,
    Host.and_then (Host.ends o)
      (fun value => Host.nestLevel h fuel frames (cur ++ [value])) kd'
    = Host.unbounded
        ((value <- lift o ;; nestLevel fuel (cur ++ [value])) kd')).
  { intros o. unfold Host.and_then, Host.ends, bind, lift.
    destruct o as [v|e|]; [apply Hgo | reflexivity | reflexivity]. }
  destruct (startswith substring "a").
  { unfold Host.and_then, Host.call, bind.
    destruct frames as [|room]; [lia|].
    rewrite (IH room [] kd');
      [| lia
       | apply (too_many_mono h _ (String.length kd)); [lia | assumption]].
    destruct (nestLevel fuel [] kd') as [r1 k1] eqn:E1.
    unfold Host.unbounded at 1. cbn [fst snd].
    destruct r1 as [sub|e|]; try reflexivity.
    destruct (nestLevel_leaves_suffix _ _ _ _ _ E1) as [consumed Hc].
    assert (Hk1 : String.length k1 <= String.length kd')
      by (rewrite Hc, length_append; lia).
    apply IH; [lia|].
    apply (too_many_mono h _ (String.length kd)); [lia | assumption]. }
  destruct (startswith substring "i").
  { rewrite (parse_int_small h substring (String.length kd)); [apply Hpure| |assumption].
    unfold substring.
    pose proof (length_strip_semicolon (slice_to en kd)).
    pose proof (length_slice_to en kd). lia. }
  destruct (startswith substring "s").
  { unfold Host.library. rewrite Hsplit. apply Hpure. }
  destruct (startswith substring "b"); [apply Hpure|].
  destruct (startswith substring "}"); [reflexivity|].
  apply Hgo.
Qed.

Lemma host_decode_text_small h frames keyData :
  String.length keyData + Host.library_frames h < frames ->
  Host.too_many h (String.length keyData) = false ->
  Host.decode_text h frames keyData = Host.Ends (decode_text keyData).
Proof.
  intros Hlen Hdig. destruct frames as [|room]; [lia|].
  pose proof (host_nestLevel_small h (S (String.length keyData)) room []
                keyData ltac:(lia) Hdig) as H.
  destruct (nestLevel (S (String.length keyData)) [] keyData)
    as [r k] eqn:E.
  rewrite (host_decode_text_of_run _ _ _ _ _ H).
  now rewrite (decode_text_finish _ _ _ E).
Qed.



(** *** More arrays than frames *)

Lemma render_levels_opens n :
  render_levels (repeat ("0", []) (S n))
  = (open_tag "0" ++ render_levels (repeat ("0", []) n))%string.
Proof. reflexivity. Qed.

Lemma length_render_levels_opens n :
  n <= String.length (render_levels (repeat ("0", []) n)).
Proof.
  induction n as [|n IH]; [simpl; lia|].
  rewrite render_levels_opens, length_append.
  change (String.length (open_tag "0")) with 5. lia.
Qed.

Lemma host_nestLevel_stack h fuel frames currentList keyData :
  keyData <> EmptyString ->
  (frames <? Host.search_frames h)%nat = true ->
  Host.nestLevel h (S fuel) frames currentList keyData
  = (Host.Aborts Host.RecursionError, keyData).
Proof.
  intros Hne Hs. rewrite host_nestLevel_eq.
  destruct keyData; [contradiction|]. now rewrite Hs.
Qed.

(** A run that has to open more arrays than it has frames is stopped. *)
Lemma host_nestLevel_overflow h : forall frames n fuel currentList,
  frames < n -> frames < fuel ->
  exists k,
    Host.nestLevel h fuel frames currentList
      (render_levels (repeat ("0", []) n))
    = (Host.Aborts Host.RecursionError, k).
Proof.
  induction frames as [|room IH]; intros n fuel cur Hn Hfuel;
    (destruct n as [|n]; [lia|]); (destruct fuel as [|fuel]; [lia|]);
    rewrite render_levels_opens.
  - destruct (0 <? Host.search_frames h)%nat eqn:Hs.
    + eexists. apply host_nestLevel_stack; [discriminate | assumption].
    + rewrite host_nestLevel_token;
        [|discriminate | now apply lexer_open | assumption].
      eexists. reflexivity.
  - destruct (S room <? Host.search_frames h)%nat eqn:Hs.
    + eexists. apply host_nestLevel_stack; [discriminate | assumption].
    + rewrite host_nestLevel_token;
        [|discriminate | now apply lexer_open | assumption].
      rewrite strip_open. cbv zeta.
      change (startswith (open_tag "0") "a") with true. cbv iota.
      unfold Host.and_then, Host.call.
      destruct (IH n fuel [] ltac:(lia) ltac:(lia)) as [k Hk].
      rewrite Hk. now exists k.
Qed.

Lemma host_decode_text_overflow h frames n :
  frames <= n ->
  Host.decode_text h frames (render_levels (repeat ("0", []) n))
  = Host.Aborts Host.RecursionError.
Proof.
  intros Hn. destruct frames as [|room]; [reflexivity|].
  pose proof (length_render_levels_opens n) as Hlen.
  destruct (host_nestLevel_overflow h room n
              (S (String.length (render_levels (repeat ("0", []) n)))) []
              ltac:(lia) ltac:(lia)) as [k Hk].
  unfold Host.decode_text. now rewrite Hk.
Qed.

(** *** More digits than int takes *)

Lemma parse_int_long h digits :
  number digits = true ->
  Host.too_many h (String.length digits) = true ->
  Host.parse_int h ("i:" ++ digits) = Raise ValueError.
Proof.
  intros Hnum Hlong. apply number_run in Hnum as [Hne Hall].
  unfold Host.parse_int, re_split.
  change (split_at colon None EmptyString ("i:" ++ digits))
    with ("i" :: split_at colon (Some ":"%char) EmptyString digits).
  rewrite SplitFacts.split_at_no_cut
    by (apply SplitFacts.cuts_run;
        [apply SplitFacts.colon_cuts_at_colons
        | now apply SplitFacts.digits_no_colon]).
  cbn [unpack2]. unfold Host.py_int.
  change (EmptyString ++ digits)%string with digits. now rewrite Hlong.
Qed.

Lemma host_nestLevel_long_int h fuel frames currentList digits semi rest :
  number digits = true ->
  Host.too_many h (String.length digits) = true ->
  safe_follow rest = true ->
  (frames <? Host.search_frames h)%nat = false ->
  Host.nestLevel h (S fuel) frames currentList
    (render (EInt digits semi) ++ rest)%string
  = (Host.Ends (Raise ValueError), rest).
Proof.
  intros Hnum Hlong Hsafe Hframes.
  change (render (EInt digits semi))
    with ("i:" ++ digits ++ semicolon semi)%string.
  rewrite host_nestLevel_token;
    [|discriminate | now apply lexer_int | assumption].
  rewrite strip_int by assumption. cbv zeta.
  change (startswith ("i:" ++ digits) "a") with false.
  change (startswith ("i:" ++ digits) "i") with true. cbv iota.
  now rewrite parse_int_long.
Qed.

(** A text that starts with an integer token of more digits than [int]
    takes. *)
Lemma host_decode_text_long_int h frames digits semi rest :
  number digits = true ->
  Host.too_many h (String.length digits) = true ->
  safe_follow rest = true ->
  Host.search_frames h < frames ->
  Host.decode_text h frames (render (EInt digits semi) ++ rest)
  = Host.Ends (Raise ValueError).
Proof.
  intros Hnum Hlong Hsafe Hframes. destruct frames as [|room]; [lia|].
  unfold Host.decode_text.
  rewrite host_nestLevel_long_int;
    [reflexivity | assumption.. | apply Nat.ltb_ge; lia].
Qed.

(** An array that starts with such a token. *)
Lemma host_decode_text_long_int_in_array h frames count digits semi rest :
  number count = true -> number digits = true ->
  Host.too_many h (String.length digits) = true ->
  safe_follow rest = true ->
  S (Host.search_frames h) < frames ->
  Host.decode_text h frames
    (open_tag count ++ render (EInt digits semi) ++ rest)
  = Host.Ends (Raise ValueError).
Proof.
  intros Hcount Hnum Hlong Hsafe Hframes.
  destruct frames as [|[|room]]; try lia.
  unfold Host.decode_text.
  rewrite host_nestLevel_token;
    [|now destruct count | now apply lexer_open | apply Nat.ltb_ge; lia].
  rewrite strip_open. cbv zeta.
  change (startswith (open_tag count) "a") with true. cbv iota.
  unfold Host.and_then, Host.call.
  destruct (String.length
              (open_tag count ++ render (EInt digits semi) ++ rest))
    as [|fuel] eqn:Hlen.
  { apply (f_equal (fun n => n =? 0)%nat) in Hlen.
    rewrite length_append in Hlen. now destruct count. }
  rewrite host_nestLevel_long_int;
    [reflexivity | assumption.. | apply Nat.ltb_ge; lia].
Qed.

(** *** The nodes of a text of the grammar *)

Lemma nestLevel_plain items :
  forallb wf items = true -> forallb clean items = true ->
  nestLevel (S (String.length (render_list items))) [] (render_list items)
  = (Ok (map plain items), EmptyString).
Proof.
  intros Hwf Hclean. apply runs_nestLevel.
  pose proof (continues_list items Hwf EmptyString [] eq_refl) as H.
  rewrite (PlainFacts.nodes_of_plain items Hwf), Hclean in H.
  unfold continues in H. rewrite append_nil_r in H.
  apply H. apply runs_empty.
Qed.

(** How the program alone ends. *)
Lemma decode_text_endings keyData :
  (exists d, decode_text keyData = Ok d)
  \/ decode_text keyData = Raise ValueError
  \/ decode_text keyData = Raise IndexError
  \/ decode_text keyData = Raise TypeError
  \/ exists consumed text,
       decode_text keyData = Raise (InvalidArrayFormat text)
       /\ text <> EmptyString
       /\ keyData = (consumed ++ text)%string.
Proof.
  destruct (runs_total [] keyData) as (r & k & Hr).
  rewrite (decode_text_runs _ _ _ Hr). destruct Hr as (fuel & Hrun & Hfuel).
  destruct r as [top|e|]; simpl; [| |contradiction].
  - destruct top as [|x top]; simpl; [auto|].
    pose proof (convert_arg_raises x) as Hraise.
    pose proof (convert_fuel) as Hf.
    destruct (convert_arg x) as [d|e|] eqn:Hc; [eauto | |].
    + rewrite (Hraise e eq_refl). auto.
    + exfalso. destruct x as [[z|s|b]|l]; simpl in Hc; try discriminate;
        now apply Hf in Hc.
  - destruct (nestLevel_raises _ _ _ _ _ Hrun) as [->|[-> Hne]]; [auto|].
    destruct (nestLevel_leaves_suffix _ _ _ _ _ Hrun) as [consumed Hc].
    right. right. right. right. exists consumed, k. auto.
Qed.

End HostFacts.

(** X9: how [decode] ends, on every text and every host.  It always ends,
    since every round of [nestLevel] takes at least one character, and in
    one of six ways: with a record; with [InvalidArrayFormat], which then
    carries the part of the text that was not consumed, a non-empty end of
    the text; with [ValueError] (from taking a token apart, or from [int]
    on too many digits); with [IndexError] (no top-level element); with
    [TypeError] (from [convert]); or with [RecursionError], when the stack
    does not have the frames for the arrays that are open at a time.  The
    bounds of the host are the only difference to the program alone: a run
    that is neither stopped for the stack nor ends with [ValueError] ends
    as the program alone does, and so does every run on a text that is
    shorter than the stack and than the digits [int] takes; while the text
    of [n] opening tags [a:0:{], never closed, is stopped with
    [RecursionError] on every host that has [n] frames or fewer. *)
Theorem X9_decode_ends_with_a_record_or_one_of_five_errors :
  forall h frames keyData,
    ((exists d, Host.decode_text h frames keyData = Host.Ends (Ok d))
     \/ Host.decode_text h frames keyData = Host.Ends (Raise ValueError)
     \/ Host.decode_text h frames keyData = Host.Ends (Raise IndexError)
     \/ Host.decode_text h frames keyData = Host.Ends (Raise TypeError)
     \/ (exists consumed text,
           Host.decode_text h frames keyData
           = Host.Ends (Raise (InvalidArrayFormat text))
           /\ text <> EmptyString
           /\ keyData = (consumed ++ text)%string)
     \/ Host.decode_text h frames keyData = Host.Aborts Host.RecursionError)
    /\ (Host.decode_text h frames keyData = Host.Aborts Host.RecursionError
        \/ Host.decode_text h frames keyData = Host.Ends (Raise ValueError)
        \/ Host.decode_text h frames keyData
           = Host.Ends (decode_text keyData))
    /\ (String.length keyData + Host.library_frames h < frames ->
        Host.too_many h (String.length keyData) = false ->
        Host.decode_text h frames keyData = Host.Ends (decode_text keyData))
    /\ (forall n,
          frames <= n ->
          Host.decode_text h frames (render_levels (repeat ("0", []) n))
          = Host.Aborts Host.RecursionError).
Proof.
  intros h frames kd.
  pose proof (HostFacts.host_decode_text_cases h frames kd) as Hcases.
  split; [|split; [exact Hcases|split]].
  - destruct Hcases as [H|[H|H]]; rewrite H; auto 10.
    destruct (HostFacts.decode_text_endings kd)
      as [[d Hd]|[Hd|[Hd|[Hd|(consumed & text & Hd & Hne & Hc)]]]];
      rewrite Hd; eauto 10.
  - apply HostFacts.host_decode_text_small.
  - intros n. apply HostFacts.host_decode_text_overflow.
Qed.

Lemma X9_decode_ends_witness :
  Host.decode_text
    {| Host.max_str_digits := 4300; Host.search_frames := 2;
       Host.split_frames := 2 |} 30 (dq "a:2:{s:1:'k';i:7;}")
  = Host.Ends (Ok [(SStr "k", VScalar (SInt 7))])
  /\ Host.decode_text
       {| Host.max_str_digits := 4300; Host.search_frames := 2;
          Host.split_frames := 2 |} 3 "a:0:{a:0:{a:0:{"
     = Host.Aborts Host.RecursionError.
Proof.
  split.
  - apply (eq_trans
             (proj1 (proj2 (proj2
                (X9_decode_ends_with_a_record_or_one_of_five_errors
                   {| Host.max_str_digits := 4300; Host.search_frames := 2;
                      Host.split_frames := 2 |} 30
                   (dq "a:2:{s:1:'k';i:7;}"))))
                ltac:(vm_compute; lia) eq_refl)).
    reflexivity.
  - apply (proj2 (proj2 (proj2
             (X9_decode_ends_with_a_record_or_one_of_five_errors
                {| Host.max_str_digits := 4300; Host.search_frames := 2;
                   Host.split_frames := 2 |} 3 EmptyString))) 3).
    lia.
Defined.

(** X10: on a text of the grammar whose string payloads can be taken
    apart, whose integer tokens have no more digits than [int] takes, and
    with a frame for every array that is open at a time beside the frames
    of the library, [nestLevel] builds the nodes one reads off the text:
    the number of each integer token (leading zeros allowed), the payload
    of each string token, whatever length it declares, true for each
    boolean token, and a list for each array; [decode] of such an array is
    [convert] of the nodes of its items.  An array that starts with an
    integer token of more digits than [int] takes raises [ValueError]
    instead, whatever follows the token. *)
Theorem X10_decode_reads_the_text :
  forall h,
    (forall items,
       forallb wf items = true ->
       forallb Plain.clean items = true ->
       forallb (Host.short h) items = true ->
       (forall frames,
          Host.depth_list items + Host.library_frames h <= frames ->
          Host.nestLevel h (S (String.length (render_list items))) frames []
            (render_list items)
          = (Host.Ends (Ok (map Plain.plain items)), EmptyString))
       /\ forall frames count,
            number count = true ->
            S (Host.depth_list items) + Host.library_frames h < frames ->
            Host.decode_text h frames (render (EArr count items))
            = Host.Ends (convert (map Plain.plain items)))
    /\ (forall frames count digits semi rest,
          number count = true -> number digits = true ->
          Host.too_many h (String.length digits) = true ->
          safe_follow rest = true ->
          S (Host.search_frames h) < frames ->
          Host.decode_text h frames
            (open_tag count ++ render (EInt digits semi) ++ rest)
          = Host.Ends (Raise ValueError)).
Proof.
  intros h. split; [|intros; now apply HostFacts.host_decode_text_long_int_in_array].
  intros items Hwf Hclean Hshort. split.
  - intros frames Hd.
    pose proof (HostFacts.host_render_list h items Hwf Hshort frames
                  EmptyString Hd eq_refl (HostFacts.host_end h frames)
                  (S (String.length (render_list items))) []) as H.
    rewrite append_nil_r in H. rewrite H.
    now rewrite (HostFacts.nestLevel_plain items Hwf Hclean).
  - intros frames count Hnum Hd.
    assert (Hwf1 : forallb wf [EArr count items] = true)
      by (cbn [forallb wf]; now rewrite Hnum, Hwf).
    pose proof (HostFacts.host_decode_text_within h frames
                  [EArr count items] Hwf1) as H.
    change (render_list [EArr count items])
      with (render (EArr count items) ++ EmptyString)%string in H.
    rewrite append_nil_r in H. rewrite H.
    + rewrite <- (append_nil_r (render (EArr count items))).
      change (render (EArr count items) ++ EmptyString)%string
        with (render_list [EArr count items]).
      rewrite (decode_render_list _ Hwf1).
      rewrite (PlainFacts.nodes_of_plain _ Hwf1).
      cbn [forallb Plain.clean]. rewrite Hclean. reflexivity.
    + cbn [forallb Host.short]. now rewrite Hshort.
    + unfold Host.depth_list. cbn [Host.depth_with Host.depth].
      fold (Host.depth_list items). lia.
Qed.

Lemma X10_decode_reads_the_text_witness :
  Host.decode_text
    {| Host.max_str_digits := 4300; Host.search_frames := 2;
       Host.split_frames := 2 |} 5
    (dq "a:9:{s:99:'days';i:007;s:0:'on';b:0}")
  = Host.Ends (convert [Scalar (SStr "days"); Scalar (SInt 7);
                        Scalar (SStr "on"); Scalar (SBool true)])
  /\ Host.decode_text
       {| Host.max_str_digits := 640; Host.search_frames := 2;
          Host.split_frames := 2 |} 5
       ("a:2:{i:" ++ Host.copies "7" 641 ++ ";i:1;}")
     = Host.Ends (Raise ValueError).
Proof.
  destruct (X10_decode_reads_the_text
              {| Host.max_str_digits := 4300; Host.search_frames := 2;
                 Host.split_frames := 2 |}) as [Hread _].
  destruct (X10_decode_reads_the_text
              {| Host.max_str_digits := 640; Host.search_frames := 2;
                 Host.split_frames := 2 |}) as [_ Hlong].
  split.
  - apply (proj2 (Hread [EStr "99" "days" true; EInt "007" true;
                         EStr "0" "on" true; EBool false false]
                    eq_refl eq_refl eq_refl) 5 "9" eq_refl).
    vm_compute. lia.
  - apply (Hlong 5 "2" (Host.copies "7" 641) true "i:1;}");
      try reflexivity.
    vm_compute. lia.
Defined.

(** X14: [decode] only looks at the first top-level item of the text.  On
    a text of the grammar that is within the bounds of the host (integer
    tokens with no more digits than [int] takes, a frame for every array
    that is open at a time beside the frames of the library), it raises
    [ValueError] if a string payload anywhere in the text cannot be taken
    apart; otherwise it converts the first item if that is an array; if it
    is a string, it pairs up the characters of its payload; if it is an
    integer or a boolean, it raises [TypeError].  A first item that is an
    integer token of more digits than [int] takes raises [ValueError].  A
    text that is empty or starts with a closing brace has no first item:
    [IndexError], whatever follows the brace, given the frames for the
    call of [nestLevel] and its search. *)
Theorem X14_decode_of_the_first_item :
  forall h frames,
    (forall e items,
       forallb wf (e :: items) = true ->
       forallb (Host.short h) (e :: items) = true ->
       Host.depth_list (e :: items) + Host.library_frames h < frames ->
       Host.decode_text h frames (render_list (e :: items))
       = Host.Ends
           (if forallb Plain.clean (e :: items) then
              match e with
              | EArr _ sub => convert (map Plain.plain sub)
              | EStr _ payload _ => convert (chars payload)
              | _ => Raise TypeError
              end
            else Raise ValueError))
    /\ (forall digits semi rest,
          number digits = true ->
          Host.too_many h (String.length digits) = true ->
          safe_follow rest = true ->
          Host.search_frames h < frames ->
          Host.decode_text h frames (render (EInt digits semi) ++ rest)
          = Host.Ends (Raise ValueError))
    /\ (forall rest,
          Host.search_frames h < frames ->
          Host.decode_text h frames (String "}" rest)
          = Host.Ends (Raise IndexError))
    /\ (0 < frames ->
        Host.decode_text h frames EmptyString = Host.Ends (Raise IndexError)).
Proof.
  intros h frames. split; [|split; [|split]].
  - intros e items Hwf Hshort Hd.
    rewrite (HostFacts.host_decode_text_within h frames _ Hwf Hshort Hd).
    rewrite (decode_render_list _ Hwf).
    rewrite (PlainFacts.nodes_of_plain _ Hwf).
    destruct (forallb Plain.clean (e :: items)); [|reflexivity].
    now destruct e.
  - intros. now apply HostFacts.host_decode_text_long_int.
  - intros rest Hs. destruct frames as [|room]; [lia|].
    assert (Hroom : (room <? Host.search_frames h)%nat = false)
      by (apply Nat.ltb_ge; lia).
    unfold Host.decode_text.
    now rewrite (HostFacts.host_close h room rest Hroom).
  - intros Hf. destruct frames as [|room]; [lia | reflexivity].
Qed.

Lemma X14_decode_of_the_first_item_witness :
  Host.decode_text
    {| Host.max_str_digits := 4300; Host.search_frames := 2;
       Host.split_frames := 2 |} 4 (dq "s:4:'abcd';i:1;")
  = Host.Ends (Ok [(SStr "a", VScalar (SStr "b"));
                   (SStr "c", VScalar (SStr "d"))])
  /\ Host.decode_text
       {| Host.max_str_digits := 4300; Host.search_frames := 2;
          Host.split_frames := 2 |} 4 "i:5;a:0:{}"
     = Host.Ends (Raise TypeError)
  /\ Host.decode_text
       {| Host.max_str_digits := 4300; Host.search_frames := 2;
          Host.split_frames := 2 |} 4 "}i:5;"
     = Host.Ends (Raise IndexError).
Proof.
  destruct (X14_decode_of_the_first_item
              {| Host.max_str_digits := 4300; Host.search_frames := 2;
                 Host.split_frames := 2 |} 4) as (H & _ & Hclose & _).
  split; [|split].
  - apply (eq_trans (H (EStr "4" "abcd" true) [EInt "1" true]
                        eq_refl eq_refl ltac:(vm_compute; lia))).
    reflexivity.
  - apply (H (EInt "5" true) [EArr "0" []] eq_refl eq_refl
             ltac:(vm_compute; lia)).
  - apply (Hclose "i:5;"). vm_compute. lia.
Defined.

(** ** decodeRetention *)

Module RetentionFacts.
Import Retention Records Plain.

Lemma digit_facts c :
  in_class digit c = true ->
  is_space c = false
  /\ digit_value c = Some (Z.of_nat (nat_of_ascii c) - 48)%Z
  /\ forall s, int_literal (String c s) = int_body 0 false (String c s).
Proof.
  intros H. repeat split.
  - destruct c as [[] [] [] [] [] [] [] []]; try discriminate; reflexivity.
  - unfold digit_value. now rewrite H.
  - intros s.
    destruct c as [[] [] [] [] [] [] [] []]; try discriminate; reflexivity.
Qed.

Lemma space_facts c :
  is_space c = true ->
  digit_value c = None /\ Ascii.eqb c "_" = false /\ Ascii.eqb c ":" = false.
Proof.
  intros H.
  destruct c as [[] [] [] [] [] [] [] []]; try discriminate;
    repeat split; reflexivity.
Qed.

Lemma int_body_digits ws digits : forall acc after,
  all_chars (in_class digit) digits = true ->
  all_chars is_space ws = true ->
  (after = true \/ digits <> EmptyString) ->
  int_body acc after (digits ++ ws)
  = Ok (acc * 10 ^ Z.of_nat (String.length digits) + decimal digits)%Z.
Proof.
  induction digits as [|c digits IH]; intros acc after Hd Hws Hne.
  - destruct Hne as [->|Hne]; [|contradiction].
    simpl String.append. replace (acc * 10 ^ Z.of_nat (String.length EmptyString)
                                  + decimal EmptyString)%Z with acc
      by (simpl; lia).
    destruct ws as [|w ws]; [reflexivity|].
    pose proof Hws as Hws'. cbn [all_chars] in Hws'.
    apply andb_true_iff in Hws' as [Hw _].
    destruct (space_facts w Hw) as (Hdv & Hu & _).
    cbn [int_body]. now rewrite Hdv, Hu, Hws.
  - cbn [all_chars] in Hd. apply andb_true_iff in Hd as [Hc Hd].
    destruct (digit_facts c Hc) as (_ & Hdv & _).
    simpl String.append. cbn [int_body]. rewrite Hdv.
    rewrite IH by auto. f_equal.
    change (decimal (String c digits))
      with ((Z.of_nat (nat_of_ascii c) - 48)
            * 10 ^ Z.of_nat (String.length digits) + decimal digits)%Z.
    change (String.length (String c digits)) with (S (String.length digits)).
    rewrite Nat2Z.inj_succ, Z.pow_succ_r by lia. lia.
Qed.

(** A number, spaces after it or not, denotes itself. *)
Lemma int_literal_number digits ws :
  number digits = true ->
  all_chars is_space ws = true ->
  int_literal (digits ++ ws) = Ok (decimal digits).
Proof.
  intros Hnum Hws. apply number_run in Hnum as [Hne Hall].
  destruct digits as [|c digits]; [contradiction|].
  pose proof Hall as Hall'. cbn [all_chars] in Hall'.
  apply andb_true_iff in Hall' as [Hc _].
  destruct (digit_facts c Hc) as (_ & _ & Hstart).
  simpl String.append. rewrite Hstart.
  change (String c (digits ++ ws)) with (String c digits ++ ws)%string.
  rewrite int_body_digits by auto. reflexivity.
Qed.

Lemma digit_count_number digits ws :
  all_chars (in_class digit) digits = true ->
  all_chars is_space ws = true ->
  digit_count (digits ++ ws) = String.length digits.
Proof.
  intros Hd Hws. induction digits as [|c digits IH].
  - simpl String.append. clear Hd.
    induction ws as [|w ws IHws]; [reflexivity|].
    cbn [all_chars] in Hws. apply andb_true_iff in Hws as [Hw Hws].
    destruct (space_facts w Hw) as (Hdv & _ & _).
    unfold digit_value in Hdv. cbn [digit_count].
    destruct (in_class digit w); [discriminate|]. now apply IHws.
  - cbn [all_chars] in Hd. apply andb_true_iff in Hd as [Hc Hd].
    simpl String.append. cbn [digit_count]. rewrite Hc, IH by assumption.
    reflexivity.
Qed.

(** [int] of a number that it takes, spaces after it or not, is the
    number. *)
Lemma int_of_text_number h digits ws :
  number digits = true ->
  all_chars is_space ws = true ->
  Host.too_many h (String.length digits) = false ->
  int_of_text h (digits ++ ws) = Ok (decimal digits).
Proof.
  intros Hnum Hws Hshort. unfold int_of_text.
  rewrite digit_count_number, Hshort;
    [now apply int_literal_number | now apply number_run in Hnum | assumption].
Qed.

Lemma int_of_text_digits h digits :
  number digits = true ->
  Host.too_many h (String.length digits) = false ->
  int_of_text h digits = Ok (decimal digits).
Proof.
  intros Hnum Hshort. rewrite <- (append_nil_r digits) at 1.
  now apply int_of_text_number.
Qed.

Lemma spaces_no_colon ws :
  all_chars is_space ws = true ->
  all_chars (fun c => negb (Ascii.eqb c ":")) ws = true.
Proof.
  induction ws as [|c ws IH]; [reflexivity|]. cbn [all_chars].
  intros H. apply andb_true_iff in H as [Hc Hws].
  destruct (space_facts c Hc) as (_ & _ & Hcolon).
  now rewrite Hcolon, IH.
Qed.

Lemma all_chars_app p a b :
  all_chars p a = true -> all_chars p b = true ->
  all_chars p (a ++ b) = true.
Proof.
  intros Ha Hb. induction a as [|c a IH]; [exact Hb|].
  cbn [all_chars] in Ha. apply andb_true_iff in Ha as [Hc Ha].
  simpl String.append. cbn [all_chars]. now rewrite Hc, IH.
Qed.

(** [split(':')] on a field that holds no colon, before a colon. *)
Lemma split_colon_field run rest prev piece :
  all_chars (fun c => negb (Ascii.eqb c ":")) run = true ->
  split_at colon prev piece (run ++ String ":" rest)
  = (piece ++ run)%string :: split_at colon (Some ":"%char) EmptyString rest.
Proof.
  intros Hrun.
  rewrite (SplitFacts.split_at_run colon SplitFacts.colon_cuts_at_colons)
    by assumption.
  reflexivity.
Qed.

Lemma split_four a b c d :
  all_chars (fun c => negb (Ascii.eqb c ":")) a = true ->
  all_chars (fun c => negb (Ascii.eqb c ":")) b = true ->
  all_chars (fun c => negb (Ascii.eqb c ":")) c = true ->
  all_chars (fun c => negb (Ascii.eqb c ":")) d = true ->
  re_split colon (a ++ ":" ++ b ++ ":" ++ c ++ ":" ++ d) = [a; b; c; d].
Proof.
  intros Ha Hb Hc Hd. unfold re_split.
  change (a ++ ":" ++ b ++ ":" ++ c ++ ":" ++ d)%string
    with (a ++ String ":" (b ++ String ":" (c ++ String ":" d)))%string.
  rewrite !split_colon_field by assumption.
  rewrite SplitFacts.split_at_no_cut
    by (apply SplitFacts.cuts_run;
        [apply SplitFacts.colon_cuts_at_colons | assumption]).
  reflexivity.
Qed.

Lemma int_body_raises s : forall acc after e,
  int_body acc after s = Raise e -> e = ValueError.
Proof.
  induction s as [|c s IH]; intros acc after e; cbn [int_body].
  - destruct after; congruence.
  - destruct (digit_value c); [apply IH|].
    destruct (Ascii.eqb c "_").
    + destruct after; [apply IH | congruence].
    + destruct (after && all_chars is_space (String c s)); congruence.
Qed.

Lemma int_body_fuel s : forall acc after, int_body acc after s <> OutOfFuel.
Proof.
  induction s as [|c s IH]; intros acc after; cbn [int_body].
  - destruct after; discriminate.
  - destruct (digit_value c); [apply IH|].
    destruct (Ascii.eqb c "_").
    + destruct after; [apply IH | discriminate].
    + destruct (after && all_chars is_space (String c s)); discriminate.
Qed.

Lemma int_literal_outcome text :
  (exists z, int_literal text = Ok z) \/ int_literal text = Raise ValueError.
Proof.
  assert (H : forall s, (exists z, int_body 0 false s = Ok z)
                        \/ int_body 0 false s = Raise ValueError).
  { intros s. pose proof (int_body_raises s 0%Z false) as Hr.
    pose proof (int_body_fuel s 0%Z false) as Hf.
    destruct (int_body 0 false s) as [z|e|]; [eauto | | contradiction].
    right. now rewrite (Hr e eq_refl). }
  assert (Hneg : forall s,
    (exists z, match int_body 0 false s with
               | Ok z => Ok (- z)%Z
               | Raise e => Raise e
               | OutOfFuel => OutOfFuel
               end = Ok z)
    \/ match int_body 0 false s with
       | Ok z => Ok (- z)%Z
       | Raise e => Raise e
       | OutOfFuel => OutOfFuel
       end = Raise ValueError).
  { intros s. destruct (H s) as [[z ->]| ->]; eauto. }
  unfold int_literal. destruct (lstrip text) as [|c s]; [apply H|].
  destruct c as [[] [] [] [] [] [] [] []]; first [apply H | apply Hneg].
Qed.

Lemma int_of_text_outcome h text :
  (exists z, int_of_text h text = Ok z)
  \/ int_of_text h text = Raise ValueError.
Proof.
  unfold int_of_text. destruct (Host.too_many h _); [now right|].
  apply int_literal_outcome.
Qed.

(** [int] of a number with more digits than it takes. *)
Lemma int_of_text_long h digits :
  number digits = true ->
  Host.too_many h (String.length digits) = true ->
  int_of_text h digits = Raise ValueError.
Proof.
  intros Hnum Hlong. apply number_run in Hnum as [_ Hall].
  unfold int_of_text.
  rewrite <- (append_nil_r digits) at 1.
  now rewrite (digit_count_number digits EmptyString Hall eq_refl), Hlong.
Qed.

(** How the conversion of the fields ends: with as many numbers as there
    are fields, with [ValueError], or, when there is a field and no frame
    for the call of the lambda, with [RecursionError]. *)
Lemma map_days_outcome h frames policy :
  match map_days h frames policy with
  | Host.Ends (Ok days) =>
      List.length days = List.length policy /\ (policy = [] \/ 0 < frames)
  | Host.Ends (Raise e) => e = ValueError /\ 0 < frames
  | Host.Ends OutOfFuel => False
  | Host.Aborts e => e = Host.RecursionError /\ frames = 0
  end.
Proof.
  induction policy as [|hrs rest IH]; [simpl; auto|].
  cbn [map_days]. destruct frames as [|room]; [auto|].
  destruct (int_of_text_outcome h hrs) as [[z ->]| ->];
    [|split; [reflexivity | lia]].
  destruct (map_days h (S room) rest) as [[days|e|]|e];
    [|exact IH..].
  destruct IH as [Hlen _]. split; [simpl; now rewrite Hlen | right; lia].
Qed.

End RetentionFacts.

(** X12: for a retention file whose line holds four numbers of hours
    separated by colons, with or without spaces or the newline after the
    last, each with no more digits than [int] takes on the host,
    [decodeRetention], called with a frame left for its lambda, returns the
    four numbers of whole days, each the number of hours divided by 24 and
    rounded down; the local file is read unless [offsite] is set.  A line
    whose first field is a number of more digits than [int] takes raises
    [ValueError], whatever follows the field. *)
Theorem X12_decodeRetention_whole_days :
  forall h frames fs agent (offsite : bool),
    0 < frames ->
    (forall a b c d ws,
       number a = true -> number b = true ->
       number c = true -> number d = true ->
       all_chars Retention.is_space ws = true ->
       Host.too_many h (String.length a) = false ->
       Host.too_many h (String.length b) = false ->
       Host.too_many h (String.length c) = false ->
       Host.too_many h (String.length d) = false ->
       fs (Retention.KEYS ++ agent
           ++ (if offsite then ".offsiteRetention" else ".retention"))%string
       = Retention.Line (a ++ ":" ++ b ++ ":" ++ c ++ ":" ++ d ++ ws)%string ->
       Retention.decodeRetention h frames fs agent offsite
       = Host.Ends
           (Ok [(Records.decimal a / 24)%Z; (Records.decimal b / 24)%Z;
                (Records.decimal c / 24)%Z; (Records.decimal d / 24)%Z])
       /\ Forall2 (fun hours days =>
                     (24 * days <= Records.decimal hours < 24 * days + 24)%Z)
            [a; b; c; d]
            [(Records.decimal a / 24)%Z; (Records.decimal b / 24)%Z;
             (Records.decimal c / 24)%Z; (Records.decimal d / 24)%Z])
    /\ (forall a rest,
          number a = true ->
          Host.too_many h (String.length a) = true ->
          fs (Retention.KEYS ++ agent
              ++ (if offsite then ".offsiteRetention" else ".retention"))%string
          = Retention.Line (a ++ String ":" rest)%string ->
          Retention.decodeRetention h frames fs agent offsite
          = Host.Ends (Raise ValueError)).
Proof.
  intros h frames fs agent offsite Hframes.
  assert (Hno : forall x, number x = true ->
            all_chars (fun c => negb (Ascii.eqb c ":")) x = true).
  { intros x Hx. apply number_run in Hx as [_ Hx].
    now apply SplitFacts.digits_no_colon. }
  destruct frames as [|room]; [lia|].
  split.
  - intros a b c d ws Ha Hb Hc Hd Hws Hsa Hsb Hsc Hsd Hfs. split.
    + unfold Retention.decodeRetention.
      change Retention.OFFSITE_RETENTION with ".offsiteRetention".
      change Retention.LOCAL_RETENTION with ".retention".
      rewrite Hfs.
      rewrite (RetentionFacts.split_four a b c (d ++ ws)); auto.
      * cbn [Retention.map_days].
        rewrite !RetentionFacts.int_of_text_digits by assumption.
        rewrite RetentionFacts.int_of_text_number by assumption.
        reflexivity.
      * apply RetentionFacts.all_chars_app; [auto|].
        now apply RetentionFacts.spaces_no_colon.
    + repeat constructor;
        match goal with
        | |- (24 * (?h / 24) <= ?h)%Z => apply Z.mul_div_le; lia
        | |- (?h < 24 * (?h / 24) + 24)%Z =>
            pose proof (Z.mul_succ_div_gt h 24 ltac:(lia)); lia
        end.
  - intros a rest Ha Hlong Hfs.
    unfold Retention.decodeRetention.
    change Retention.OFFSITE_RETENTION with ".offsiteRetention".
    change Retention.LOCAL_RETENTION with ".retention".
    rewrite Hfs. unfold re_split.
    rewrite RetentionFacts.split_colon_field by auto.
    change (EmptyString ++ a)%string with a.
    cbn [Retention.map_days].
    now rewrite RetentionFacts.int_of_text_long.
Qed.

Lemma X12_decodeRetention_witness :
  Retention.decodeRetention
    {| Host.max_str_digits := 4300; Host.search_frames := 2;
       Host.split_frames := 2 |} 1
    (fun path =>
       if String.eqb path "/datto/config/keys/ab12.offsiteRetention"
       then Retention.Line ("240:720:8760:47" ++ String "010" EmptyString)
       else Retention.Fails FileNotFoundError)
    "ab12" true
  = Host.Ends (Ok [10; 30; 365; 1]%Z)
  /\ Retention.decodeRetention
       {| Host.max_str_digits := 640; Host.search_frames := 2;
          Host.split_frames := 2 |} 1
       (fun path =>
          Retention.Line (Host.copies "7" 641 ++ ":720:8760:47"))
       "ab12" false
     = Host.Ends (Raise ValueError).
Proof.
  split.
  - apply (proj1 (proj1 (X12_decodeRetention_whole_days
                    {| Host.max_str_digits := 4300; Host.search_frames := 2;
                       Host.split_frames := 2 |} 1
                    (fun path =>
                       if String.eqb path
                            "/datto/config/keys/ab12.offsiteRetention"
                       then Retention.Line
                              ("240:720:8760:47" ++ String "010" EmptyString)
                       else Retention.Fails FileNotFoundError)
                    "ab12" true ltac:(lia))
                    "240" "720" "8760" "47" (String "010" EmptyString)
                    eq_refl eq_refl eq_refl eq_refl eq_refl
                    eq_refl eq_refl eq_refl eq_refl eq_refl)).
  - apply (proj2 (X12_decodeRetention_whole_days
                    {| Host.max_str_digits := 640; Host.search_frames := 2;
                       Host.split_frames := 2 |} 1
                    (fun path =>
                       Retention.Line
                         (Host.copies "7" 641 ++ ":720:8760:47"))
                    "ab12" false ltac:(lia))
             (Host.copies "7" 641) "720:8760:47");
      reflexivity.
Defined.

(** X13: how [decodeRetention] ends.  When the file cannot be opened or
    read, with the exception of [open] or [readline], whatever it is
    ([FileNotFoundError], [PermissionError], [IsADirectoryError], ...).
    Otherwise it returns a list of exactly four numbers, which takes a
    line with exactly three colons, or it raises [ValueError] (a field
    that is no integer or has more digits than [int] takes, more or fewer
    than four fields), or, called without a frame left for its lambda, it
    is stopped with [RecursionError]. *)
Theorem X13_decodeRetention_outcomes :
  forall h frames fs agent (offsite : bool),
    let path := (Retention.KEYS ++ agent
                 ++ (if offsite then Retention.OFFSITE_RETENTION
                     else Retention.LOCAL_RETENTION))%string in
    match Retention.decodeRetention h frames fs agent offsite with
    | Host.Ends (Ok days) =>
        List.length days = 4
        /\ 0 < frames
        /\ exists line, fs path = Retention.Line line
                        /\ Records.cuts colon None line = 3
    | Host.Ends (Raise e) =>
        fs path = Retention.Fails e
        \/ (e = ValueError /\ 0 < frames
            /\ exists line, fs path = Retention.Line line)
    | Host.Ends OutOfFuel => False
    | Host.Aborts e =>
        fs path = Retention.Refused e
        \/ (e = Host.RecursionError /\ frames = 0
            /\ exists line, fs path = Retention.Line line)
    end.
Proof.
  intros h frames fs agent offsite path. unfold Retention.decodeRetention.
  fold path. destruct (fs path) as [line|e|e]; [|now left..].
  pose proof (SplitFacts.split_at_length colon line None EmptyString) as Hlen.
  fold (re_split colon line) in Hlen.
  pose proof (RetentionFacts.map_days_outcome h frames (re_split colon line))
    as Hout.
  destruct (Retention.map_days h frames (re_split colon line))
    as [[days|e|]|e].
  - destruct Hout as [Hdays Hframes].
    assert (Hf : 0 < frames).
    { destruct Hframes as [Hnil|Hf]; [|exact Hf].
      rewrite Hnil in Hlen. discriminate Hlen. }
    rewrite Hlen in Hdays.
    destruct days as [|d1 [|d2 [|d3 [|d4 [|d5 days]]]]];
      try (right; eauto; fail).
    split; [reflexivity|]. split; [exact Hf|].
    exists line. split; [reflexivity|]. simpl in Hdays. lia.
  - destruct Hout as [-> Hf]. right. eauto.
  - contradiction.
  - destruct Hout as [-> Hf]. right. eauto.
Qed.

(** X15: the dicts that the look-ups return are the nested dicts of the
    record themselves, not copies: for a store that holds the record, the
    only object that [findAll] adds is its list, at an address that was
    unused, and every reference in that list, like a reference that [find]
    returns, is the address of a dict that was in the store before the
    call. *)
Theorem X15_lookups_share_the_nested_dicts :
  forall fuel key (nestedDicts : Store.loc) (h : Store.heap) d,
    Store.holds h (VDict d) (Store.Ref nestedDicts) ->
    Store.depth (VDict d) <= fuel ->
    (exists elems,
       Store.findAll fuel key nestedDicts h
       = (Ok (fresh (dom h)), <[fresh (dom h) := Store.OList elems]> h)
       /\ h !! fresh (dom h) = None
       /\ forall l, In (Store.Ref l) elems ->
                    exists items, h !! l = Some (Store.ODict items))
    /\ (forall l h',
          Store.find fuel key nestedDicts h = (Ok (Some (Store.Ref l)), h')
          -> exists items, h !! l = Some (Store.ODict items)).
Proof.
  intros fuel key r h d Hd Hdepth.
  assert (Hshared : forall v l, Store.holds h v (Store.Ref l) ->
            exists items, h !! l = Some (Store.ODict items)).
  { intros [s|sub] l; simpl; [discriminate|].
    intros (l' & items & [= <-] & Hl & _). eauto. }
  split.
  - pose proof (StoreFacts.fresh_unused h) as Hnew.
    destruct (StoreFacts.findAll_traverse_refines h key (fresh (dom h))
                (VDict d) Hnew fuel r [] [] Hd Hdepth (Forall2_nil _))
      as (elems & Hrun & Helems).
    exists elems. split; [|split; [exact Hnew|]].
    + unfold Store.findAll, Store.hbind, Store.new_list. now rewrite Hrun.
    + intros l Hin. clear Hrun.
      induction Helems as [|v rv vs rvs Hv _ IH]; [contradiction|].
      destruct Hin as [->|Hin]; [now apply (Hshared v) | now apply IH].
  - intros l h' Hrun.
    destruct (StoreFacts.find_traverse_refines h key (VDict d) fuel r
                Hd Hdepth) as (res' & Hrun' & Hrel).
    unfold Store.find in Hrun. rewrite Hrun' in Hrun.
    injection Hrun as -> _.
    unfold Store.holds_result in Hrel.
    destruct (find_value key (VDict d)) as [v|]; [|contradiction].
    now apply (Hshared v).
Qed.

Lemma X15_lookups_share_witness :
  let h : Store.heap :=
    <[0 := Store.ODict [(SStr "k", Store.Ref 1)]]>
      (<[1 := Store.ODict [(SStr "n", Store.Imm (SInt 7))]]> ∅) in
  (exists elems,
     Store.findAll 2 (SStr "k") 0 h
     = (Ok (fresh (dom h)), <[fresh (dom h) := Store.OList elems]> h)
     /\ h !! fresh (dom h) = None
     /\ forall l, In (Store.Ref l) elems ->
                  exists items, h !! l = Some (Store.ODict items)).
Proof.
  intros h.
  apply (X15_lookups_share_the_nested_dicts 2 (SStr "k") 0 h
           [(SStr "k", VDict [(SStr "n", VScalar (SInt 7))])]).
  - exists 0, [(SStr "k", Store.Ref 1)]. repeat split.
    exists 1, [(SStr "n", Store.Imm (SInt 7))]. repeat split.
  - simpl. lia.
Defined.
